(** * CorticalAI: function-call detection, dispatch and stream relay

    A shallow embedding of the orchestration core of CorticalAI and the
    properties proved of it.

    - [src/framework.js], the v1 framework: the [config.functions] object,
      [registerBrowserFunctions], [detectFunctionCall], [executeFunction],
      [validateFunctionArgs], [processOllamaStream] and the [POST /stream]
      route; [mergeWithDefaults], [deepMerge] and [parseNavigationLinks].
    - [src/unnamed/part_000], the v2 framework: [FunctionRegistry] with
      [register], [get], [getAll], the built-in browser functions,
      [registerAPI], [registerCommand], [registerScript] and [registerN8N];
      [registerUserFunctions]; [detectFunctionCall]; [streamLLMResponse]
      and the [POST /api/v1/chat/stream] route; [mergeWithDefaults] and
      [deepMerge]; the [AuthenticationManager].
    - [src/index.js]: [fetchAPI]; [src/examples/duckduck-go/index.js]: the
      [pingHost] function.

    JavaScript strings are sequences of UTF-16 code units; values are a
    JSON-like tree; asynchronous code is written in a state-and-exception
    monad over an explicit world (the processes spawned and the requests
    issued) and, in the routes, the HTTP response. What the environment
    answers (the shell, the network, [JSON.parse], the clock, the random
    bytes, the verification of tokens) is a parameter.

    Not part of this development: the context enhancer, the generation of
    example prompts, the documentation and static routes, the byte-level
    framing of events ([data: ...] lines), socket timeouts, the code that
    runs in the browser. *)

From Stdlib Require Import List NArith ZArith Bool String Ascii Lia.
From Stdlib Require Import DecimalString.
Import ListNotations.

Set Implicit Arguments.
Set Warnings "-register-all".

(* ===================================================================== *)
(** ** JavaScript strings and values *)
(* ===================================================================== *)

Module JS.

(** A string is a list of UTF-16 code units. *)
Definition jsstring := list N.

(** ASCII literals. *)
Definition str (s : string) : jsstring :=
  List.map N_of_ascii (list_ascii_of_string s).

Fixpoint jsstring_eqb (a b : jsstring) : bool :=
  match a, b with
  | [], [] => true
  | x :: a', y :: b' => N.eqb x y && jsstring_eqb a' b'
  | _, _ => false
  end.

(** [String.prototype.startsWith] (without a position). *)
Fixpoint startsWith (s p : jsstring) : bool :=
  match p, s with
  | [], _ => true
  | x :: p', y :: s' => N.eqb x y && startsWith s' p'
  | _ :: _, [] => false
  end.

(** WhiteSpace and LineTerminator code units, as stripped by
    [String.prototype.trim]. *)
Definition is_whitespace (c : N) : bool :=
  (  (c =? 9) || (c =? 10) || (c =? 11) || (c =? 12) || (c =? 13)
  || (c =? 32) || (c =? 160) || (c =? 5760)
  || ((8192 <=? c) && (c <=? 8202))
  || (c =? 8232) || (c =? 8233) || (c =? 8239) || (c =? 8287)
  || (c =? 12288) || (c =? 65279))%N.

Fixpoint trimStart (s : jsstring) : jsstring :=
  match s with
  | c :: s' => if is_whitespace c then trimStart s' else s
  | [] => []
  end.

Definition trimEnd (s : jsstring) : jsstring := rev (trimStart (rev s)).

Definition trim (s : jsstring) : jsstring := trimEnd (trimStart s).

(** [s.split('\n')]: always at least one piece. *)
Fixpoint split_lines (s : jsstring) : list jsstring :=
  match s with
  | [] => [[]]
  | c :: s' =>
      if (c =? 10)%N then [] :: split_lines s'
      else match split_lines s' with
           | l :: ls => (c :: l) :: ls
           | [] => [[c]]
           end
  end.

(** Decimal rendering of a non-negative number, as in a template literal. *)
Definition N_to_jsstring (n : N) : jsstring :=
  str (NilEmpty.string_of_uint (N.to_uint n)).

Definition Z_to_jsstring (z : Z) : jsstring :=
  match z with
  | Zneg p => str "-" ++ N_to_jsstring (Npos p)
  | _ => N_to_jsstring (Z.to_N z)
  end.

(** Values. Numbers are restricted to the safe integers (magnitude below
    2^53), which JavaScript represents exactly and prints in plain decimal
    digits; functions do not occur as data in the modelled code paths.
    Objects keep their own properties in insertion order. *)
Inductive value :=
| VUndefined
| VNull
| VBool (b : bool)
| VNum (z : Z)
| VStr (s : jsstring)
| VArr (items : list value)
| VObj (props : list (jsstring * value)).

(** ToBoolean. *)
Definition truthy (v : value) : bool :=
  match v with
  | VUndefined | VNull => false
  | VBool b => b
  | VNum z => negb (z =? 0)%Z
  | VStr s => match s with [] => false | _ => true end
  | VArr _ | VObj _ => true
  end.

Fixpoint assoc (k : jsstring) (ps : list (jsstring * value)) : option value :=
  match ps with
  | [] => None
  | (k', v) :: ps' => if jsstring_eqb k k' then Some v else assoc k ps'
  end.

Fixpoint join (sep : jsstring) (l : list jsstring) : jsstring :=
  match l with
  | [] => []
  | [x] => x
  | x :: l' => x ++ sep ++ join sep l'
  end.

(** ToString, as applied by template literals (a number in the range above:
    the exponent notation of 1e21 and beyond does not occur). *)
Fixpoint toString (v : value) : jsstring :=
  match v with
  | VUndefined => str "undefined"
  | VNull => str "null"
  | VBool true => str "true"
  | VBool false => str "false"
  | VNum z => Z_to_jsstring z
  | VStr s => s
  | VArr items =>
      join (str ",")
        (List.map (fun x => match x with
                            | VUndefined | VNull => []
                            | _ => toString x
                            end) items)
  | VObj _ => str "[object Object]"
  end.

(** Thrown errors: [error.name] and [error.message] are all that is observed. *)
Record exn := { errname : jsstring; message : jsstring }.

(** [new Error(msg)] *)
Definition Error (msg : jsstring) : exn :=
  {| errname := str "Error"; message := msg |}.

(** The engine's own [TypeError]s and [SyntaxError]s. *)
Definition TypeError (msg : jsstring) : exn :=
  {| errname := str "TypeError"; message := msg |}.

Definition SyntaxError (msg : jsstring) : exn :=
  {| errname := str "SyntaxError"; message := msg |}.

Inductive result (A : Type) :=
| Ok (a : A)
| Throw (e : exn).
Arguments Ok {A} a.
Arguments Throw {A} e.

(** Property read [v.k]. Reading a property of [undefined] or [null] throws;
    any other value without the own property yields [undefined]. *)
Definition getProp (v : value) (k : string) : result value :=
  match v with
  | VUndefined =>
      Throw (TypeError (str "Cannot read properties of undefined (reading '"
                          ++ str k ++ str "')"))
  | VNull =>
      Throw (TypeError (str "Cannot read properties of null (reading '"
                          ++ str k ++ str "')"))
  | VObj ps => Ok (match assoc (str k) ps with Some x => x | None => VUndefined end)
  | _ => Ok VUndefined
  end.

(** JavaScript [Map] (and own properties of an object) with string keys.

    Entries are kept in insertion order; [set] on a key already present
    replaces its value in place. *)
Section StringMap.
Variable V : Type.

Definition Map := list (jsstring * V).

Fixpoint Map_set (k : jsstring) (v : V) (m : Map) : Map :=
  match m with
  | [] => [(k, v)]
  | (k', v') :: m' =>
      if jsstring_eqb k k' then (k, v) :: m' else (k', v') :: Map_set k v m'
  end.

Fixpoint Map_get (k : jsstring) (m : Map) : option V :=
  match m with
  | [] => None
  | (k', v) :: m' => if jsstring_eqb k k' then Some v else Map_get k m'
  end.

(** How many entries a key has. *)
Definition Map_count (k : jsstring) (m : Map) : nat :=
  List.length (filter (fun e => jsstring_eqb k (fst e)) m).

(** The invariant of a [Map]: no key occurs twice. *)
Definition Map_wf (m : Map) : Prop := NoDup (List.map fst m).
End StringMap.

(** Sequencing of computations that may throw. *)
Definition andThen {A B} (r : result A) (f : A -> result B) : result B :=
  match r with
  | Ok a => f a
  | Throw e => Throw e
  end.

(** [a && b] and [a || b] as values, with the right operand evaluated on demand. *)
Definition andAlso (a b : result value) : result value :=
  andThen a (fun x => if truthy x then b else Ok x).

Definition orElse (a b : result value) : result value :=
  andThen a (fun x => if truthy x then Ok x else b).

(** The double quote and the newline characters. *)
Definition dquote : jsstring := [34%N].

Definition nl : jsstring := [10%N].

(** [line.trim()] as a condition. *)
Definition nonblank (line : jsstring) : bool :=
  match trim line with
  | [] => false
  | _ :: _ => true
  end.

End JS.

Import JS.

(* ===================================================================== *)
(** ** Regular expressions: the fragment used by [functionPattern] *)
(* ===================================================================== *)

Module Regex.

(** The pattern language needed for [^FUNCTION:(\w+):(.+)$]: anchors,
    literal characters, greedy [X+] over a one-character class, capturing
    groups and concatenation. *)
Inductive regex :=
| RBegin
| REnd
| RChar (c : N)
| RPlus (cls : N -> bool)
| RGroup (r : regex)
| RSeq (r1 r2 : regex).

(** [\w] *)
Definition word (c : N) : bool :=
  (  ((48 <=? c) && (c <=? 57))
  || ((65 <=? c) && (c <=? 90))
  || ((97 <=? c) && (c <=? 122))
  || (c =? 95))%N.

(** [.] without the [s] flag: anything but a line terminator. *)
Definition dot (c : N) : bool :=
  negb ((c =? 10) || (c =? 13) || (c =? 8232) || (c =? 8233))%N.

(** Captures are filled in by group number (order of opening parenthesis). *)
Fixpoint set_nth (n : nat) (x : jsstring) (l : list jsstring) : list jsstring :=
  match n, l with
  | O, _ :: l' => x :: l'
  | S n', y :: l' => y :: set_nth n' x l'
  | _, [] => []
  end.

Section Matcher.
Variable R : Type.

(** The continuation receives the index reached, the rest of the input and
    the captures so far. *)
Definition kont := nat -> jsstring -> list jsstring -> option R.

(** Greedy [X+]: take one character of the class, prefer taking more, and
    fall back to the continuation. *)
Fixpoint plus_loop (cls : N -> bool) (k : nat -> jsstring -> option R)
         (i : nat) (s : jsstring) : option R :=
  match s with
  | c :: s' =>
      if cls c then
        match plus_loop cls k (S i) s' with
        | Some r => Some r
        | None => k (S i) s'
        end
      else None
  | [] => None
  end.

(** Backtracking matcher: [i] is the index of [s] in the whole input. *)
Fixpoint rmatch (r : regex) (i : nat) (s : jsstring)
         (caps : list jsstring) (k : kont) : option R :=
  match r with
  | RBegin => match i with O => k i s caps | S _ => None end
  | REnd => match s with [] => k i s caps | _ :: _ => None end
  | RChar c =>
      match s with
      | c' :: s' => if (c =? c')%N then k (S i) s' caps else None
      | [] => None
      end
  | RPlus cls => plus_loop cls (fun j s' => k j s' caps) i s
  | RGroup r1 =>
      let n := List.length caps in
      rmatch r1 i s (caps ++ [[]])
        (fun j s' caps' => k j s' (set_nth n (firstn (j - i) s) caps'))
  | RSeq r1 r2 =>
      rmatch r1 i s caps (fun j s' caps' => rmatch r2 j s' caps' k)
  end.
End Matcher.

(** [RegExp.prototype.exec] without flags: the leftmost match; the result
    array holds the whole match followed by the groups. *)
Fixpoint exec_from (r : regex) (i : nat) (s : jsstring) : option (list jsstring) :=
  match rmatch r i s [] (fun j _ caps => Some (firstn (j - i) s :: caps)) with
  | Some m => Some m
  | None =>
      match s with
      | [] => None
      | _ :: s' => exec_from r (S i) s'
      end
  end.

(** [text.match(pattern)] for a pattern without the [g] flag. *)
Definition String_match (s : jsstring) (r : regex) : option (list jsstring) :=
  exec_from r 0 s.

Definition literal (s : string) (r : regex) : regex :=
  fold_right (fun c acc => RSeq (RChar c) acc) r (str s).

(** The default of [mergeWithDefaults]:
    [new RegExp("^FUNCTION:(\\w+):(.+)$")]. *)
Definition defaultFunctionPattern : regex :=
  RSeq RBegin
    (literal "FUNCTION:"
       (RSeq (RGroup (RPlus word))
          (RSeq (RChar 58)
             (RSeq (RGroup (RPlus dot)) REnd)))).

End Regex.

Import Regex.

(* ===================================================================== *)
(** ** Effects: exceptions and explicit state *)
(* ===================================================================== *)

Module Effect.

(** A computation over a state [S] that returns or throws; the state
    reached before a throw is kept, as side effects are in JavaScript. *)
Definition ST (S A : Type) := S -> result A * S.

Definition ret {S A} (a : A) : ST S A := fun s => (Ok a, s).

Definition throw {S A} (e : exn) : ST S A := fun s => (Throw e, s).

Definition bind {S A B} (m : ST S A) (f : A -> ST S B) : ST S B :=
  fun s => match m s with
           | (Ok a, s') => f a s'
           | (Throw e, s') => (Throw e, s')
           end.

(** [try { m } catch (error) { h error }] *)
Definition tryCatch {S A} (m : ST S A) (h : exn -> ST S A) : ST S A :=
  fun s => match m s with
           | (Ok a, s') => (Ok a, s')
           | (Throw e, s') => h e s'
           end.

Definition lift {S A} (r : result A) : ST S A := fun s => (r, s).

Definition modify {S} (f : S -> S) : ST S unit := fun s => (Ok tt, f s).

Definition when {S} (b : bool) (m : ST S unit) : ST S unit :=
  if b then m else ret tt.

(** A promise settles once; later calls of [resolve] and [reject] do nothing. *)
Inductive Promise :=
| Pending
| Resolved
| Rejected (e : exn).

Definition resolve (p : Promise) : Promise :=
  match p with Pending => Resolved | _ => p end.

Definition reject (e : exn) (p : Promise) : Promise :=
  match p with Pending => Rejected e | _ => p end.

End Effect.

Import Effect.

Declare Scope js_scope.
Delimit Scope js_scope with js.
Notation "x <- m ;; k" := (bind m (fun x => k))
  (at level 61, m at next level, right associativity) : js_scope.
Notation "m ;;; k" := (bind m (fun _ => k))
  (at level 61, right associativity) : js_scope.
Open Scope js_scope.

(* ===================================================================== *)
(** ** The outside world: child processes and HTTP *)
(* ===================================================================== *)

Module Host.

Record ExecOptions := { timeout : N; maxBuffer : N }.

Record FetchOptions := {
  fo_method : jsstring;
  fo_headers : list (jsstring * jsstring);
  fo_body : option jsstring
}.

(** What happens while a response body is read, in order: the stream's
    ['data'], ['end'] and ['error'] events, and the moment the reader's
    stream timeout elapses (seen only by a reader that armed a timer). *)
Inductive BodyEvent :=
| Data (chunk : jsstring)
| End
| BodyError (e : exn)
| Elapsed.

Record Response := {
  ok : bool;
  status : N;
  statusText : jsstring;
  headers : list (jsstring * jsstring);
  text : result jsstring;        (* [await response.text()] *)
  body : list BodyEvent          (* [response.body.on(...)] *)
}.

(** The world records every process spawned and every request issued. *)
Record World := {
  spawned : list (jsstring * ExecOptions);
  requested : list (jsstring * FetchOptions)
}.

Definition initialWorld : World := {| spawned := []; requested := [] |}.

(** How the environment answers, possibly depending on what happened before.
    [JSON_parse] is [None] on a text that [JSON.parse] rejects, and
    [JSON_error] is then the message of the [SyntaxError] the engine throws. *)
Record Environment := {
  exec_outcome : World -> jsstring -> ExecOptions -> result (jsstring * jsstring);
  fetch_outcome : World -> jsstring -> FetchOptions -> result Response;
  JSON_parse : jsstring -> option value;
  JSON_error : jsstring -> jsstring;
  JSON_stringify : value -> jsstring
}.

Section Primitives.
Variable env : Environment.

(** [promisify(exec)]: spawns a shell; resolves with stdout and stderr or
    rejects (non-zero exit, timeout, output over [maxBuffer]). *)
Definition execAsync (command : jsstring) (o : ExecOptions)
  : ST World (jsstring * jsstring) :=
  fun w => (exec_outcome env w command o,
            {| spawned := spawned w ++ [(command, o)];
               requested := requested w |}).

Definition fetch (url : jsstring) (o : FetchOptions) : ST World Response :=
  fun w => (fetch_outcome env w url o,
            {| spawned := spawned w;
               requested := requested w ++ [(url, o)] |}).
End Primitives.

End Host.

Import Host.

(* ===================================================================== *)
(** ** Server-sent events and the response object *)
(* ===================================================================== *)

Module SSE.

(** The payloads handed to [JSON.stringify] in the [res.write] calls, by
    their [type] discriminator. *)
Inductive event :=
| token (text : value)
| status (text : jsstring)
| function_result (data : value)
| search_results (results totalResults : value)
| browser_action (action data : value)
| error (error : value)
| done.

(** The HTTP response: what went out on the connection, whether [end()] was
    called, and the writes attempted after that (Node refuses them with
    [ERR_STREAM_WRITE_AFTER_END]; nothing reaches the client). *)
Record Res := {
  sent : list event;
  writableEnded : bool;
  refused : list event
}.

Definition openRes : Res := {| sent := []; writableEnded := false; refused := [] |}.

Definition write (e : event) (r : Res) : Res :=
  if writableEnded r
  then {| sent := sent r; writableEnded := true; refused := refused r ++ [e] |}
  else {| sent := sent r ++ [e]; writableEnded := false; refused := refused r |}.

Definition end_ (r : Res) : Res :=
  {| sent := sent r; writableEnded := true; refused := refused r |}.

Definition terminal (e : event) : bool :=
  match e with
  | done | error _ => true
  | _ => false
  end.

(** The state threaded through a route: the response and the world. *)
Definition RS := (Res * World)%type.

Definition resWrite (e : event) : ST RS unit :=
  modify (fun s => (write e (fst s), snd s)).

Definition resEnd : ST RS unit :=
  modify (fun s => (end_ (fst s), snd s)).

Definition inWorld {A} (m : ST World A) : ST RS A :=
  fun s => let (r, w) := m (snd s) in (r, (fst s, w)).

End SSE.

(* ===================================================================== *)
(** ** The v2 framework ([src/unnamed/part_000]) *)
(* ===================================================================== *)

Module Enhanced.

(** Object spread [{...a, ...b}] on string-valued objects. *)
Definition spread (a b : list (jsstring * jsstring)) : list (jsstring * jsstring) :=
  fold_left (fun acc kv => Map_set (fst kv) (snd kv) acc) b a.

(** [x || d] on an optional number. *)
Definition orNumber (x : option N) (d : N) : N :=
  match x with
  | Some 0%N | None => d
  | Some n => n
  end.

(** [x || d] on an optional string. *)
Definition orString (x : option jsstring) (d : jsstring) : jsstring :=
  match x with
  | Some [] | None => d
  | Some s => s
  end.

(** *** Configuration *)

Record Security := { allowCommands : bool; allowScripts : bool }.

Record LLM := { llm_endpoint : jsstring; llm_model : jsstring }.

Record Config := {
  security : option Security;
  functionPattern : regex;
  systemPrompt : jsstring;
  llm : LLM
}.

(** [this.config.security?.allowCommands] *)
Definition security_allowCommands (c : Config) : bool :=
  match security c with
  | Some s => allowCommands s
  | None => false
  end.

(** *** Function definitions and the registry *)

Record FunctionDef := {
  type : jsstring;
  name : jsstring;
  handler : value -> ST World value;
  parseArgs : option (value -> result value);
  description : option jsstring
}.

(** The [definition] argument of [register], as the registration methods
    build it: [{ handler, parseArgs, description }]. *)
Record Definition_ := {
  def_handler : value -> ST World value;
  def_parseArgs : option (value -> result value);
  def_description : option jsstring
}.

Record FunctionRegistry := {
  functions : Map FunctionDef;
  config : Config
}.

Definition register (type name : jsstring) (definition : Definition_)
           (this : FunctionRegistry) : FunctionRegistry :=
  {| functions :=
       Map_set name
         {| type := type; name := name;
            handler := def_handler definition;
            parseArgs := def_parseArgs definition;
            description := def_description definition |}
         (functions this);
     config := config this |}.

Definition get (this : FunctionRegistry) (name : jsstring) : option FunctionDef :=
  Map_get name (functions this).

Definition getAll (this : FunctionRegistry)
  : list (jsstring * jsstring * option jsstring) :=
  List.map (fun e => (fst e, type (snd e), description (snd e))) (functions this).

(** [(raw) => raw.trim()] *)
Definition trimArgs (raw : value) : result value :=
  match raw with
  | VStr s => Ok (VStr (trim s))
  | VUndefined =>
      Throw (TypeError (str "Cannot read properties of undefined (reading 'trim')"))
  | VNull =>
      Throw (TypeError (str "Cannot read properties of null (reading 'trim')"))
  | _ => Throw (TypeError (str "raw.trim is not a function"))
  end.

(** The result object of a browser function. *)
Definition browserResult (action key : string) (payload : value) : value :=
  VObj [ (str "success", VBool true);
         (str "browserAction", VStr (str action));
         (str "data", VObj [(str key, payload)]) ].

Definition browserFunction (action key : string) (description : string) : Definition_ :=
  {| def_handler := fun payload => ret (browserResult action key payload);
     def_parseArgs := Some trimArgs;
     def_description := Some (str description) |}.

Definition registerBuiltInFunctions (this : FunctionRegistry) : FunctionRegistry :=
  let this := register (str "browser") (str "showAlert")
                (browserFunction "alert" "message"
                   "Show an alert dialog in the browser") this in
  let this := register (str "browser") (str "openWindow")
                (browserFunction "openWindow" "url"
                   "Open a URL in a new browser window") this in
  let this := register (str "browser") (str "showModal")
                (browserFunction "modal" "url"
                   "Display a modal with embedded content") this in
  register (str "browser") (str "speak")
    (browserFunction "speak" "text"
       "Use text-to-speech to speak text aloud") this.

(** [new FunctionRegistry(config)] *)
Definition new_FunctionRegistry (config : Config) : FunctionRegistry :=
  registerBuiltInFunctions {| functions := []; config := config |}.

Definition failure (msg : jsstring) (more : list (jsstring * value)) : value :=
  VObj ((str "success", VBool false) :: (str "error", VStr msg) :: more).

Section Handlers.
Variable env : Environment.

(** *** API functions *)

Inductive Endpoint :=
| EndpointUrl (url : jsstring)
| EndpointFn (f : value -> result jsstring).

(** What a call of [config.transform] comes to: a value (or a promise that
    resolves to it), a synchronous throw, or, from an [async] transform, a
    promise that rejects. *)
Inductive Transformed :=
| Returns (v : value)
| Throws (e : exn)
| Rejects (e : exn).

Record APIConfig := {
  api_endpoint : Endpoint;
  api_method : option jsstring;
  api_headers : list (jsstring * jsstring);
  api_body : option (value -> result value);
  api_transform : option (value -> value -> Transformed);
  api_parseArgs : option (value -> result value);
  api_description : option jsstring
}.

Definition apiOptions (cfg : APIConfig) (args : value) : result FetchOptions :=
  match (match api_body cfg with
         | Some b => match b args with
                     | Ok v => Ok (Some (JSON_stringify env v))
                     | Throw e => Throw e
                     end
         | None => Ok None
         end) with
  | Ok b =>
      Ok {| fo_method := orString (api_method cfg) (str "GET");
            fo_headers :=
              spread [ (str "User-Agent", str "CorticalAI/2.0");
                       (str "Accept", str "application/json") ]
                     (api_headers cfg);
            fo_body := b |}
  | Throw e => Throw e
  end.

(** [typeof config.endpoint === 'function' ? config.endpoint(args) : config.endpoint] *)
Definition resolveEndpoint (cfg : APIConfig) (args : value) : result jsstring :=
  match api_endpoint cfg with
  | EndpointFn f => f args
  | EndpointUrl u => Ok u
  end.

(** The [try] block returns a value or, from [return config.transform(data,
    args)], whatever the transform returned: the promise of an [async]
    transform is returned without [await], so its rejection passes the
    [catch] by and becomes that of the handler. What the block returns is
    modelled as the outcome it settles to. *)
Definition apiHandler (cfg : APIConfig) (args : value) : ST World value :=
  returned <-
    tryCatch
      (url <- lift (resolveEndpoint cfg args) ;;
       options <- lift (apiOptions cfg args) ;;
       response <- fetch env url options ;;
       when (negb (ok response))
            (throw (Error (str "HTTP " ++ N_to_jsstring (Host.status response)
                             ++ str ": " ++ statusText response))) ;;;
       (* Force JSON parsing regardless of content-type *)
       text <- lift (Host.text response) ;;
       match JSON_parse env text with
       | None => ret (Ok (failure (str "Invalid response format") []))
       | Some data =>
           match api_transform cfg with
           | Some transform =>
               match transform data args with
               | Returns v => ret (Ok v)
               | Throws e => throw e
               | Rejects e => ret (Throw e)
               end
           | None => ret (Ok data)
           end
       end)
      (fun error => ret (Ok (failure (message error) []))) ;;
  lift returned.

Definition registerAPI (name : jsstring) (cfg : APIConfig)
           (this : FunctionRegistry) : FunctionRegistry :=
  register (str "api") name
    {| def_handler := apiHandler cfg;
       def_parseArgs := api_parseArgs cfg;
       def_description := api_description cfg |} this.

(** *** Command functions *)

Inductive Command :=
| CommandText (c : jsstring)
| CommandFn (f : value -> result jsstring).

Record CommandConfig := {
  cmd_command : Command;
  cmd_allowedCommands : option (list jsstring);
  cmd_timeout : option N;
  cmd_maxBuffer : option N;
  cmd_parseArgs : option (value -> result value);
  cmd_description : option jsstring
}.

(** [typeof config.command === 'function' ? config.command(args) : config.command] *)
Definition computeCommand (cfg : CommandConfig) (args : value) : result jsstring :=
  match cmd_command cfg with
  | CommandFn f => f args
  | CommandText c => Ok c
  end.

(** [config.allowedCommands && !config.allowedCommands.some(cmd => command.startsWith(cmd))] *)
Definition notAllowed (cfg : CommandConfig) (command : jsstring) : bool :=
  match cmd_allowedCommands cfg with
  | Some allowed => negb (existsb (fun cmd => startsWith command cmd) allowed)
  | None => false
  end.

Definition commandHandler (rconfig : Config) (cfg : CommandConfig) (args : value)
  : ST World value :=
  tryCatch
    (when (negb (security_allowCommands rconfig))
          (throw (Error (str "Command execution is disabled for security"))) ;;;
     command <- lift (computeCommand cfg args) ;;
     (* Security validation *)
     when (notAllowed cfg command)
          (throw (Error (str "Command not allowed: " ++ command))) ;;;
     out <- execAsync env command
              {| timeout := orNumber (cmd_timeout cfg) 10000;
                 maxBuffer := orNumber (cmd_maxBuffer cfg) (1024 * 1024) |} ;;
     ret (VObj [ (str "success", VBool true);
                 (str "stdout", VStr (fst out));
                 (str "stderr", VStr (snd out));
                 (str "command", VStr command) ]))
    (fun error =>
       ret (failure (message error)
              [ (str "command",
                 match cmd_command cfg with
                 | CommandFn _ => VStr (str "dynamic")
                 | CommandText c => VStr c
                 end) ])).

Definition registerCommand (name : jsstring) (cfg : CommandConfig)
           (this : FunctionRegistry) : FunctionRegistry :=
  register (str "command") name
    {| def_handler := commandHandler (config this) cfg;
       def_parseArgs := cmd_parseArgs cfg;
       def_description := cmd_description cfg |} this.

End Handlers.

(** *** The framework object

    The constructor shares one configuration object between the framework
    and its registry, and goes on to register the user's functions; a
    framework is characterised here by its configuration and its registry. *)

Record LLMFramework := {
  this_config : Config;
  functionRegistry : FunctionRegistry
}.

(** The constructor's registry, before any user function is added. *)
Definition new_LLMFramework (config : Config) : LLMFramework :=
  {| this_config := config; functionRegistry := new_FunctionRegistry config |}.

Record DetectedCall := { function : jsstring; args : value }.

(** [func.parseArgs(rawArgs)] *)
Definition callParseArgs (func : FunctionDef) (rawArgs : value) : result value :=
  match parseArgs func with
  | Some parse => parse rawArgs
  | None => Throw (TypeError (str "func.parseArgs is not a function"))
  end.

(** The value returned is [null] ([None]) or the detected call; a
    non-string argument makes [text.trim()] throw. *)
Definition detectFunctionCall (this : LLMFramework) (text : value)
  : result (option DetectedCall) :=
  match text with
  | VStr s =>
      match String_match (trim s) (functionPattern (this_config this)) with
      | Some match_ =>
          (* const [_, funcName, rawArgs] = match *)
          let rawArgs := match nth_error match_ 2 with
                         | Some a => VStr a
                         | None => VUndefined
                         end in
          match nth_error match_ 1 with
          | Some funcName =>
              match get (functionRegistry this) funcName with
              | Some func =>
                  match callParseArgs func rawArgs with
                  | Ok args => Ok (Some {| function := funcName; args := args |})
                  | Throw _ => Ok None
                  end
              | None => Ok None
              end
          | None => Ok None
          end
      | None => Ok None
      end
  | VUndefined =>
      Throw (TypeError (str "Cannot read properties of undefined (reading 'trim')"))
  | VNull =>
      Throw (TypeError (str "Cannot read properties of null (reading 'trim')"))
  | _ => Throw (TypeError (str "text.trim is not a function"))
  end.

(** The [confirmations] table is built eagerly, so every template reads its
    property of [data]. Properties inherited from [Object.prototype] are not
    part of the table modelled here. *)
Definition getBrowserActionConfirmation (action data : value) : result value :=
  andThen (getProp data "message") (fun message =>
  andThen (getProp data "url") (fun url =>
  andThen (getProp data "text") (fun text =>
    let confirmations :=
      [ (str "alert", VStr (str "Alert displayed: " ++ dquote ++ toString message ++ dquote));
        (str "openWindow", VStr (str "Opening new tab: " ++ toString url));
        (str "modal", VStr (str "Opening modal with: " ++ toString url));
        (str "speak", VStr (str "Speaking: " ++ dquote ++ toString text ++ dquote)) ] in
    orElse (Ok (match assoc (toString action) confirmations with
                | Some c => c
                | None => VUndefined
                end))
           (Ok (VStr (str "Browser action completed: " ++ toString action)))))).

(** *** Streaming the model's reply *)

Record Stream := {
  buffer : jsstring;
  res : SSE.Res;
  promise : Promise
}.

Section Routes.
Variable env : Environment.

(** The [for (const line of lines)] loop of the ['data'] listener. *)
Fixpoint forLines (lines : list jsstring) (st : Stream) : Stream :=
  match lines with
  | [] => st
  | line :: rest =>
      if nonblank line then
        match JSON_parse env line with
        | None => forLines rest st                     (* Parse error *)
        | Some parsed =>
            match getProp parsed "response" with
            | Throw _ => forLines rest st
            | Ok response =>
                let st1 :=
                  if truthy response
                  then {| buffer := buffer st;
                          res := SSE.write (SSE.token response) (res st);
                          promise := promise st |}
                  else st in
                match getProp parsed "done" with
                | Throw _ => forLines rest st1
                | Ok d =>
                    if truthy d
                    then {| buffer := buffer st1;
                            res := SSE.end_ (SSE.write SSE.done (res st1));
                            promise := resolve (promise st1) |}
                    else forLines rest st1
                end
            end
        end
      else forLines rest st
  end.

(** One event of [response.body]. *)
Definition on (ev : BodyEvent) (st : Stream) : Stream :=
  match ev with
  | Data chunk =>
      let lines := split_lines (buffer st ++ chunk) in
      forLines (removelast lines)
        {| buffer := last lines []; res := res st; promise := promise st |}
  | End =>
      {| buffer := buffer st;
         res := if SSE.writableEnded (res st) then res st
                else SSE.end_ (SSE.write SSE.done (res st));
         promise := resolve (promise st) |}
  | BodyError e =>
      {| buffer := buffer st; res := res st; promise := reject e (promise st) |}
  | Elapsed => st                                   (* no timer is armed here *)
  end.

(** The body events are delivered until the promise settles. *)
Fixpoint untilSettled (evs : list BodyEvent) (st : Stream) : Stream :=
  match evs with
  | [] => st
  | ev :: evs' =>
      let st' := on ev st in
      match promise st' with
      | Pending => untilSettled evs' st'
      | _ => st'
      end
  end.

Definition streamLLMResponse (this : LLMFramework) (prompt : jsstring) : ST SSE.RS unit :=
  response <- SSE.inWorld
    (fetch env (llm_endpoint (llm (this_config this)))
       {| fo_method := str "POST";
          fo_headers := [(str "Content-Type", str "application/json")];
          fo_body := Some (JSON_stringify env
                       (VObj [ (str "model", VStr (llm_model (llm (this_config this))));
                               (str "prompt", VStr prompt);
                               (str "stream", VBool true) ])) |}) ;;
  when (negb (ok response))
       (throw (Error (str "LLM API error: " ++ N_to_jsstring (Host.status response)))) ;;;
  fun s =>
    let st := untilSettled (body response)
                {| buffer := []; res := fst s; promise := Pending |} in
    (match promise st with
     | Rejected e => Throw e
     | _ => Ok tt
     end, (res st, snd s)).

(** [`${systemPrompt}\n\nUser says: "${message}"\n\nAssistant responds: `] *)
Definition fullPrompt (enhanced : jsstring) (message : value) : jsstring :=
  enhanced ++ nl ++ nl ++ str "User says: " ++ dquote ++ toString message
    ++ dquote ++ nl ++ nl ++ str "Assistant responds: ".

(** The body of both [catch] clauses of the route. *)
Definition sendError (error : exn) : ST SSE.RS unit :=
  SSE.resWrite (SSE.error (VStr (JS.message error))) ;;;
  SSE.resEnd.

(** The inner [try] block: look the function up, run it, relay its result. *)
Definition relayCall (this : LLMFramework) (functionCall : DetectedCall)
  : ST SSE.RS unit :=
  func <- match get (functionRegistry this) (function functionCall) with
          | Some func => ret func
          | None => throw (Error (str "Function " ++ function functionCall
                                    ++ str " not found"))
          end ;;
  result <- SSE.inWorld (handler func (args functionCall)) ;;
  (* Handle different result types *)
  isBrowser <- lift (andAlso (getProp result "success")
                             (getProp result "browserAction")) ;;
  (if truthy isBrowser then
     action <- lift (getProp result "browserAction") ;;
     data <- lift (getProp result "data") ;;
     SSE.resWrite (SSE.browser_action action data) ;;;
     confirmation <- lift (getBrowserActionConfirmation action data) ;;
     SSE.resWrite (SSE.token confirmation)
   else
     other <- lift (orElse (getProp result "results")
                           (getProp result "success")) ;;
     when (truthy other) (SSE.resWrite (SSE.function_result result))) ;;;
  SSE.resWrite SSE.done ;;;
  SSE.resEnd.

(** The handler of [POST /api/v1/chat/stream], after [res.writeHead];
    [enhanced] is the system prompt produced by the context enhancer. *)
Definition chatStream (this : LLMFramework) (enhanced : jsstring) (message : value)
  : ST SSE.RS unit :=
  tryCatch
    ((* Check for function calls first *)
     functionCall <- lift (detectFunctionCall this message) ;;
     match functionCall with
     | Some functionCall =>
         SSE.resWrite (SSE.status (str "Processing your request...")) ;;;
         tryCatch (relayCall this functionCall) sendError
     | None =>
         (* Regular conversation - stream LLM response *)
         streamLLMResponse this (fullPrompt enhanced message)
     end)
    sendError.

End Routes.

End Enhanced.

(* ===================================================================== *)
(** ** The v1 framework ([src/framework.js]) *)
(* ===================================================================== *)

Module Framework.

(** *** Configuration and the [config.functions] object *)

Record Validation := {
  required : option (list jsstring);
  types : option (list (jsstring * jsstring))
}.

(** [validateConfiguration] rejects a definition whose [handler] or
    [parseArgs] is not a function, so both are present. *)
Record FunctionDef := {
  handler : value -> ST World value;
  parseArgs : value -> result value;
  validation : option Validation
}.

Record LLM := {
  llm_endpoint : jsstring;
  llm_model : jsstring
}.

Record App := { browserActions : bool }.

Record Config := {
  llm : LLM;
  app : App;
  systemPrompt : jsstring;
  functionPattern : regex;
  functions : Map FunctionDef      (* the own properties of the object *)
}.

(** Names every plain object inherits from [Object.prototype]. *)
Definition objectPrototype : list jsstring :=
  List.map str
    [ "constructor"; "__proto__"; "hasOwnProperty"; "isPrototypeOf";
      "propertyIsEnumerable"; "toLocaleString"; "toString"; "valueOf";
      "__defineGetter__"; "__defineSetter__"; "__lookupGetter__";
      "__lookupSetter__" ]%string.

Inductive Lookup :=
| Own (funcDef : FunctionDef)
| Inherited                 (* a truthy member of [Object.prototype] *)
| Missing.

(** [this.config.functions[key]] *)
Definition functionsAt (config : Config) (key : jsstring) : Lookup :=
  match Map_get key (functions config) with
  | Some funcDef => Own funcDef
  | None =>
      if existsb (jsstring_eqb key) objectPrototype then Inherited else Missing
  end.

Definition trimArgs (rawArgs : value) : result value :=
  match rawArgs with
  | VStr s => Ok (VStr (trim s))
  | VUndefined =>
      Throw (TypeError (str "Cannot read properties of undefined (reading 'trim')"))
  | VNull =>
      Throw (TypeError (str "Cannot read properties of null (reading 'trim')"))
  | _ => Throw (TypeError (str "rawArgs.trim is not a function"))
  end.

Definition browserFunction (action key : string) : FunctionDef :=
  {| handler := fun payload =>
       ret (VObj [ (str "success", VBool true);
                   (str "browserAction", VStr (str action));
                   (str "data", VObj [(str key, payload)]) ]);
     parseArgs := trimArgs;
     validation := None |}.

Definition browserFunctions : Map FunctionDef :=
  [ (str "showAlert", browserFunction "alert" "message");
    (str "openWindow", browserFunction "openWindow" "url");
    (str "showModal", browserFunction "modal" "url");
    (str "speak", browserFunction "speak" "text") ].

(** [this.config.functions = { ...this.config.functions, ...browserFunctions }] *)
Definition registerBrowserFunctions (config : Config) : Config :=
  {| llm := llm config; app := app config; systemPrompt := systemPrompt config;
     functionPattern := functionPattern config;
     functions := fold_left (fun acc kv => Map_set (fst kv) (snd kv) acc)
                            browserFunctions (functions config) |}.

(** The effect of [validateConfiguration] on a configuration that passes. *)
Definition validateConfiguration (config : Config) : Config :=
  if browserActions (app config) then registerBrowserFunctions config else config.

Definition getBrowserActionConfirmation (action data : value) : result value :=
  match action with
  | VStr a =>
      if jsstring_eqb a (str "alert") then
        andThen (getProp data "message") (fun m =>
          Ok (VStr (str "Alert displayed: " ++ dquote ++ toString m ++ dquote)))
      else if jsstring_eqb a (str "openWindow") then
        andThen (getProp data "url") (fun u =>
          Ok (VStr (str "Opening new tab: " ++ toString u)))
      else if jsstring_eqb a (str "modal") then
        andThen (getProp data "url") (fun u =>
          Ok (VStr (str "Opening modal with: " ++ toString u)))
      else if jsstring_eqb a (str "speak") then
        andThen (getProp data "text") (fun t =>
          Ok (VStr (str "Speaking: " ++ dquote ++ toString t ++ dquote)))
      else Ok (VStr (str "Browser action completed: " ++ a))
  | _ => Ok (VStr (str "Browser action completed: " ++ toString action))
  end.

(** *** Detection *)

(** [function] is the captured name, [undefined] for a pattern without a
    first group. *)
Record DetectedCall := { function : value; args : value }.

Definition detectFunctionCall (config : Config) (text : value)
  : result (option DetectedCall) :=
  if negb (truthy text) then Ok None
  else
    match text with
    | VStr s =>
        let trimmedText := trim s in
        match String_match trimmedText (functionPattern config) with
        | Some match_ =>
            (* const [fullMatch, funcName, rawArgs] = match *)
            let funcName := match nth_error match_ 1 with
                            | Some n => VStr n
                            | None => VUndefined
                            end in
            let rawArgs := match nth_error match_ 2 with
                           | Some a => VStr a
                           | None => VUndefined
                           end in
            match functionsAt config (toString funcName) with
            | Own funcDef =>
                match parseArgs funcDef rawArgs with
                | Ok args => Ok (Some {| function := funcName; args := args |})
                | Throw _ => Ok None
                end
            | Inherited => Ok None    (* [.parseArgs] is undefined: the call throws and is caught *)
            | Missing => Ok None
            end
        | None => Ok None
        end
    | _ => Throw (TypeError (str "text.trim is not a function"))
    end.

(** *** Execution *)

(** [typeof v] *)
Definition typeof (v : value) : jsstring :=
  match v with
  | VUndefined => str "undefined"
  | VBool _ => str "boolean"
  | VNum _ => str "number"
  | VStr _ => str "string"
  | VNull | VArr _ | VObj _ => str "object"
  end.

(** What [args[key]] evaluates to: a value, or a member found on a
    prototype, of which the code observes that it is neither [undefined]
    nor [null], and its [typeof]. *)
Inductive Member :=
| Held (v : value)
| FromPrototype (type : jsstring).

Definition typeofMember (m : Member) : jsstring :=
  match m with
  | Held v => typeof v
  | FromPrototype type => type
  end.

(** What a value without the own property [key] finds on [Object.prototype],
    the end of every prototype chain: [__proto__] is an object, the other
    members are functions. *)
Definition inherited (key : jsstring) : Member :=
  if jsstring_eqb key (str "__proto__") then FromPrototype (str "object")
  else if existsb (jsstring_eqb key) objectPrototype then FromPrototype (str "function")
  else Held VUndefined.

(** The element under an array index written in decimal, counting from [i]. *)
Fixpoint atIndex (A : Type) (key : jsstring) (i : N) (items : list A) : option A :=
  match items with
  | [] => None
  | x :: rest =>
      if jsstring_eqb key (N_to_jsstring i) then Some x
      else atIndex key (N.succ i) rest
  end.

(** [args[key]] on parsed arguments: an own property (of an object; [length]
    and the indices of a string or an array), else what [Object.prototype]
    provides; reading from [undefined] or [null] throws. The methods that
    [String.prototype], [Array.prototype], [Number.prototype] and
    [Boolean.prototype] add, whose list depends on the engine, are not
    modelled. *)
Definition member (args : value) (key : jsstring) : result Member :=
  match args with
  | VUndefined =>
      Throw (TypeError (str "Cannot read properties of undefined (reading '"
                          ++ key ++ str "')"))
  | VNull =>
      Throw (TypeError (str "Cannot read properties of null (reading '"
                          ++ key ++ str "')"))
  | VObj ps =>
      Ok (match assoc key ps with
          | Some x => Held x
          | None => inherited key
          end)
  | VStr s =>
      Ok (if jsstring_eqb key (str "length") then Held (VNum (Z.of_nat (List.length s)))
          else match atIndex key 0 s with
               | Some c => Held (VStr [c])
               | None => inherited key
               end)
  | VArr items =>
      Ok (if jsstring_eqb key (str "length")
          then Held (VNum (Z.of_nat (List.length items)))
          else match atIndex key 0 items with
               | Some x => Held x
               | None => inherited key
               end)
  | VBool _ | VNum _ => Ok (inherited key)
  end.

Fixpoint checkRequired (funcName : value) (args : value) (l : list jsstring)
  : result unit :=
  match l with
  | [] => Ok tt
  | required :: l' =>
      andThen (member args required) (fun m =>
        match m with
        | Held VUndefined | Held VNull =>
            Throw (Error (str "Function " ++ toString funcName
                            ++ str " missing required parameter: " ++ required ++ str " "))
        | _ => checkRequired funcName args l'
        end)
  end.

Fixpoint checkTypes (funcName : value) (args : value) (l : list (jsstring * jsstring))
  : result unit :=
  match l with
  | [] => Ok tt
  | (param, expectedType) :: l' =>
      andThen (member args param) (fun m =>
        match m with
        | Held VUndefined => checkTypes funcName args l'
        | _ =>
            if jsstring_eqb (typeofMember m) expectedType
            then checkTypes funcName args l'
            else Throw (Error (str "Function " ++ toString funcName
                                 ++ str " parameter " ++ param ++ str " should be "
                                 ++ expectedType ++ str ", got " ++ typeofMember m
                                 ++ str " "))
        end)
  end.

Definition validateFunctionArgs (funcName args : value) (validation : Validation)
  : result unit :=
  andThen (match required validation with
           | Some l => checkRequired funcName args l
           | None => Ok tt
           end)
          (fun _ => match types validation with
                    | Some l => checkTypes funcName args l
                    | None => Ok tt
                    end).

Definition executeFunction (config : Config) (funcName args : value)
  : ST World value :=
  match functionsAt config (toString funcName) with
  | Missing =>
      throw (Error (str "Function " ++ toString funcName ++ str " not found"))
  | Inherited =>
      throw (TypeError (str "funcDef.handler is not a function"))
  | Own funcDef =>
      lift (match validation funcDef with
            | Some v => validateFunctionArgs funcName args v
            | None => Ok tt
            end) ;;;
      handler funcDef args
  end.

(** *** Relaying the model's stream: [processOllamaStream] *)

(** The state shared by the listeners: the line buffer, the response, the
    promise returned to the caller and whether the timeout is still armed. *)
Record Stream := {
  buffer : jsstring;
  res : SSE.Res;
  promise : Promise;
  timer : bool
}.

Definition start (res : SSE.Res) : Stream :=
  {| buffer := []; res := res; promise := Pending; timer := true |}.

Section Routes.
Variable env : Environment.

(** The [for (const line of lines)] loop of the ['data'] listener. *)
Fixpoint forLines (lines : list jsstring) (st : Stream) : Stream :=
  match lines with
  | [] => st
  | line :: rest =>
      if nonblank line then
        match JSON_parse env line with
        | None => forLines rest st                     (* Parse error *)
        | Some parsed =>
            match getProp parsed "response" with
            | Throw _ => forLines rest st
            | Ok response =>
                let st1 :=
                  if truthy response
                  then {| buffer := buffer st;
                          res := SSE.write (SSE.token response) (res st);
                          promise := promise st; timer := timer st |}
                  else st in
                match getProp parsed "done" with
                | Throw _ => forLines rest st1
                | Ok d =>
                    if truthy d
                    then {| buffer := buffer st1;
                            res := SSE.end_ (SSE.write SSE.done (res st1));
                            promise := resolve (promise st1);
                            timer := false |}
                    else forLines rest st1
                end
            end
        end
      else forLines rest st
  end.

(** One thing happening to the stream: a listener of [response.body] runs,
    or the [setTimeout] callback does if it was not cleared. *)
Definition on (ev : BodyEvent) (st : Stream) : Stream :=
  match ev with
  | Data chunk =>
      let lines := split_lines (buffer st ++ chunk) in
      forLines (removelast lines)
        {| buffer := last lines []; res := res st;
           promise := promise st; timer := timer st |}
  | End =>
      {| buffer := buffer st;
         res := if SSE.writableEnded (res st) then res st
                else SSE.end_ (SSE.write SSE.done (res st));
         promise := resolve (promise st);
         timer := false |}
  | BodyError error =>
      {| buffer := buffer st;
         res := if SSE.writableEnded (res st) then res st
                else SSE.end_ (SSE.write (SSE.error (VStr (message error))) (res st));
         promise := reject error (promise st);
         timer := false |}
  | Elapsed =>
      if timer st then
        {| buffer := buffer st;
           res := if SSE.writableEnded (res st) then res st
                  else SSE.end_ (SSE.write (SSE.error (VStr (str "Response timeout")))
                                           (res st));
           promise := reject (Error (str "Timeout")) (promise st);
           timer := false |}
      else st
  end.

(** Everything that happens to one stream, start to finish. *)
Definition run (evs : list BodyEvent) (st : Stream) : Stream :=
  fold_left (fun st ev => on ev st) evs st.

(** What the caller awaiting the promise sees: the events up to the one
    that settles it. *)
Fixpoint untilSettled (evs : list BodyEvent) (st : Stream) : Stream :=
  match evs with
  | [] => st
  | ev :: evs' =>
      let st' := on ev st in
      match promise st' with
      | Pending => untilSettled evs' st'
      | _ => st'
      end
  end.

Definition processOllamaStream (response : Response) : ST SSE.RS unit :=
  fun s =>
    let st := untilSettled (body response) (start (fst s)) in
    (match promise st with
     | Rejected e => Throw e
     | _ => Ok tt
     end, (res st, snd s)).

(** *** The [POST /stream] route *)

(** [await response.json()] *)
Definition json (response : Response) : result value :=
  andThen (text response) (fun t =>
    match JSON_parse env t with
    | Some v => Ok v
    | None => Throw (SyntaxError (JSON_error env t))
    end).

Definition generate (config : Config) (prompt : jsstring) (stream : bool)
  : ST SSE.RS Response :=
  SSE.inWorld
    (fetch env (llm_endpoint (llm config))
       {| fo_method := str "POST";
          fo_headers := [(str "Content-Type", str "application/json")];
          fo_body := Some (JSON_stringify env
                       (VObj [ (str "model", VStr (llm_model (llm config)));
                               (str "prompt", VStr prompt);
                               (str "stream", VBool stream) ])) |}).

(** [topResults.map(r => `- "${r.name}" by ${r.artist}`)] *)
Fixpoint topMatches (l : list value) : result (list jsstring) :=
  match l with
  | [] => Ok []
  | r :: l' =>
      andThen (getProp r "name") (fun n =>
      andThen (getProp r "artist") (fun a =>
      andThen (topMatches l') (fun rest =>
        Ok ((str "- " ++ dquote ++ toString n ++ dquote ++ str " by " ++ toString a)
              :: rest))))
  end.

Definition analysisPrompt (message result : value) : JS.result jsstring :=
  andThen (andAlso (getProp result "success") (getProp result "results")) (fun c =>
    if truthy c then
      andThen (getProp result "results") (fun results =>
      andThen (getProp result "totalResults") (fun totalResults =>
        match results with
        | VArr items =>
            andThen (topMatches (firstn 3 items)) (fun lines =>
              Ok (str "User searched for: " ++ dquote ++ toString message ++ dquote
                    ++ nl ++ nl ++ str "Found " ++ toString totalResults
                    ++ str " results! Top matches:" ++ nl ++ join nl lines
                    ++ nl ++ nl
                    ++ str "Write a brief, helpful response about these search results."))
        | VStr _ => Throw (TypeError (str "topResults.map is not a function"))
        | _ => Throw (TypeError (str "result.results.slice is not a function"))
        end))
    else
      Ok (str "User searched for: " ++ dquote ++ toString message ++ dquote
            ++ str " but no results were found.Suggest trying different keywords.")).

(** The part of the route after a call was detected, inside its own [try]. *)
Definition relayResult (config : Config) (message : value) (functionCall : DetectedCall)
  : ST SSE.RS unit :=
  result <- SSE.inWorld (executeFunction config (function functionCall)
                           (args functionCall)) ;;
  (* Handle different result types *)
  c1 <- lift (andAlso (getProp result "success") (getProp result "browserAction")) ;;
  if truthy c1 then
    action <- lift (getProp result "browserAction") ;;
    data <- lift (getProp result "data") ;;
    SSE.resWrite (SSE.browser_action action data) ;;;
    confirmation <- lift (getBrowserActionConfirmation action data) ;;
    SSE.resWrite (SSE.token confirmation) ;;;
    SSE.resWrite SSE.done ;;;
    SSE.resEnd
  else
    c2 <- lift (andAlso (getProp result "success") (getProp result "results")) ;;
    c3 <- lift (andAlso (getProp result "success") (getProp result "data")) ;;
    success <- lift (getProp result "success") ;;
    let analyse :=
      prompt <- lift (analysisPrompt message result) ;;
      analysisResponse <- generate config prompt true ;;
      if ok analysisResponse then processOllamaStream analysisResponse
      else throw (Error (str "Analysis failed: "
                           ++ N_to_jsstring (Host.status analysisResponse) ++ str " ")) in
    if truthy c2 then
      results <- lift (getProp result "results") ;;
      totalResults <- lift (getProp result "totalResults") ;;
      SSE.resWrite (SSE.search_results results totalResults) ;;;
      analyse
    else if truthy c3 then
      data <- lift (getProp result "data") ;;
      SSE.resWrite (SSE.function_result data) ;;;
      analyse
    else if negb (truthy success) then
      (* Handle failed function calls *)
      e <- lift (orElse (orElse (getProp result "message") (getProp result "error"))
                        (Ok (VStr (str "Function execution failed")))) ;;
      SSE.resWrite (SSE.error e) ;;;
      SSE.resEnd
    else analyse.

(** The handler of [POST /stream], after [res.writeHead]. The abort of the
    first request after [llm.timeout] shows as a rejected [fetch] whose
    error is named [AbortError]. *)
Definition streamRoute (config : Config) (message : value) : ST SSE.RS unit :=
  tryCatch
    (initialResponse <-
       generate config
         (systemPrompt config ++ nl ++ nl ++ str "User says: " ++ dquote
            ++ toString message ++ dquote ++ nl ++ nl ++ str "Assistant responds: ")
         false ;;
     when (negb (ok initialResponse))
          (throw (Error (str "LLM API error: "
                           ++ N_to_jsstring (Host.status initialResponse) ++ str " "))) ;;;
     initialData <- lift (json initialResponse) ;;
     responseText <- lift (getProp initialData "response") ;;
     functionCall <- lift (detectFunctionCall config responseText) ;;
     match functionCall with
     | Some functionCall =>
         SSE.resWrite (SSE.status (str "Processing your request...")) ;;;
         tryCatch
           (relayResult config message functionCall)
           (fun error =>
              SSE.resWrite (SSE.error (VStr (str "Function failed: " ++ JS.message error))) ;;;
              SSE.resEnd)
     | None =>
         (* No function call detected, stream normal response *)
         streamResponse <-
           generate config
             (systemPrompt config ++ nl ++ nl ++ str "User says: " ++ toString message
                ++ nl ++ nl ++ str "Assistant responds: ")
             true ;;
         if ok streamResponse then processOllamaStream streamResponse
         else throw (Error (str "Stream failed: "
                              ++ N_to_jsstring (Host.status streamResponse) ++ str " "))
     end)
    (fun error s =>
       if SSE.writableEnded (fst s) then (Ok tt, s)
       else
         (SSE.resWrite
            (SSE.error (VStr (if jsstring_eqb (errname error) (str "AbortError")
                              then str "Request timeout"
                              else JS.message error))) ;;;
          SSE.resEnd) s).

End Routes.

End Framework.

(* ===================================================================== *)
(** ** Concrete configurations and environments *)
(* ===================================================================== *)

Module Examples.

(** The v2 defaults of [mergeWithDefaults] when no environment variable is
    set, with a system prompt. *)
Definition enhancedDefaults : Enhanced.Config :=
  {| Enhanced.security :=
       Some {| Enhanced.allowCommands := false; Enhanced.allowScripts := false |};
     Enhanced.functionPattern := defaultFunctionPattern;
     Enhanced.systemPrompt := str "You are a helpful assistant.";
     Enhanced.llm :=
       {| Enhanced.llm_endpoint := str "http://localhost:11434/api/generate";
          Enhanced.llm_model := str "gemma3:1b" |} |}.

(** The same with [ALLOW_COMMANDS=true]. *)
Definition commandsEnabled : Enhanced.Config :=
  {| Enhanced.security :=
       Some {| Enhanced.allowCommands := true; Enhanced.allowScripts := false |};
     Enhanced.functionPattern := defaultFunctionPattern;
     Enhanced.systemPrompt := str "You are a helpful assistant.";
     Enhanced.llm := Enhanced.llm enhancedDefaults |}.

(** The v1 defaults, after [validateConfiguration]. *)
Definition frameworkDefaults : Framework.Config :=
  Framework.validateConfiguration
    {| Framework.llm :=
         {| Framework.llm_endpoint := str "http://localhost:11434/api/generate";
            Framework.llm_model := str "gemma3:1b" |};
       Framework.app := {| Framework.browserActions := true |};
       Framework.systemPrompt := str "You are a helpful assistant.";
       Framework.functionPattern := defaultFunctionPattern;
       Framework.functions := [] |}.

(** A parser that rejects everything, as [JSON.parse] would in a handler
    written [(raw) => JSON.parse(raw)] on prose. *)
Definition strictParser (raw : value) : result value :=
  Throw (SyntaxError (str "Unexpected token in JSON")).

(** A framework with one user function, [lookup], whose parser is strict. *)
Definition lookupDefinition : Enhanced.Definition_ :=
  {| Enhanced.def_handler := fun args => ret args;
     Enhanced.def_parseArgs := Some strictParser;
     Enhanced.def_description := Some (str "Look something up") |}.

Definition withLookup : Enhanced.LLMFramework :=
  {| Enhanced.this_config := enhancedDefaults;
     Enhanced.functionRegistry :=
       Enhanced.register (str "api") (str "lookup") lookupDefinition
         (Enhanced.new_FunctionRegistry enhancedDefaults) |}.

Definition frameworkWithLookup : Framework.Config :=
  Framework.validateConfiguration
    {| Framework.llm := Framework.llm frameworkDefaults;
       Framework.app := {| Framework.browserActions := true |};
       Framework.systemPrompt := str "You are a helpful assistant.";
       Framework.functionPattern := defaultFunctionPattern;
       Framework.functions :=
         [ (str "lookup",
            {| Framework.handler := fun args => ret args;
               Framework.parseArgs := strictParser;
               Framework.validation := None |}) ] |}.

(** [pingHost]: a command built from its argument, restricted to [ping]. *)
Definition pingHost : Enhanced.CommandConfig :=
  {| Enhanced.cmd_command :=
       Enhanced.CommandFn (fun host => Ok (str "ping -c 4 " ++ toString host));
     Enhanced.cmd_allowedCommands := Some [str "ping"];
     Enhanced.cmd_timeout := Some 5000%N;
     Enhanced.cmd_maxBuffer := None;
     Enhanced.cmd_parseArgs := Some Enhanced.trimArgs;
     Enhanced.cmd_description := Some (str "Ping a host") |}.

(** A command that resolves to [rm -rf /] under the allow-list [["ping"]]. *)
Definition cleanup : Enhanced.CommandConfig :=
  {| Enhanced.cmd_command := Enhanced.CommandText (str "rm -rf /");
     Enhanced.cmd_allowedCommands := Some [str "ping"];
     Enhanced.cmd_timeout := None;
     Enhanced.cmd_maxBuffer := None;
     Enhanced.cmd_parseArgs := Some Enhanced.trimArgs;
     Enhanced.cmd_description := None |}.

(** [searchMusic]: a GET on a search endpoint, result passed through. *)
Definition searchMusic : Enhanced.APIConfig :=
  {| Enhanced.api_endpoint :=
       Enhanced.EndpointFn (fun term =>
         Ok (str "https://itunes.apple.com/search?term=" ++ toString term));
     Enhanced.api_method := None;
     Enhanced.api_headers := [];
     Enhanced.api_body := None;
     Enhanced.api_transform := None;
     Enhanced.api_parseArgs := Some Enhanced.trimArgs;
     Enhanced.api_description := Some (str "Search for music") |}.

(** A server answering every request with an HTML page labelled as JSON,
    under a given status. *)
Definition htmlPage (ok : bool) (status : N) (statusText : string) : Response :=
  {| Host.ok := ok; Host.status := status; Host.statusText := str statusText;
     Host.headers := [(str "Content-Type", str "application/json")];
     Host.text := Ok (str "<html>Service page</html>");
     Host.body := [] |}.

Definition mislabelled (ok : bool) (status : N) (statusText : string) : Environment :=
  {| exec_outcome := fun _ _ _ => Throw (Error (str "spawn /bin/sh ENOENT"));
     fetch_outcome := fun _ _ _ => Ok (htmlPage ok status statusText);
     JSON_parse := fun _ => None;
     JSON_error := fun _ => str "Unexpected token < in JSON at position 0";
     JSON_stringify := fun _ => [] |}.

(** One newline-delimited record of the model's stream,
    [{"response":<text>,"done":<flag>}], and what [JSON.parse] makes of it. *)
Definition record (response : string) (done : bool) : jsstring :=
  str "{" ++ dquote ++ str "response" ++ dquote ++ str ":"
    ++ dquote ++ str response ++ dquote ++ str ","
    ++ dquote ++ str "done" ++ dquote ++ str ":"
    ++ str (if done then "true" else "false") ++ str "}".

Definition parsed (response : string) (done : bool) : value :=
  VObj [(str "response", VStr (str response)); (str "done", VBool done)].

(** A model backend that answers every request by streaming "Hi" and
    " there"; its [JSON.parse] knows these two records. *)
Definition greeting : list BodyEvent :=
  [ Data (record "Hi" false ++ nl); Data (record " there" true ++ nl); End ].

Definition ollama : Environment :=
  {| exec_outcome := fun _ _ _ => Throw (Error (str "spawn /bin/sh ENOENT"));
     fetch_outcome := fun _ _ _ =>
       Ok {| Host.ok := true; Host.status := 200; Host.statusText := str "OK";
             Host.headers := [(str "Content-Type", str "application/x-ndjson")];
             Host.text := Ok (record "Hi there" true);
             Host.body := greeting |};
     JSON_parse := fun line =>
       if jsstring_eqb line (record "Hi" false) then Some (parsed "Hi" false)
       else if jsstring_eqb line (record " there" true) then Some (parsed " there" true)
       else None;
     JSON_error := fun _ => str "Unexpected token < in JSON at position 0";
     JSON_stringify := fun _ => [] |}.

(** A model that replies to every prompt with the alert call of scenario 2. *)
Definition alertReply : Response :=
  {| Host.ok := true; Host.status := 200; Host.statusText := str "OK";
     Host.headers := [(str "Content-Type", str "application/json")];
     Host.text := Ok (record "FUNCTION:showAlert:Build complete" true);
     Host.body := [] |}.

Definition alertingModel : Environment :=
  {| exec_outcome := fun _ _ _ => Throw (Error (str "spawn /bin/sh ENOENT"));
     fetch_outcome := fun _ _ _ => Ok alertReply;
     JSON_parse := fun t =>
       if jsstring_eqb t (record "FUNCTION:showAlert:Build complete" true)
       then Some (parsed "FUNCTION:showAlert:Build complete" true)
       else None;
     JSON_error := fun _ => str "Unexpected token < in JSON at position 0";
     JSON_stringify := fun _ => [] |}.

(** An environment with no network and no shell. *)
Definition offline : Environment :=
  {| exec_outcome := fun _ _ _ => Throw (Error (str "spawn /bin/sh ENOENT"));
     fetch_outcome := fun _ _ _ => Throw (Error (str "fetch failed"));
     JSON_parse := fun _ => None;
     JSON_error := fun _ => str "Unexpected token < in JSON at position 0";
     JSON_stringify := fun _ => [] |}.

End Examples.

(* ===================================================================== *)
(** ** More sample backends *)
(* ===================================================================== *)

Module Samples.

(** A reply of two records, neither of them final, and the start of a
    third that never completes; it arrives cut in the middle of a record. *)
Definition twoRecords : list (jsstring * jsstring) :=
  [ (Examples.record "Hi" false, str "Hi");
    (Examples.record " there" false, str " there") ].

Definition cutReply : list jsstring :=
  [ firstn 7 (Examples.record "Hi" false);
    skipn 7 (Examples.record "Hi" false) ++ nl ++ Examples.record " there" false;
    nl ++ str "{" ].

(** The same reply completed by a final record without text, followed by
    more text. *)
Definition finishedReply : list jsstring :=
  [ firstn 7 (Examples.record "Hi" false);
    skipn 7 (Examples.record "Hi" false) ++ nl ++ Examples.record " there" false;
    nl ++ Examples.record "" true ++ nl ++ Examples.record "late" false ++ nl ].

(** A model that answers a non-streaming request with "Hello" and streams
    [cutReply] until its connection breaks. *)
Definition chattyResponse : Response :=
  {| Host.ok := true; Host.status := 200; Host.statusText := str "OK";
     Host.headers := [(str "Content-Type", str "application/x-ndjson")];
     Host.text := Ok (Examples.record "Hello" true);
     Host.body := map Data cutReply
                    ++ [BodyError (Error (str "socket hang up")); End] |}.

Definition chatty : Environment :=
  {| exec_outcome := fun _ _ _ => Throw (Error (str "spawn /bin/sh ENOENT"));
     fetch_outcome := fun _ _ _ => Ok chattyResponse;
     JSON_parse := fun line =>
       if jsstring_eqb line (Examples.record "Hello" true)
       then Some (Examples.parsed "Hello" true)
       else if jsstring_eqb line (Examples.record "Hi" false)
       then Some (Examples.parsed "Hi" false)
       else if jsstring_eqb line (Examples.record " there" false)
       then Some (Examples.parsed " there" false)
       else if jsstring_eqb line (Examples.record "" true)
       then Some (Examples.parsed "" true)
       else if jsstring_eqb line (Examples.record "late" false)
       then Some (Examples.parsed "late" false)
       else None;
     JSON_error := fun _ => str "Unexpected token < in JSON at position 0";
     JSON_stringify := fun _ => [] |}.

End Samples.

(* ===================================================================== *)
(** ** v2: script and N8N functions, the user's functions
       ([src/unnamed/part_000]) *)
(* ===================================================================== *)

Module Registration.

Import Enhanced.

(** [this.config.security?.allowScripts] *)
Definition security_allowScripts (c : Config) : bool :=
  match security c with
  | Some s => allowScripts s
  | None => false
  end.

Section Registry.
Variable env : Environment.

(** [error.stack], as the engine recorded it. *)
Variable stack : exn -> value.

(** [this.config.n8n?.endpoint]: the configuration's own N8N endpoint. *)
Variable n8n : option jsstring.

(** [new Date().toISOString()] *)
Variable now : World -> jsstring.

(** *** Script functions *)

Record ScriptConfig := {
  script_handler : option (value -> ST World value);
  script_parseArgs : option (value -> result value);
  script_description : option jsstring
}.

Definition scriptHandler (rconfig : Config) (cfg : ScriptConfig) (args : value)
  : ST World value :=
  tryCatch
    (when (negb (security_allowScripts rconfig))
          (throw (Error (str "Script execution is disabled for security"))) ;;;
     result <- match script_handler cfg with
               | Some handler => handler args
               | None => throw (TypeError
                           (str "Cannot read properties of undefined (reading 'call')"))
               end ;;
     ret (VObj [ (str "success", VBool true); (str "result", result) ]))
    (fun error =>
       ret (failure (message error) [ (str "stack", stack error) ])).

Definition registerScript (name : jsstring) (cfg : ScriptConfig)
           (this : FunctionRegistry) : FunctionRegistry :=
  register (str "script") name
    {| def_handler := scriptHandler (config this) cfg;
       def_parseArgs := script_parseArgs cfg;
       def_description := script_description cfg |} this.

(** *** N8N workflows *)

Record N8NConfig := {
  n8n_endpoint : option jsstring;
  n8n_webhookId : option jsstring;
  n8n_apiKey : option jsstring;
  n8n_parseArgs : option (value -> result value);
  n8n_description : option jsstring
}.

(** [config.endpoint || this.config.n8n?.endpoint], when truthy. *)
Definition n8nEndpoint (cfg : N8NConfig) : option jsstring :=
  match n8n_endpoint cfg with
  | Some (c :: e) => Some (c :: e)
  | _ => match n8n with
         | Some (c :: e) => Some (c :: e)
         | _ => None
         end
  end.

(** [config.webhookId || name] *)
Definition workflow (name : jsstring) (cfg : N8NConfig) : jsstring :=
  orString (n8n_webhookId cfg) name.

(** [await response.json()] *)
Definition json (response : Response) : result value :=
  andThen (text response) (fun t =>
    match JSON_parse env t with
    | Some v => Ok v
    | None => Throw (SyntaxError (JSON_error env t))
    end).

Definition n8nOptions (cfg : N8NConfig) (args : value) (w : World) : FetchOptions :=
  {| fo_method := str "POST";
     fo_headers :=
       spread [ (str "Content-Type", str "application/json") ]
              (match n8n_apiKey cfg with
               | Some (c :: k) => [ (str "Authorization", str "Bearer " ++ c :: k) ]
               | _ => []
               end);
     fo_body := Some (JSON_stringify env
                  (VObj [ (str "source", VStr (str "cortical-ai"));
                          (str "timestamp", VStr (now w));
                          (str "data", args) ])) |}.

Definition n8nHandler (name : jsstring) (cfg : N8NConfig) (args : value)
  : ST World value :=
  tryCatch
    (endpoint <- match n8nEndpoint cfg with
                 | Some e => ret e
                 | None => throw (Error (str "N8N endpoint not configured"))
                 end ;;
     let webhookUrl := endpoint ++ str "/webhook/" ++ workflow name cfg in
     response <- (fun w => fetch env webhookUrl (n8nOptions cfg args w) w) ;;
     when (negb (ok response))
          (throw (Error (str "N8N workflow failed: "
                           ++ N_to_jsstring (Host.status response)))) ;;;
     result <- lift (json response) ;;
     ret (VObj [ (str "success", VBool true);
                 (str "workflow", VStr (workflow name cfg));
                 (str "result", result) ]))
    (fun error =>
       ret (failure (message error) [ (str "workflow", VStr (workflow name cfg)) ])).

Definition registerN8N (name : jsstring) (cfg : N8NConfig)
           (this : FunctionRegistry) : FunctionRegistry :=
  register (str "n8n") name
    {| def_handler := n8nHandler name cfg;
       def_parseArgs := n8n_parseArgs cfg;
       def_description :=
         Some (orString (n8n_description cfg)
                 (str "Execute N8N workflow: " ++ name)) |} this.

(** *** The user's functions

    An entry of [config.functions], by its [type]: one of the four kinds, a
    truthy [type] that is none of them, or no [type] at all (a legacy
    definition, taken with its [handler], [parseArgs] and [description];
    such a definition has no [type] or [name] key of its own here). *)
Inductive UserFunction :=
| UserAPI (definition : APIConfig)
| UserCommand (definition : CommandConfig)
| UserScript (definition : ScriptConfig)
| UserN8N (definition : N8NConfig)
| UserUnknown
| UserLegacy (definition : Definition_).

Definition registerUserFunction (name : jsstring) (definition : UserFunction)
           (functionRegistry : FunctionRegistry) : FunctionRegistry :=
  match definition with
  | UserAPI definition => registerAPI env name definition functionRegistry
  | UserCommand definition => registerCommand env name definition functionRegistry
  | UserScript definition => registerScript name definition functionRegistry
  | UserN8N definition => registerN8N name definition functionRegistry
  | UserUnknown => functionRegistry          (* Unknown function type *)
  | UserLegacy definition =>
      (* Legacy function registration *)
      register (str "api") name definition functionRegistry
  end.

(** [Object.entries(functions).forEach(...)], on the entries in the order
    [Object.entries] lists them. *)
Definition registerUserFunctions (functions : list (jsstring * UserFunction))
           (functionRegistry : FunctionRegistry) : FunctionRegistry :=
  fold_left (fun registry entry => registerUserFunction (fst entry) (snd entry) registry)
            functions functionRegistry.

(** The constructor: the registry with its built-in functions, then the
    user's. *)
Definition construct (config : Config) (functions : list (jsstring * UserFunction))
  : LLMFramework :=
  {| this_config := config;
     functionRegistry := registerUserFunctions functions (new_FunctionRegistry config) |}.

End Registry.

End Registration.

(* ===================================================================== *)
(** ** Configuration objects and [deepMerge]
       ([src/framework.js], [src/unnamed/part_000]) *)
(* ===================================================================== *)

Module Merge.

(** The values a configuration is made of: besides the data of [value],
    functions (by a label) and regular expressions (by their source). *)
Inductive cvalue :=
| CUndefined
| CNull
| CBool (b : bool)
| CNum (numerator : Z) (denominator : positive)
| CStr (s : jsstring)
| CArr (items : list cvalue)
| CFun (label : jsstring)
| CRegExp (source : jsstring)
| CObj (props : list (jsstring * cvalue)).

Definition ctruthy (v : cvalue) : bool :=
  match v with
  | CUndefined | CNull => false
  | CBool b => b
  | CNum n _ => negb (n =? 0)%Z
  | CStr s => match s with [] => false | _ => true end
  | CArr _ | CFun _ | CRegExp _ | CObj _ => true
  end.

(** [v && typeof v === 'object' && !Array.isArray(v)] *)
Definition mergeable (v : cvalue) : bool :=
  match v with
  | CObj _ | CRegExp _ => true
  | _ => false
  end.

(** The entries [i ↦ x_i] of a string or an array. *)
Fixpoint indexed (A : Type) (f : A -> cvalue) (i : N) (l : list A)
  : list (jsstring * cvalue) :=
  match l with
  | [] => []
  | x :: l' => (N_to_jsstring i, f x) :: indexed f (N.succ i) l'
  end.

(** The own enumerable properties copied by [{ ...v }]. *)
Definition spread (v : cvalue) : list (jsstring * cvalue) :=
  match v with
  | CObj props => props
  | CStr s => indexed (fun c => CStr [c]) 0 s
  | CArr items => indexed (fun x => x) 0 items
  | _ => []
  end.

(** A key that is an array index: a property with such a key is listed
    before the others, whenever it was added. *)
Definition isIndex (key : jsstring) : bool :=
  match key with
  | [] => false
  | [c] => (48 <=? c)%N && (c <=? 57)%N
  | c :: _ => (49 <=? c)%N && (c <=? 57)%N
              && forallb (fun d => (48 <=? d)%N && (d <=? 57)%N) key
  end.

(** [target[key]], where it is an own property of a plain object or absent
    from it and from [Object.prototype]; [None] elsewhere (reads of
    inherited members and on values that are no plain objects are outside
    this model). *)
Definition cget (target : cvalue) (key : jsstring) : option cvalue :=
  match target with
  | CObj props =>
      match Map_get key props with
      | Some v => Some v
      | None =>
          if existsb (jsstring_eqb key) Framework.objectPrototype then None
          else Some CUndefined
      end
  | _ => None
  end.

(** [deepMerge(target, source)]. The result is [None] outside the model:
    on a source that is neither a plain object, a regular expression,
    [undefined] nor [null]; on a source key that is an array index or
    [__proto__]; and where [target[key]] is not modelled. *)
Fixpoint deepMerge (target source : cvalue) {struct source} : option cvalue :=
  match source with
  | CObj entries =>
      option_map CObj
        ((fix forIn (entries : list (jsstring * cvalue))
                    (output : list (jsstring * cvalue)) {struct entries}
            : option (list (jsstring * cvalue)) :=
            match entries with
            | [] => Some output
            | (key, v) :: rest =>
                if isIndex key || jsstring_eqb key (str "__proto__") then None
                else
                  match (if mergeable v
                         then match cget target key with
                              | Some t =>
                                  deepMerge (if ctruthy t then t else CObj []) v
                              | None => None
                              end
                         else Some v) with
                  | Some x => forIn rest (Map_set key x output)
                  | None => None
                  end
            end) entries (spread target))
  | CRegExp _ | CUndefined | CNull => Some (CObj (spread target))
  | _ => None
  end.

End Merge.

(* ===================================================================== *)
(** ** v2: [mergeWithDefaults] ([src/unnamed/part_000]) *)
(* ===================================================================== *)

Module EnhancedConfig.

Import Merge.

Section Defaults.

(** [process.env] *)
Variable process_env : string -> option jsstring.

(** [parseInt] and [parseFloat] on the text of an environment variable;
    [None] is NaN. *)
Variable parseInt : jsstring -> option Z.
Variable parseFloat : jsstring -> option (Z * positive).

(** [process.env.X || d] *)
Definition envOr (name : string) (d : cvalue) : cvalue :=
  match process_env name with
  | Some (c :: s) => CStr (c :: s)
  | _ => d
  end.

(** [parseInt(process.env.X) || d] *)
Definition intOr (name : string) (d : Z) : cvalue :=
  match process_env name with
  | Some s => match parseInt s with
              | Some 0%Z | None => CNum d 1
              | Some n => CNum n 1
              end
  | None => CNum d 1
  end.

(** [parseFloat(process.env.X) || d] *)
Definition floatOr (name : string) (n : Z) (d : positive) : cvalue :=
  match process_env name with
  | Some s => match parseFloat s with
              | Some (0%Z, _) | None => CNum n d
              | Some (n', d') => CNum n' d'
              end
  | None => CNum n d
  end.

(** [process.env.X !== value] and [process.env.X === value] *)
Definition envNot (name value : string) : cvalue :=
  match process_env name with
  | Some s => CBool (negb (jsstring_eqb s (str value)))
  | None => CBool true
  end.

Definition envIs (name value : string) : cvalue :=
  match process_env name with
  | Some s => CBool (jsstring_eqb s (str value))
  | None => CBool false
  end.

(** [`#${process.env.X}` || d]: the template string is never empty. *)
Definition colour (name : string) : cvalue :=
  CStr (str "#" ++ match process_env name with
                   | Some s => s
                   | None => str "undefined"
                   end).

Definition serverDefaults : cvalue :=
  CObj [ (str "port", envOr "SERVER_PORT" (CNum 3001 1));
         (str "ip", envOr "SERVER_IP" (CStr (str "localhost")));
         (str "corsEnabled", envNot "SERVER_ENABLE_CORS" "false") ].

Definition llmDefaults : cvalue :=
  CObj [ (str "endpoint",
          envOr "OLLAMA_ENDPOINT" (CStr (str "http://localhost:11434/api/generate")));
         (str "model", envOr "OLLAMA_MODEL" (CStr (str "gemma3:1b")));
         (str "timeout", intOr "OLLAMA_TIMEOUT" 900000);
         (str "streamTimeout", intOr "OLLAMA_STREAM_TIMEOUT" 1200000) ].

(** [new RegExp(process.env.APP_FUNCTION_PATTERN || "^FUNCTION:(\\w+):(.+)$")];
    that the constructor throws on a text that is no expression is not
    followed here. *)
Definition functionPatternDefault : cvalue :=
  CRegExp (match process_env "APP_FUNCTION_PATTERN" with
           | Some (c :: s) => c :: s
           | _ => str "^FUNCTION:(\w+):(.+)$"
           end).

Definition defaults : cvalue :=
  CObj [ (str "server", serverDefaults);
         (str "llm", llmDefaults);
         (str "app",
          CObj [ (str "name", envOr "APP_NAME" (CStr (str "AI Assistant")));
                 (str "description",
                  envOr "APP_DESCRIPTION" (CStr (str "AI-powered assistant")));
                 (str "welcomeMessage",
                  envOr "APP_WELCOMEMESSAGE"
                    (CStr (str "Hello! How can I help you today?")));
                 (str "primaryColor", colour "APP_PRIMARYCOLOR");
                 (str "secondaryColor", colour "APP_SECONDARYCOLOR");
                 (str "backgroundImage", envOr "APP_BACKGROUND_IMAGE" CNull);
                 (str "chatOpacity", floatOr "APP_CHAT_OPACITY" 95 100);
                 (str "logo", envOr "APP_LOGO" CNull);
                 (str "botAvatar", envOr "APP_BOT_AVATAR" CNull);
                 (str "browserActions", envNot "APP_BROWSER_ACTIONS" "false");
                 (str "darkMode", envIs "APP_UI_DARKMODE" "true") ]);
         (str "functionPattern", functionPatternDefault);
         (str "functions", CObj []);
         (str "auth",
          CObj [ (str "enabled", envIs "AUTH_ENABLED" "true");
                 (str "mode", envOr "AUTH_MODE" (CStr (str "disabled")));
                 (str "apiKeys", CObj [ (str "enabled", CBool true) ]) ]);
         (str "security",
          CObj [ (str "allowCommands", envIs "ALLOW_COMMANDS" "true");
                 (str "allowScripts", envIs "ALLOW_SCRIPTS" "true") ]);
         (str "examples",
          CObj [ (str "enabled", envNot "APP_EXAMPLES_ENABLED" "false");
                 (str "count", intOr "APP_EXAMPLES_COUNT" 6) ]) ].

Definition mergeWithDefaults (config : cvalue) : option cvalue :=
  deepMerge defaults config.

End Defaults.

End EnhancedConfig.

(* ===================================================================== *)
(** ** v1: [parseNavigationLinks] and [mergeWithDefaults]
       ([src/framework.js]) *)
(* ===================================================================== *)

Module FrameworkConfig.

Import Merge.

(** [s.split(sep)] for a separator of one character. *)
Fixpoint split (sep : N) (s : jsstring) : list jsstring :=
  match s with
  | [] => [[]]
  | c :: s' =>
      if (c =? sep)%N then [] :: split sep s'
      else match split sep s' with
           | l :: ls => (c :: l) :: ls
           | [] => [[c]]
           end
  end.

Definition comma : N := 44.
Definition bar : N := 124.

(** The callback of [map]: [None] is the [null] that [filter] drops. *)
Definition parseLink (link : jsstring) : option cvalue :=
  match split bar (trim link) with
  | text :: url :: rest =>
      Some (CObj [ (str "text", CStr (trim text));
                   (str "url", CStr (trim url));
                   (str "external",
                    CBool match rest with
                          | external :: _ => jsstring_eqb external (str "true")
                          | [] => startsWith url (str "http")
                          end) ])
  | _ => None
  end.

Fixpoint links (items : list jsstring) : list cvalue :=
  match items with
  | [] => []
  | link :: rest =>
      match parseLink link with
      | Some l => l :: links rest
      | None => links rest
      end
  end.

Definition parseNavigationLinks (envValue : option jsstring) : cvalue :=
  match envValue with
  | Some (c :: s) => CArr (links (split comma (c :: s)))
  | _ => CNull
  end.

Section Defaults.
Variable process_env : string -> option jsstring.
Variable parseInt : jsstring -> option Z.
Variable parseFloat : jsstring -> option (Z * positive).

Definition defaults : cvalue :=
  CObj [ (str "server", EnhancedConfig.serverDefaults process_env);
         (str "llm", EnhancedConfig.llmDefaults process_env parseInt);
         (str "app",
          CObj [ (str "name",
                  EnhancedConfig.envOr process_env "APP_NAME" (CStr (str "AI Assistant")));
                 (str "description",
                  EnhancedConfig.envOr process_env "APP_DESCRIPTION"
                    (CStr (str "AI-powered assistant")));
                 (str "welcomeMessage",
                  EnhancedConfig.envOr process_env "APP_WELCOMEMESSAGE"
                    (CStr (str "Hello! How can I help you today?")));
                 (str "primaryColor", EnhancedConfig.colour process_env "APP_PRIMARYCOLOR");
                 (str "secondaryColor",
                  EnhancedConfig.colour process_env "APP_SECONDARYCOLOR");
                 (str "backgroundImage",
                  EnhancedConfig.envOr process_env "APP_BACKGROUND_IMAGE" CNull);
                 (str "chatOpacity",
                  EnhancedConfig.floatOr process_env parseFloat "APP_CHAT_OPACITY" 95 100);
                 (str "logo", EnhancedConfig.envOr process_env "APP_LOGO" CNull);
                 (str "navigationLinks",
                  parseNavigationLinks (process_env "APP_NAVIGATION_LINKS"));
                 (str "browserActions",
                  EnhancedConfig.envNot process_env "APP_BROWSER_ACTIONS" "false") ]);
         (str "functionPattern", EnhancedConfig.functionPatternDefault process_env);
         (str "functions", CObj []);
         (str "examples",
          CObj [ (str "enabled",
                  EnhancedConfig.envNot process_env "APP_EXAMPLES_ENABLED" "false");
                 (str "count",
                  EnhancedConfig.intOr process_env parseInt "APP_EXAMPLES_COUNT" 6);
                 (str "regenerateOnStart",
                  EnhancedConfig.envNot process_env "APP_EXAMPLES_REGENERATE" "false") ]) ].

Definition mergeWithDefaults (config : cvalue) : option cvalue :=
  deepMerge defaults config.

End Defaults.

End FrameworkConfig.

(* ===================================================================== *)
(** ** v2: the authentication manager ([src/unnamed/part_000]) *)
(* ===================================================================== *)

Module Auth.

Import Merge.

(** [v[k]] for a key that no prototype defines: an own property of a plain
    object, [undefined] on other values, a [TypeError] on [undefined] and
    [null]. *)
Definition cprop (v : cvalue) (k : string) : result cvalue :=
  match v with
  | CUndefined =>
      Throw (TypeError (str "Cannot read properties of undefined (reading '"
                          ++ str k ++ str "')"))
  | CNull =>
      Throw (TypeError (str "Cannot read properties of null (reading '"
                          ++ str k ++ str "')"))
  | CObj props => Ok (match Map_get (str k) props with
                      | Some x => x
                      | None => CUndefined
                      end)
  | _ => Ok CUndefined
  end.

Record KeyData := {
  kd_name : jsstring;
  role : jsstring;
  permissions : list jsstring;
  created : jsstring;
  lastUsed : option jsstring
}.

Record Session := {
  user : value;
  lastAccess : option jsstring
}.

Record AuthenticationManager := {
  config : cvalue;
  jwtSecret : jsstring;
  apiKeys : Map KeyData;
  sessions : Map Session
}.

(** The parts of a request the manager reads. *)
Record Request := {
  authorization : option jsstring;      (* [req.headers.authorization] *)
  x_api_key : option jsstring;          (* [req.headers['x-api-key']] *)
  query_apiKey : option jsstring        (* [req.query.apiKey] *)
}.

Inductive Authenticated :=
| BySession (user decoded : value)
| ByApiKey (keyData : KeyData).

(** [`${prefix}_${crypto.randomBytes(32).toString('hex')}`], on the hex
    text of the random bytes. *)
Definition generateApiKey (prefix : jsstring) (randomHex : jsstring) : jsstring :=
  prefix ++ str "_" ++ randomHex.

(** [this.config.auth.apiKeys?.enabled] *)
Definition apiKeysEnabled (config : cvalue) : result bool :=
  andThen (cprop config "auth") (fun auth =>
  andThen (cprop auth "apiKeys") (fun keys =>
    match keys with
    | CUndefined | CNull => Ok false
    | _ => andThen (cprop keys "enabled") (fun e => Ok (ctruthy e))
    end)).

(** [generateInitialApiKeys], given the random bytes of the two keys and
    the times of their creation. *)
Definition generateInitialApiKeys (adminHex uiHex now1 now2 : jsstring)
    (this : AuthenticationManager) : result AuthenticationManager :=
  andThen (apiKeysEnabled (config this)) (fun enabled =>
    if negb enabled then Ok this
    else
      let adminKey := generateApiKey (str "admin") adminHex in
      let keys1 := Map_set adminKey
                     {| kd_name := str "Admin Key"; role := str "admin";
                        permissions := [str "*"]; created := now1;
                        lastUsed := None |} (apiKeys this) in
      let uiKey := generateApiKey (str "ui") uiHex in
      let keys2 := Map_set uiKey
                     {| kd_name := str "UI Key"; role := str "ui";
                        permissions := [str "chat"; str "examples"; str "functions"];
                        created := now2; lastUsed := None |} keys1 in
      Ok {| config := config this; jwtSecret := jwtSecret this;
            apiKeys := keys2; sessions := sessions this |}).

(** [new AuthenticationManager(config)]; [secret] is [JWT_SECRET] or, when
    that is unset or empty, the hex text of 64 random bytes. *)
Definition new_AuthenticationManager (config : cvalue) (secret : jsstring)
    (adminHex uiHex now1 now2 : jsstring) : result AuthenticationManager :=
  generateInitialApiKeys adminHex uiHex now1 now2
    {| config := config; jwtSecret := secret; apiKeys := []; sessions := [] |}.

Section Requests.

(** [jwt.verify(token, secret)]: the decoded payload, or an error. *)
Variable jwt_verify : jsstring -> jsstring -> result value.

(** [x || y] on two optional strings. *)
Definition orOption (x y : option jsstring) : option jsstring :=
  match x with
  | Some (c :: s) => Some (c :: s)
  | _ => y
  end.

(** The JWT branch: the session of a verified token, if the manager has it. *)
Definition sessionOf (this : AuthenticationManager) (req : Request)
  : option (jsstring * Session * value) :=
  match authorization req with
  | Some authHeader =>
      if startsWith authHeader (str "Bearer ") then
        let token := skipn 7 authHeader in
        match jwt_verify token (jwtSecret this) with
        | Ok decoded =>
            match getProp decoded "sessionId" with
            | Ok (VStr sessionId) =>
                match Map_get sessionId (sessions this) with
                | Some session => Some (sessionId, session, decoded)
                | None => None
                end
            | _ => None
            end
        | Throw _ => None             (* JWT verification failed *)
        end
      else None
  | None => None
  end.

(** [authenticateRequest(req)] at time [now]: the result, [None] for
    [null], and the manager with the time of use recorded. *)
Definition authenticateRequest (now : jsstring) (req : Request)
    (this : AuthenticationManager) : option Authenticated * AuthenticationManager :=
  match sessionOf this req with
  | Some (sessionId, session, decoded) =>
      (Some (BySession (user session) decoded),
       {| config := config this; jwtSecret := jwtSecret this;
          apiKeys := apiKeys this;
          sessions := Map_set sessionId
                        {| user := user session; lastAccess := Some now |}
                        (sessions this) |})
  | None =>
      (* Check API key *)
      match orOption (x_api_key req) (query_apiKey req) with
      | Some (c :: k) =>
          match Map_get (c :: k) (apiKeys this) with
          | Some keyData =>
              let keyData' :=
                {| kd_name := kd_name keyData; role := role keyData;
                   permissions := permissions keyData; created := created keyData;
                   lastUsed := Some now |} in
              (Some (ByApiKey keyData'),
               {| config := config this; jwtSecret := jwtSecret this;
                  apiKeys := Map_set (c :: k) keyData' (apiKeys this);
                  sessions := sessions this |})
          | None => (None, this)
          end
      | _ => (None, this)
      end
  end.

(** What the middleware does with a request. *)
Inductive Decision :=
| Next (auth : option Authenticated)     (* [next()], with [req.auth] if set *)
| Unauthorized.                          (* 401, "Authentication required" *)

(** [this.config.auth.mode === 'disabled'] *)
Definition modeDisabled (config : cvalue) : result bool :=
  andThen (cprop config "auth") (fun auth =>
  andThen (cprop auth "mode") (fun mode =>
    Ok match mode with
       | CStr s => jsstring_eqb s (str "disabled")
       | _ => false
       end)).

(** The middleware returned by [requireAuth(permissions)]. *)
Definition requireAuth (permissions : list jsstring) (now : jsstring) (req : Request)
    (this : AuthenticationManager) : result Decision * AuthenticationManager :=
  match modeDisabled (config this) with
  | Throw e => (Throw e, this)
  | Ok true => (Ok (Next None), this)
  | Ok false =>
      match authenticateRequest now req this with
      | (Some auth, this') => (Ok (Next (Some auth)), this')
      | (None, this') => (Ok Unauthorized, this')
      end
  end.

End Requests.

(** The key the root route hands to the frontend:
    [Array.from(apiKeys.keys()).find(key => apiKeys.get(key).role === 'ui')]. *)
Definition uiApiKey (this : AuthenticationManager) : option jsstring :=
  match find (fun e => jsstring_eqb (role (snd e)) (str "ui")) (apiKeys this) with
  | Some e => Some (fst e)
  | None => None
  end.

End Auth.

(* ===================================================================== *)
(** ** [fetchAPI] ([src/index.js]) *)
(* ===================================================================== *)

Module Index.

Section FetchAPI.
Variable env : Environment.

(** [headers[name]] is truthy. *)
Definition hasHeader (headers : list (jsstring * jsstring)) (name : string) : bool :=
  match Map_get (str name) headers with
  | Some (_ :: _) => true
  | _ => false
  end.

(** [body && method !== "GET" && method !== "HEAD"] *)
Definition sendsBody (method : jsstring) (body : value) : bool :=
  truthy body && negb (jsstring_eqb method (str "GET"))
  && negb (jsstring_eqb method (str "HEAD")).

(** The [options] handed to [fetch]. (The assignment of the default
    [Content-Type] also changes the caller's [headers] object; that is not
    followed here.) *)
Definition fetchOptions (headers : list (jsstring * jsstring)) (method : jsstring)
    (body : value) : FetchOptions :=
  if sendsBody method body then
    {| fo_method := method;
       fo_headers :=
         if hasHeader headers "Content-Type" || hasHeader headers "content-type"
         then headers
         else Map_set (str "Content-Type") (str "application/json") headers;
       fo_body := Some (match body with
                        | VStr s => s
                        | _ => JSON_stringify env body
                        end) |}
  else {| fo_method := method; fo_headers := headers; fo_body := None |}.

(** [fetchAPI(url, headers, method, body)]; the [catch] clause logs and
    throws the error again. *)
Definition fetchAPI (url : jsstring) (headers : list (jsstring * jsstring))
    (method : jsstring) (body : value) : ST World value :=
  response <- fetch env url (fetchOptions headers method body) ;;
  when (negb (ok response))
       (throw (Error (str "HTTP error! status: "
                        ++ N_to_jsstring (Host.status response)))) ;;;
  (* Try to parse as JSON first, fallback to text *)
  text <- lift (Host.text response) ;;
  match JSON_parse env text with
  | Some parsed => ret parsed
  | None => ret (VStr text)
  end.

End FetchAPI.

End Index.

(* ===================================================================== *)
(** ** The [pingHost] function of [src/examples/duckduck-go/index.js] *)
(* ===================================================================== *)

Module DuckDuckGo.

(** The class [[a-zA-Z0-9.-]]. *)
Definition hostChar (c : N) : bool :=
  (  ((97 <=? c) && (c <=? 122)) || ((65 <=? c) && (c <=? 90))
  || ((48 <=? c) && (c <=? 57)) || (c =? 46) || (c =? 45))%N.

(** [host.replace(/[^a-zA-Z0-9.-]/g, '')] *)
Definition cleanHost (host : jsstring) : jsstring := filter hostChar host.

Definition pingHost : Enhanced.CommandConfig :=
  {| Enhanced.cmd_command :=
       Enhanced.CommandFn (fun host =>
         match host with
         | VStr s => Ok (str "ping -c 3 " ++ cleanHost s)
         | VUndefined =>
             Throw (TypeError
                      (str "Cannot read properties of undefined (reading 'replace')"))
         | VNull =>
             Throw (TypeError
                      (str "Cannot read properties of null (reading 'replace')"))
         | _ => Throw (TypeError (str "host.replace is not a function"))
         end);
     Enhanced.cmd_allowedCommands := Some [str "ping"];
     Enhanced.cmd_timeout := Some 10000%N;
     Enhanced.cmd_maxBuffer := None;
     Enhanced.cmd_parseArgs := Some Enhanced.trimArgs;
     Enhanced.cmd_description := Some (str "Test network connectivity to a host") |}.

End DuckDuckGo.

Unset Implicit Arguments.

(* ===================================================================== *)
(** ** Vocabulary of the properties *)
(* ===================================================================== *)

Module Props.

(** The rest of the input does not continue a run of the class. *)
Definition stops (cls : N -> bool) (rest : jsstring) : Prop :=
  match rest with
  | [] => True
  | c :: _ => cls c = false
  end.

(** The second and third elements of the match array. *)
Definition capture (match_ : list jsstring) (i : nat) : value :=
  match nth_error match_ i with
  | Some c => VStr c
  | None => VUndefined
  end.

(** The four built-in browser functions: registered name, action tag, key
    of the payload. *)
Definition builtins : list (string * string * string) :=
  [ ("showAlert", "alert", "message"); ("openWindow", "openWindow", "url");
    ("showModal", "modal", "url"); ("speak", "speak", "text") ]%string.

(** [{success: true, browserAction: <action>, data: {<key>: <payload>}}] *)
Definition browserSuccess (action key : string) (payload : jsstring) : value :=
  VObj [ (str "success", VBool true);
         (str "browserAction", VStr (str action));
         (str "data", VObj [(str key, VStr payload)]) ].

(** The [command] field of a failure: the static text, or ["dynamic"]. *)
Definition commandLabel (cfg : Enhanced.CommandConfig) : value :=
  match Enhanced.cmd_command cfg with
  | Enhanced.CommandFn _ => VStr (str "dynamic")
  | Enhanced.CommandText c => VStr c
  end.

(** The events of scenario 2. *)
Definition alertEvents : list SSE.event :=
  [ SSE.status (str "Processing your request...");
    SSE.browser_action (VStr (str "alert"))
      (VObj [(str "message", VStr (str "Build complete"))]);
    SSE.token (VStr (str "Alert displayed: " ++ dquote ++ str "Build complete" ++ dquote));
    SSE.done ].

(** The shape of a connection's log: events that are not terminal,
    followed, exactly when the response is ended, by one terminal event. *)
Definition ordered (r : SSE.Res) : Prop :=
  if SSE.writableEnded r
  then exists pre t, SSE.sent r = pre ++ [t]
                     /\ existsb SSE.terminal pre = false /\ SSE.terminal t = true
  else existsb SSE.terminal (SSE.sent r) = false.

(** A route step keeps the log in shape. *)
Definition keeps {A : Type} (m : ST SSE.RS A) : Prop :=
  forall s, ordered (fst s) -> ordered (fst (snd (m s))).

(** A [token] event. *)
Definition is_token (e : SSE.event) : Prop := exists text, e = SSE.token text.

(** The promise has been resolved or rejected. *)
Definition settled (p : Promise) : bool :=
  match p with
  | Pending => false
  | _ => true
  end.

(** What the relay has put on the connection since it was handed the
    response with [sent0] already written: tokens only while the promise is
    pending; tokens and then one terminal event, on an ended response, once
    it has settled. *)
Definition relayed (sent0 : list SSE.event) (r : SSE.Res) (p : Promise) : Prop :=
  if settled p
  then SSE.writableEnded r = true
       /\ exists toks t, SSE.sent r = sent0 ++ toks ++ [t]
                         /\ Forall is_token toks /\ SSE.terminal t = true
  else SSE.writableEnded r = false
       /\ exists toks, SSE.sent r = sent0 ++ toks /\ Forall is_token toks.

(** [relayed], of the state of a v1 stream. *)
Definition inv (sent0 : list SSE.event) (st : Framework.Stream) : Prop :=
  relayed sent0 (Framework.res st) (Framework.promise st).

(** The second response has sent what the first has, and is ended. *)
Definition same_connection (r r' : SSE.Res) : Prop :=
  SSE.sent r' = SSE.sent r /\ SSE.writableEnded r' = true.

End Props.

Import Props.

(* ===================================================================== *)
(** ** Vocabulary: the relay of a stream *)
(* ===================================================================== *)

Module StreamProps.

(** No newline in the string. *)
Definition nlfree (s : jsstring) : bool := forallb (fun c => negb (c =? 10)%N) s.

(** What a v1 stream shows of itself: everything but the refused writes. *)
Definition observe (st : Framework.Stream)
  : jsstring * list SSE.event * bool * Promise * bool :=
  (Framework.buffer st, SSE.sent (Framework.res st),
   SSE.writableEnded (Framework.res st), Framework.promise st, Framework.timer st).

(** The line is one record of the backend's stream carrying [text]: no
    newline inside, not blank, parsed to a value whose [response] is the
    non-empty [text] and whose [done] is falsy. *)
Definition carries (env : Environment) (line text : jsstring) : Prop :=
  nlfree line = true /\ nonblank line = true /\ text <> [] /\
  exists parsed d,
    JSON_parse env line = Some parsed
    /\ getProp parsed "response" = Ok (VStr text)
    /\ getProp parsed "done" = Ok d /\ truthy d = false.

(** The body text of a list of records: each followed by a newline. *)
Definition ndjson (records : list (jsstring * jsstring)) : jsstring :=
  List.concat (map (fun rc => fst rc ++ nl) records).

(** What ends a stream that carried no final record, the terminal event it
    puts on the connection and how the promise settles. *)
Definition closing (ev : BodyEvent) : option (SSE.event * Promise) :=
  match ev with
  | Data _ => None
  | End => Some (SSE.done, Resolved)
  | BodyError e => Some (SSE.error (VStr (message e)), Rejected e)
  | Elapsed => Some (SSE.error (VStr (str "Response timeout")),
                     Rejected (Error (str "Timeout")))
  end.

(** The line is the final record of a stream: its [done] is truthy. *)
Definition finishes (env : Environment) (line : jsstring) (response : value) : Prop :=
  nlfree line = true /\ nonblank line = true /\
  exists parsed d,
    JSON_parse env line = Some parsed
    /\ getProp parsed "response" = Ok response
    /\ getProp parsed "done" = Ok d /\ truthy d = true.

(** The [token] events of a list of records. *)
Definition tokens (records : list (jsstring * jsstring)) : list SSE.event :=
  map (fun rc => SSE.token (VStr (snd rc))) records.

(** What is on the wire: the events sent and whether the response ended. *)
Definition wire (r : SSE.Res) : list SSE.event * bool :=
  (SSE.sent r, SSE.writableEnded r).

(** What a v1 stream shows of itself, the line buffer apart. *)
Definition core (st : Framework.Stream) : (list SSE.event * bool) * Promise * bool :=
  (wire (Framework.res st), Framework.promise st, Framework.timer st).

(** The stream is over: the response ended, the promise settled, the
    timeout cleared. *)
Definition over (st : Framework.Stream) : bool :=
  SSE.writableEnded (Framework.res st) && settled (Framework.promise st)
  && negb (Framework.timer st).

(** The stream with another line buffer. *)
Definition rebuffer (b : jsstring) (st : Framework.Stream) : Framework.Stream :=
  {| Framework.buffer := b; Framework.res := Framework.res st;
     Framework.promise := Framework.promise st; Framework.timer := Framework.timer st |}.

(** The same for the listeners of v2's [streamLLMResponse], which arm no
    timeout. *)
Definition v2_observe (st : Enhanced.Stream)
  : jsstring * list SSE.event * bool * Promise :=
  (Enhanced.buffer st, SSE.sent (Enhanced.res st),
   SSE.writableEnded (Enhanced.res st), Enhanced.promise st).

Definition v2_core (st : Enhanced.Stream) : (list SSE.event * bool) * Promise :=
  (wire (Enhanced.res st), Enhanced.promise st).

Definition v2_over (st : Enhanced.Stream) : bool :=
  SSE.writableEnded (Enhanced.res st) && settled (Enhanced.promise st).

Definition v2_rebuffer (b : jsstring) (st : Enhanced.Stream) : Enhanced.Stream :=
  {| Enhanced.buffer := b; Enhanced.res := Enhanced.res st;
     Enhanced.promise := Enhanced.promise st |}.

(** The stream as [streamLLMResponse] starts it. *)
Definition v2_start (res : SSE.Res) : Enhanced.Stream :=
  {| Enhanced.buffer := []; Enhanced.res := res; Enhanced.promise := Pending |}.

(** What ends a v2 stream that carried no final record, and the terminal
    event the chat route puts on the connection for it. *)
Definition v2_closing (ev : BodyEvent) : option SSE.event :=
  match ev with
  | End => Some SSE.done
  | BodyError e => Some (SSE.error (VStr (message e)))
  | Data _ | Elapsed => None
  end.

(** The request [streamLLMResponse] sends to the model. *)
Definition generateRequest (env : Environment) (this : Enhanced.LLMFramework)
    (prompt : jsstring) : jsstring * FetchOptions :=
  (Enhanced.llm_endpoint (Enhanced.llm (Enhanced.this_config this)),
   {| fo_method := str "POST";
      fo_headers := [(str "Content-Type", str "application/json")];
      fo_body := Some (JSON_stringify env
                   (VObj [ (str "model",
                            VStr (Enhanced.llm_model
                                    (Enhanced.llm (Enhanced.this_config this))));
                           (str "prompt", VStr prompt);
                           (str "stream", VBool true) ])) |}).

End StreamProps.
Import StreamProps.

(* ===================================================================== *)
(** ** Vocabulary: the requests of the v1 route *)
(* ===================================================================== *)

Module StreamRouteProps.






(** The world after one more request. *)
Definition afterRequest (w : World) (rq : jsstring * FetchOptions) : World :=
  {| spawned := spawned w; requested := requested w ++ [rq] |}.

End StreamRouteProps.
Import StreamRouteProps.

(* ===================================================================== *)
(** ** Vocabulary: the user's functions *)
(* ===================================================================== *)

Module RegistrationProps.

Import Enhanced Registration.

(** What [registerUserFunctions] stores for an entry of [config.functions]
    in a registry of configuration [rconfig]; nothing for an unknown type. *)
Definition stored (env : Environment) (stack : exn -> value) (n8n : option jsstring)
    (now : World -> jsstring) (rconfig : Config) (name : jsstring)
    (definition : UserFunction) : option FunctionDef :=
  match definition with
  | UserAPI cfg =>
      Some {| type := str "api"; name := name; handler := apiHandler env cfg;
              parseArgs := api_parseArgs cfg; description := api_description cfg |}
  | UserCommand cfg =>
      Some {| type := str "command"; name := name;
              handler := commandHandler env rconfig cfg;
              parseArgs := cmd_parseArgs cfg; description := cmd_description cfg |}
  | UserScript cfg =>
      Some {| type := str "script"; name := name;
              handler := scriptHandler stack rconfig cfg;
              parseArgs := script_parseArgs cfg;
              description := script_description cfg |}
  | UserN8N cfg =>
      Some {| type := str "n8n"; name := name;
              handler := n8nHandler env n8n now name cfg;
              parseArgs := n8n_parseArgs cfg;
              description := Some (orString (n8n_description cfg)
                                     (str "Execute N8N workflow: " ++ name)) |}
  | UserUnknown => None
  | UserLegacy d =>
      Some {| type := str "api"; name := name; handler := def_handler d;
              parseArgs := def_parseArgs d; description := def_description d |}
  end.

(** The entry has one of the types that are registered. *)
Definition known (entry : jsstring * UserFunction) : bool :=
  match snd entry with
  | UserUnknown => false
  | _ => true
  end.

(** The name is among the keys. *)
Definition among (keys : list jsstring) (name : jsstring) : bool :=
  existsb (jsstring_eqb name) keys.

(** The names of the built-in functions, in the order of their registration. *)
Definition builtinNames : list jsstring :=
  [ str "showAlert"; str "openWindow"; str "showModal"; str "speak" ].

(** The names [getAll] lists. *)
Definition listed (this : FunctionRegistry) : list jsstring :=
  map (fun e => fst (fst e)) (getAll this).

(** A configuration with three user functions: an API function, one of an
    unknown type and a legacy definition that takes the name of a built-in. *)
Definition sampleFunctions : list (jsstring * UserFunction) :=
  [ (str "searchMusic", UserAPI Examples.searchMusic);
    (str "mystery", UserUnknown);
    (str "speak", UserLegacy Examples.lookupDefinition) ].

(** No stack traces, no N8N endpoint, a clock that stands still. *)
Definition noStack (e : exn) : value := VUndefined.
Definition epoch (w : World) : jsstring := str "1970-01-01T00:00:00.000Z".

(** A workflow reachable under its own endpoint, with a key. *)
Definition notify : N8NConfig :=
  {| n8n_endpoint := Some (str "https://n8n.example.com");
     n8n_webhookId := None;
     n8n_apiKey := Some (str "secret");
     n8n_parseArgs := Some trimArgs;
     n8n_description := None |}.

(** [searchMusic] with a [transform]. *)
Definition transformed (transform : value -> value -> Transformed) : APIConfig :=
  {| api_endpoint := api_endpoint Examples.searchMusic;
     api_method := None;
     api_headers := [];
     api_body := None;
     api_transform := Some transform;
     api_parseArgs := Some trimArgs;
     api_description := None |}.

(** A script that returns its argument. *)
Definition echo : ScriptConfig :=
  {| script_handler := Some (fun args => ret args);
     script_parseArgs := Some trimArgs;
     script_description := Some (str "Echo") |}.

End RegistrationProps.
Import RegistrationProps.

(* ===================================================================== *)
(** ** Vocabulary: validation in v1 *)
(* ===================================================================== *)

Module FrameworkProps.

(** The name is one of those a plain object inherits. *)
Definition onPrototype (key : jsstring) : bool :=
  existsb (jsstring_eqb key) Framework.objectPrototype.

(** [args[key]] is neither [undefined] nor [null]: an own property with
    such a value, or else a member inherited from [Object.prototype]. *)
Definition present (ps : list (jsstring * value)) (key : jsstring) : bool :=
  match assoc key ps with
  | Some VUndefined | Some VNull => false
  | Some _ => true
  | None => onPrototype key
  end.

(** [args[param]] is [undefined] or of the expected type; an inherited
    member is a function, the inherited [__proto__] an object. *)
Definition wellTyped (ps : list (jsstring * value)) (entry : jsstring * jsstring) : bool :=
  match assoc (fst entry) ps with
  | Some VUndefined => true
  | Some v => jsstring_eqb (Framework.typeof v) (snd entry)
  | None =>
      if onPrototype (fst entry)
      then jsstring_eqb (if jsstring_eqb (fst entry) (str "__proto__")
                         then str "object" else str "function")
                        (snd entry)
      else true
  end.

(** The arguments pass the validation. *)
Definition passes (v : Framework.Validation) (ps : list (jsstring * value)) : bool :=
  forallb (present ps) (match Framework.required v with Some l => l | None => [] end)
  && forallb (wellTyped ps) (match Framework.types v with Some l => l | None => [] end).

(** A function that wants a string [term] and, if given, a numeric [limit]. *)
Definition searchValidation : Framework.Validation :=
  {| Framework.required := Some [str "term"];
     Framework.types := Some [(str "term", str "string"); (str "limit", str "number")] |}.

Definition search : Framework.FunctionDef :=
  {| Framework.handler := fun args => ret args;
     Framework.parseArgs := fun raw => Ok (VObj [(str "term", raw)]);
     Framework.validation := Some searchValidation |}.

Definition withSearch : Framework.Config :=
  {| Framework.llm := Framework.llm Examples.frameworkDefaults;
     Framework.app := {| Framework.browserActions := true |};
     Framework.systemPrompt := str "You are a helpful assistant.";
     Framework.functionPattern := defaultFunctionPattern;
     Framework.functions := [ (str "search", search) ] |}.

End FrameworkProps.
Import FrameworkProps.

(* ===================================================================== *)
(** ** Vocabulary: calls through the routes *)
(* ===================================================================== *)

Module CallProps.

(** The confirmation text of a built-in browser action. *)
Definition confirmation (action : string) (payload : jsstring) : jsstring :=
  if String.eqb action "alert"
  then str "Alert displayed: " ++ dquote ++ payload ++ dquote
  else if String.eqb action "openWindow" then str "Opening new tab: " ++ payload
  else if String.eqb action "modal" then str "Opening modal with: " ++ payload
  else if String.eqb action "speak" then str "Speaking: " ++ dquote ++ payload ++ dquote
  else str "Browser action completed: " ++ str action.

(** The events of a built-in call. *)
Definition browserEvents (action key : string) (payload : jsstring) : list SSE.event :=
  [ SSE.status (str "Processing your request...");
    SSE.browser_action (VStr (str action)) (VObj [(str key, VStr payload)]);
    SSE.token (VStr (confirmation action payload));
    SSE.done ].

(** The text of a call. *)
Definition callText (name : jsstring) (a : jsstring) : jsstring :=
  str "FUNCTION:" ++ name ++ str ":" ++ a.

(** The registry of the default configuration with [pingHost] added. *)
Definition withPing : Enhanced.LLMFramework :=
  {| Enhanced.this_config := Examples.enhancedDefaults;
     Enhanced.functionRegistry :=
       Enhanced.registerCommand Examples.offline (str "pingHost") Examples.pingHost
         (Enhanced.new_FunctionRegistry Examples.enhancedDefaults) |}.

(** A legacy function whose handler rejects. *)
Definition broken : Enhanced.Definition_ :=
  {| Enhanced.def_handler := fun _ => throw (Error (str "boom"));
     Enhanced.def_parseArgs := Some Enhanced.trimArgs;
     Enhanced.def_description := None |}.

Definition withBroken : Enhanced.LLMFramework :=
  {| Enhanced.this_config := Examples.enhancedDefaults;
     Enhanced.functionRegistry :=
       Enhanced.register (str "api") (str "broken") broken
         (Enhanced.new_FunctionRegistry Examples.enhancedDefaults) |}.

(** What a v2 request to the model that did not succeed is reported as. *)
Definition chatFailure (outcome : result Response) : option jsstring :=
  match outcome with
  | Throw e => Some (message e)
  | Ok response =>
      if ok response then None
      else Some (str "LLM API error: " ++ N_to_jsstring (Host.status response))
  end.


(** A backend that answers every request with 503. *)
Definition unavailable : Environment :=
  Examples.mislabelled false 503 "Service Unavailable".





End CallProps.
Import CallProps.

(* ===================================================================== *)
(** ** Vocabulary: configurations *)
(* ===================================================================== *)

Module MergeProps.

Import Merge.

(** The value found by following own properties along a path (through the
    characters of a string and the elements of an array as the spread
    operator sees them); [undefined] where the path leaves the value. *)
Fixpoint at_ (v : cvalue) (path : list jsstring) : cvalue :=
  match path with
  | [] => v
  | key :: rest =>
      match Map_get key (spread v) with
      | Some x => at_ x rest
      | None => CUndefined
      end
  end.

(** No key occurs twice in an object, at any depth. *)
Fixpoint cwf (v : cvalue) : bool :=
  match v with
  | CObj props =>
      (fix all (props : list (jsstring * cvalue)) : bool :=
         match props with
         | [] => true
         | (key, x) :: rest =>
             negb (existsb (fun e => jsstring_eqb key (fst e)) rest)
             && cwf x && all rest
         end) props
  | _ => true
  end.

(** Where a path stands in a source of [deepMerge]. *)
Inductive standing :=
| Leaf (v : cvalue)   (* the source has a value there that is not merged *)
| Silent              (* the source says nothing about the path *)
| Inner.              (* the path ends at, or passes, a merged value *)

Fixpoint classify (source : cvalue) (path : list jsstring) : standing :=
  match path with
  | [] => Inner
  | key :: rest =>
      match source with
      | CObj entries =>
          match Map_get key entries with
          | None => Silent
          | Some v =>
              if mergeable v
              then match rest with
                   | [] => Inner
                   | _ => classify v rest
                   end
              else match rest with
                   | [] => Leaf v
                   | _ => Inner
                   end
          end
      | CRegExp _ | CUndefined | CNull => Silent
      | _ => Inner
      end
  end.

(** One entry of the [for ... in] loop of [deepMerge], and the loop. *)
Definition step (target : cvalue) (key : jsstring) (v : cvalue) : option cvalue :=
  if isIndex key || jsstring_eqb key (str "__proto__") then None
  else if mergeable v
       then match cget target key with
            | Some t => deepMerge (if ctruthy t then t else CObj []) v
            | None => None
            end
       else Some v.

Fixpoint forIn (target : cvalue) (entries output : list (jsstring * cvalue))
  : option (list (jsstring * cvalue)) :=
  match entries with
  | [] => Some output
  | (key, v) :: rest =>
      match step target key v with
      | Some x => forIn target rest (Map_set key x output)
      | None => None
      end
  end.

(** A user configuration: a model endpoint, an application name, and a
    pattern given as a regular expression. *)
Definition userConfig : cvalue :=
  CObj [ (str "llm", CObj [ (str "endpoint", CStr (str "http://ollama:11434/api/generate")) ]);
         (str "app", CObj [ (str "name", CStr (str "Helpdesk")) ]);
         (str "functionPattern", CRegExp (str "^CALL:(\w+):(.+)$")) ].

(** An environment without variables. *)
Definition noEnv (name : string) : option jsstring := None.
Definition noInt (s : jsstring) : option Z := None.
Definition noFloat (s : jsstring) : option (Z * positive) := None.

(** The defaults of v2 in an environment without variables, merged with
    [userConfig]. *)
Definition sampleMerged : cvalue :=
  match EnhancedConfig.mergeWithDefaults noEnv noInt noFloat userConfig with
  | Some merged => merged
  | None => CUndefined
  end.

(** The character does not occur in the string. *)
Definition free (sep : N) (s : jsstring) : bool :=
  forallb (fun c => negb (c =? sep)%N) s.

(** A text and a URL as they are written into [APP_NAVIGATION_LINKS]:
    without comma or bar, without whitespace at either end. *)
Definition plain (s : jsstring) : Prop :=
  free FrameworkConfig.comma s = true /\ free FrameworkConfig.bar s = true
  /\ trimStart s = s /\ trimEnd s = s.

(** [text|url,text|url,...] *)
Definition formatLinks (ls : list (jsstring * jsstring)) : jsstring :=
  join [FrameworkConfig.comma]
       (map (fun l => fst l ++ [FrameworkConfig.bar] ++ snd l) ls).

(** The link object of a text and a URL written without the third field. *)
Definition linkOf (l : jsstring * jsstring) : cvalue :=
  CObj [ (str "text", CStr (fst l));
         (str "url", CStr (snd l));
         (str "external", CBool (startsWith (snd l) (str "http"))) ].

End MergeProps.
Import MergeProps.

(* ===================================================================== *)
(** ** Vocabulary: authentication *)
(* ===================================================================== *)

Module AuthProps.

Import Merge Auth.

(** The managers that exist: a constructed one, and what requests make of it. *)
Inductive Reachable (jwt_verify : jsstring -> jsstring -> result value)
  : AuthenticationManager -> Prop :=
| Constructed (config : cvalue) (secret adminHex uiHex now1 now2 : jsstring)
    (this : AuthenticationManager) :
    new_AuthenticationManager config secret adminHex uiHex now1 now2 = Ok this ->
    Reachable jwt_verify this
| Used (now : jsstring) (req : Request) (this : AuthenticationManager) :
    Reachable jwt_verify this ->
    Reachable jwt_verify (snd (authenticateRequest jwt_verify now req this)).

(** The key a request presents: the header or else the query parameter,
    when not empty. *)
Definition presented (req : Request) : option jsstring :=
  match orOption (x_api_key req) (query_apiKey req) with
  | Some (c :: key) => Some (c :: key)
  | _ => None
  end.

(** The key's data with its time of use set. *)
Definition usedAt (now : jsstring) (keyData : KeyData) : KeyData :=
  {| kd_name := kd_name keyData; role := role keyData;
     permissions := permissions keyData; created := created keyData;
     lastUsed := Some now |}.

(** A configuration with authentication by API key. *)
Definition keyed : cvalue :=
  CObj [ (str "auth", CObj [ (str "enabled", CBool true);
                             (str "mode", CStr (str "apikey"));
                             (str "apiKeys", CObj [ (str "enabled", CBool true) ]) ]) ].

(** A verifier that accepts every token as the session [s1]. *)
Definition lenient (token secret : jsstring) : result value :=
  Ok (VObj [ (str "sessionId", VStr (str "s1")) ]).

Definition keyedManager : AuthenticationManager :=
  {| config := keyed; jwtSecret := str "secret";
     apiKeys :=
       [ (str "admin_aa",
          {| kd_name := str "Admin Key"; role := str "admin";
             permissions := [str "*"]; created := str "t1"; lastUsed := None |});
         (str "ui_bb",
          {| kd_name := str "UI Key"; role := str "ui";
             permissions := [str "chat"; str "examples"; str "functions"];
             created := str "t2"; lastUsed := None |}) ];
     sessions := [] |}.

(** The same without API keys. *)
Definition keyless : cvalue :=
  CObj [ (str "auth", CObj [ (str "enabled", CBool true);
                             (str "mode", CStr (str "jwt"));
                             (str "apiKeys", CObj [ (str "enabled", CBool false) ]) ]) ].

Definition keylessManager : AuthenticationManager :=
  {| config := keyless; jwtSecret := str "secret"; apiKeys := []; sessions := [] |}.

(** A request with a bearer token, one with a key in the header. *)
Definition bearer (token : string) : Request :=
  {| authorization := Some (str "Bearer " ++ str token);
     x_api_key := None; query_apiKey := None |}.

Definition withKey (key : jsstring) : Request :=
  {| authorization := None; x_api_key := Some key; query_apiKey := None |}.

End AuthProps.
Import AuthProps.

(* ===================================================================== *)
(** ** Vocabulary: commands and requests *)
(* ===================================================================== *)

Module ClientProps.

(** A host name as a hostile model might send it. *)
Definition hostile : jsstring := str "example.com; rm -rf / #".

(** A shell that answers every command. *)
Definition shell : Environment :=
  {| exec_outcome := fun _ _ _ => Ok (str "3 packets transmitted", str "");
     fetch_outcome := fun _ _ _ => Throw (Error (str "fetch failed"));
     JSON_parse := fun _ => None;
     JSON_error := fun _ => str "Unexpected token < in JSON at position 0";
     JSON_stringify := fun _ => [] |}.

(** What a command function spawns for a command: the command with its
    options, [timeout] and [maxBuffer] falling back to ten seconds and one
    megabyte when absent or zero. *)
Definition process (cfg : Enhanced.CommandConfig) (command : jsstring)
  : jsstring * ExecOptions :=
  (command,
   {| timeout := match Enhanced.cmd_timeout cfg with
                 | Some 0%N | None => 10000%N
                 | Some t => t
                 end;
      maxBuffer := match Enhanced.cmd_maxBuffer cfg with
                   | Some 0%N | None => 1048576%N
                   | Some b => b
                   end |}).

End ClientProps.
Import ClientProps.

(* ===================================================================== *)
(** ** Vocabulary: how a streamed request terminates *)
(* ===================================================================== *)

Module TerminalProps.

(** An event that ends the reading of a body by [processOllamaStream]: the
    end of the body, its failure, or the stream timeout elapsing. *)
Definition closes (ev : BodyEvent) : bool :=
  match ev with
  | Data _ => false
  | End | BodyError _ | Elapsed => true
  end.

(** The same for [streamLLMResponse], which arms no timeout. *)
Definition v2_closes (ev : BodyEvent) : bool :=
  match ev with
  | End | BodyError _ => true
  | Data _ | Elapsed => false
  end.

(** The reading of the body comes to a close. *)
Definition completes (evs : list BodyEvent) : bool := existsb closes evs.

Definition v2_completes (evs : list BodyEvent) : bool := existsb v2_closes evs.

(** Every response the environment gives has a body whose reading comes to
    a close. *)
Definition streams_complete (env : Environment) : Prop :=
  forall w url o response,
    fetch_outcome env w url o = Ok response -> completes (body response) = true.

Definition v2_streams_complete (env : Environment) : Prop :=
  forall w url o response,
    fetch_outcome env w url o = Ok response -> v2_completes (body response) = true.

(** A route step that leaves the response ended, however it finishes. *)
Definition ends {A : Type} (m : ST SSE.RS A) : Prop :=
  forall s, SSE.writableEnded (fst (snd (m s))) = true.

(** A route step that leaves the response ended when it returns. *)
Definition endsOnReturn {A : Type} (m : ST SSE.RS A) : Prop :=
  forall s, match fst (m s) with
            | Ok _ => SSE.writableEnded (fst (snd (m s))) = true
            | Throw _ => True
            end.

(** The second response has on the connection what the first has, and
    possibly more. *)
Definition grows (r r' : SSE.Res) : Prop :=
  exists more, SSE.sent r' = SSE.sent r ++ more.

(** A route step only adds to what is on the connection. *)
Definition extends {A : Type} (m : ST SSE.RS A) : Prop :=
  forall s, grows (fst s) (fst (snd (m s))).

(** A route step that, started on an open response, has nothing refused
    and leaves the response open. *)
Definition quiet {A : Type} (m : ST SSE.RS A) : Prop :=
  forall s, SSE.writableEnded (fst s) = false ->
            SSE.refused (fst (snd (m s))) = SSE.refused (fst s)
            /\ SSE.writableEnded (fst (snd (m s))) = false.

(** A route step that, started on an open response, has nothing refused. *)
Definition tidy {A : Type} (m : ST SSE.RS A) : Prop :=
  forall s, SSE.writableEnded (fst s) = false ->
            SSE.refused (fst (snd (m s))) = SSE.refused (fst s).

(** A route step that, started on an open response, has nothing refused
    and, when it throws, leaves the response open. *)
Definition calm {A : Type} (m : ST SSE.RS A) : Prop :=
  forall s, SSE.writableEnded (fst s) = false ->
            SSE.refused (fst (snd (m s))) = SSE.refused (fst s)
            /\ match fst (m s) with
               | Ok _ => True
               | Throw _ => SSE.writableEnded (fst (snd (m s))) = false
               end.

(** What the response may have refused in a run of the v1 route: nothing,
    or the one [error] event of the inner [catch]. *)
Definition lateError (attempts : list SSE.event) : Prop :=
  attempts = []
  \/ exists msg, attempts = [SSE.error (VStr (str "Function failed: " ++ msg))].

Definition nearlyTidy {A : Type} (m : ST SSE.RS A) : Prop :=
  forall s, SSE.writableEnded (fst s) = false ->
            exists attempts,
              SSE.refused (fst (snd (m s))) = SSE.refused (fst s) ++ attempts
              /\ lateError attempts.

(** While the promise of a v1 stream is pending its timeout is armed. *)
Definition armed (st : Framework.Stream) : Prop :=
  Framework.promise st = Pending -> Framework.timer st = true.

(** Once the promise of a v1 stream has settled the response is ended. *)
Definition settledEnded (st : Framework.Stream) : Prop :=
  settled (Framework.promise st) = true ->
  SSE.writableEnded (Framework.res st) = true.

(** Once the promise of a v2 stream is resolved the response is ended. *)
Definition resolvedEnded (st : Enhanced.Stream) : Prop :=
  Enhanced.promise st = Resolved -> SSE.writableEnded (Enhanced.res st) = true.

(** The reply of [Examples.ollama]. *)
Definition greetingReply : Response :=
  {| Host.ok := true; Host.status := 200; Host.statusText := str "OK";
     Host.headers := [(str "Content-Type", str "application/x-ndjson")];
     Host.text := Ok (Examples.record "Hi there" true);
     Host.body := Examples.greeting |}.

(** A v1 function that finds nothing, and a model that calls it and then
    stalls while its analysis of the result is streamed. *)
Definition emptySearch : Framework.FunctionDef :=
  {| Framework.handler := fun _ =>
       ret (VObj [ (str "success", VBool true);
                   (str "results", VArr []);
                   (str "totalResults", VNum 0) ]);
     Framework.parseArgs := Framework.trimArgs;
     Framework.validation := None |}.

Definition withEmptySearch : Framework.Config :=
  {| Framework.llm := Framework.llm Examples.frameworkDefaults;
     Framework.app := {| Framework.browserActions := true |};
     Framework.systemPrompt := str "You are a helpful assistant.";
     Framework.functionPattern := defaultFunctionPattern;
     Framework.functions := [ (str "find", emptySearch) ] |}.

Definition stallingReply : Response :=
  {| Host.ok := true; Host.status := 200; Host.statusText := str "OK";
     Host.headers := [(str "Content-Type", str "application/json")];
     Host.text := Ok (Examples.record "FUNCTION:find:anything" true);
     Host.body := [ Elapsed; End ] |}.

Definition stallingModel : Environment :=
  {| exec_outcome := fun _ _ _ => Throw (Error (str "spawn /bin/sh ENOENT"));
     fetch_outcome := fun _ _ _ => Ok stallingReply;
     JSON_parse := fun t =>
       if jsstring_eqb t (Examples.record "FUNCTION:find:anything" true)
       then Some (Examples.parsed "FUNCTION:find:anything" true)
       else None;
     JSON_error := fun _ => str "Unexpected token < in JSON at position 0";
     JSON_stringify := fun _ => [] |}.

End TerminalProps.
Import TerminalProps.

(* ===================================================================== *)
(** ** Facts about strings and maps *)
(* ===================================================================== *)

Module StringFacts.

Lemma jsstring_eqb_eq (a b : jsstring) : jsstring_eqb a b = true <-> a = b.
Proof.
  revert b; induction a as [|x a IH]; intros [|y b]; simpl;
    try (split; [discriminate | congruence]); try tauto.
  rewrite andb_true_iff, N.eqb_eq, IH.
  split; [intros [-> ->]; reflexivity | intros H; inversion H; auto].
Qed.

Lemma jsstring_eqb_refl (a : jsstring) : jsstring_eqb a a = true.
Proof. apply jsstring_eqb_eq; reflexivity. Qed.

Lemma jsstring_eqb_neq (a b : jsstring) : jsstring_eqb a b = false <-> a <> b.
Proof.
  rewrite <- jsstring_eqb_eq. destruct (jsstring_eqb a b); split; congruence.
Qed.

Lemma trimStart_length (s : jsstring) :
  List.length (trimStart s) <= List.length s.
Proof.
  induction s as [|c s IH]; simpl; [lia|].
  destruct (is_whitespace c); simpl; lia.
Qed.

(** A string that [trimStart] leaves alone does not begin with whitespace. *)
Lemma trimStart_fixed (c : N) (s : jsstring) :
  trimStart (c :: s) = c :: s -> is_whitespace c = false.
Proof.
  simpl. destruct (is_whitespace c); [|reflexivity].
  intros H. pose proof (trimStart_length s) as L.
  rewrite H in L. simpl in L. lia.
Qed.

Lemma trimStart_app (c : N) (s t : jsstring) :
  is_whitespace c = false -> trimStart ((c :: s) ++ t) = (c :: s) ++ t.
Proof. intros H. simpl. rewrite H. reflexivity. Qed.

(** Appending after a string that does not end in whitespace: the outer
    [trimEnd] strips nothing. *)
Lemma trimEnd_app (p a : jsstring) :
  a <> [] -> trimEnd a = a -> trimEnd (p ++ a) = p ++ a.
Proof.
  unfold trimEnd. intros Hne Ha.
  assert (Hr : trimStart (rev a) = rev a).
  { rewrite <- (rev_involutive (trimStart (rev a))), Ha. reflexivity. }
  rewrite rev_app_distr.
  destruct (rev a) as [|c r] eqn:E.
  - exfalso. apply Hne. rewrite <- (rev_involutive a), E. reflexivity.
  - rewrite trimStart_app by (eapply trimStart_fixed; eauto).
    rewrite <- E, <- rev_app_distr, rev_involutive. reflexivity.
Qed.

(** The outer [trim] of a call text keeps the arguments verbatim. *)
Lemma trim_call (c : N) (p a : jsstring) :
  is_whitespace c = false -> a <> [] -> trimEnd a = a ->
  trim ((c :: p) ++ a) = (c :: p) ++ a.
Proof.
  intros Hc Hne Ha. unfold trim.
  rewrite trimStart_app by assumption.
  apply trimEnd_app; assumption.
Qed.

Section MapFacts.
Variable V : Type.
Implicit Types (m : Map V) (k : jsstring) (v : V).

Lemma Map_get_set_same m k v : Map_get k (Map_set k v m) = Some v.
Proof.
  induction m as [|[k' v'] m IH]; simpl.
  - rewrite jsstring_eqb_refl; reflexivity.
  - destruct (jsstring_eqb k k') eqn:E; simpl.
    + rewrite jsstring_eqb_refl; reflexivity.
    + rewrite E; exact IH.
Qed.

Lemma Map_get_set_other m k k' v :
  k <> k' -> Map_get k (Map_set k' v m) = Map_get k m.
Proof.
  intros Hne. apply jsstring_eqb_neq in Hne.
  induction m as [|[k2 v2] m IH]; simpl.
  - rewrite Hne; reflexivity.
  - destruct (jsstring_eqb k' k2) eqn:E; simpl.
    + apply jsstring_eqb_eq in E; subst k2. rewrite Hne; reflexivity.
    + destruct (jsstring_eqb k k2); [reflexivity | exact IH].
Qed.

Lemma Map_set_keys_in m k v x :
  In x (List.map fst (Map_set k v m)) -> x = k \/ In x (List.map fst m).
Proof.
  induction m as [|[k' v'] m IH]; simpl.
  - intros [H|[]]; auto.
  - destruct (jsstring_eqb k k') eqn:E; simpl.
    + apply jsstring_eqb_eq in E; subst k'. intros [H|H]; auto.
    + intros [H|H]; auto. destruct (IH H); auto.
Qed.

(** [set] keeps the keys of a [Map] distinct. *)
Lemma Map_set_wf m k v : Map_wf m -> Map_wf (Map_set k v m).
Proof.
  unfold Map_wf. induction m as [|[k' v'] m IH]; simpl; intros Hnd.
  - constructor; [intros [] | constructor].
  - inversion Hnd as [|? ? Hnotin Hnd']; subst.
    destruct (jsstring_eqb k k') eqn:E; simpl.
    + apply jsstring_eqb_eq in E; subst k'. constructor; assumption.
    + constructor; [|apply IH; assumption].
      intros Hin. apply Map_set_keys_in in Hin as [->|Hin]; [|contradiction].
      rewrite jsstring_eqb_refl in E; discriminate.
Qed.

Lemma Map_count_absent m k : ~ In k (List.map fst m) -> Map_count k m = 0.
Proof.
  unfold Map_count. induction m as [|[k' v'] m IH]; simpl; intros Hn; [reflexivity|].
  destruct (jsstring_eqb k k') eqn:E.
  - apply jsstring_eqb_eq in E; subst k'. exfalso; apply Hn; auto.
  - apply IH. intros H; apply Hn; auto.
Qed.

(** After [set], the key has exactly one entry. *)
Lemma Map_count_set m k v : Map_wf m -> Map_count k (Map_set k v m) = 1.
Proof.
  unfold Map_wf. induction m as [|[k' v'] m IH]; simpl; intros Hnd.
  - unfold Map_count; simpl. rewrite jsstring_eqb_refl; reflexivity.
  - inversion Hnd as [|? ? Hnotin Hnd']; subst.
    destruct (jsstring_eqb k k') eqn:E.
    + apply jsstring_eqb_eq in E; subst k'.
      unfold Map_count; simpl. rewrite jsstring_eqb_refl; simpl.
      f_equal. apply Map_count_absent; assumption.
    + specialize (IH Hnd'). unfold Map_count in *; simpl. rewrite E. exact IH.
Qed.
End MapFacts.

End StringFacts.

(* ===================================================================== *)
(** ** Facts about the function-call pattern *)
(* ===================================================================== *)

Module RegexFacts.

Import StringFacts.

(** A maximal run of the class is the first thing greedy [X+] tries. *)
Lemma plus_loop_greedy (R : Type) (cls : N -> bool)
      (k : nat -> jsstring -> option R) (run rest : jsstring) :
  forall (i : nat) (r : R),
    run <> [] -> forallb cls run = true -> stops cls rest ->
    k (i + List.length run) rest = Some r ->
    plus_loop cls k i (run ++ rest) = Some r.
Proof.
  induction run as [|c run IH]; intros i r Hne Hall Hstop Hk; [congruence|].
  simpl in Hall. apply andb_true_iff in Hall as [Hc Hall].
  simpl. rewrite Hc.
  destruct run as [|c2 run'].
  - simpl in *. replace (i + 1) with (S i) in Hk by lia.
    destruct rest as [|c' rest']; simpl.
    + exact Hk.
    + simpl in Hstop. rewrite Hstop. exact Hk.
  - rewrite (IH (S i) r); [reflexivity | discriminate | exact Hall | exact Hstop |].
    simpl in *.
    replace (S (i + S (List.length run'))) with (i + S (S (List.length run'))) by lia.
    exact Hk.
Qed.

Lemma firstn_exact (A : Type) (a b : list A) :
  firstn (List.length a) (a ++ b) = a.
Proof.
  rewrite firstn_app, Nat.sub_diag, firstn_all. simpl. apply app_nil_r.
Qed.

(** The pattern accepts a well-formed call and captures its two parts. *)
Lemma match_call (n a : jsstring) :
  n <> [] -> forallb word n = true ->
  a <> [] -> forallb dot a = true ->
  String_match (str "FUNCTION:" ++ n ++ str ":" ++ a) defaultFunctionPattern
  = Some [str "FUNCTION:" ++ n ++ str ":" ++ a; n; a].
Proof.
  intros Hn Hw Ha Hd.
  unfold String_match, exec_from.
  set (whole := str "FUNCTION:" ++ n ++ str ":" ++ a).
  assert (Hm : rmatch defaultFunctionPattern 0 whole []
                 (fun j _ caps => Some (firstn (j - 0) whole :: caps))
               = Some [whole; n; a]).
  { unfold defaultFunctionPattern, literal. subst whole.
    cbn -[plus_loop word dot firstn Nat.sub].
    erewrite (plus_loop_greedy _ word _ n (58%N :: a));
      [reflexivity | exact Hn | exact Hw | reflexivity |].
    cbn -[plus_loop word dot firstn Nat.sub].
    rewrite <- (app_nil_r a) at 1.
    erewrite (plus_loop_greedy _ dot _ a []);
      [reflexivity | exact Ha | exact Hd | exact I |].
    cbn -[firstn Nat.sub].
    f_equal. f_equal; [|f_equal; [|f_equal]].
    - apply firstn_all2. simpl. rewrite length_app. simpl. lia.
    - match goal with |- firstn ?k _ = _ =>
        replace k with (List.length n) by lia end.
      apply firstn_exact.
    - apply firstn_all2. lia. }
  destruct whole; rewrite Hm; reflexivity.
Qed.

(** Whatever greedy [X+] returns came from the continuation, after a
    non-empty run of the class. *)
Lemma plus_loop_inv (R : Type) (cls : N -> bool) (k : nat -> jsstring -> option R)
      (s : jsstring) :
  forall (i : nat) (r : R),
    plus_loop cls k i s = Some r ->
    exists run rest,
      s = run ++ rest /\ run <> [] /\ forallb cls run = true
      /\ k (i + List.length run) rest = Some r.
Proof.
  induction s as [|c s IH]; intros i r H; simpl in H; [discriminate|].
  destruct (cls c) eqn:Hc; [|discriminate].
  destruct (plus_loop cls k (S i) s) as [r'|] eqn:Hrec.
  - destruct (IH (S i) r' Hrec) as (run & rest & -> & Hne & Hall & Hk).
    exists (c :: run), rest. simpl. rewrite Hc, Hall.
    repeat split; try discriminate.
    replace (i + S (List.length run)) with (S i + List.length run) by lia.
    congruence.
  - exists [c], s. simpl. rewrite Hc.
    repeat split; try discriminate.
    replace (i + 1) with (S i) by lia. exact H.
Qed.

Lemma char_inv (R : Type) (c : N) (r : regex) (i : nat) (s : jsstring)
      (caps : list jsstring) (k : kont R) (m : R) :
  rmatch (RSeq (RChar c) r) i s caps k = Some m ->
  exists s', s = c :: s' /\ rmatch r (S i) s' caps k = Some m.
Proof.
  simpl. destruct s as [|c' s']; [discriminate|].
  destruct (c =? c')%N eqn:E; [|discriminate].
  apply N.eqb_eq in E. subst c'. intros H. exists s'. auto.
Qed.

(** The pattern is anchored: no match starts after the first character. *)
Lemma no_match_later (s : jsstring) :
  forall i, exec_from defaultFunctionPattern (S i) s = None.
Proof.
  induction s as [|c s IH]; intros i; simpl; [reflexivity | apply IH].
Qed.

(** Only a complete call matches the pattern. *)
Lemma match_shape (s : jsstring) (m : list jsstring) :
  String_match s defaultFunctionPattern = Some m ->
  exists n a,
    s = str "FUNCTION:" ++ n ++ str ":" ++ a /\ m = [s; n; a]
    /\ n <> [] /\ forallb word n = true /\ a <> [] /\ forallb dot a = true.
Proof.
  unfold String_match. intros H.
  assert (H0 : rmatch defaultFunctionPattern 0 s []
                 (fun j _ caps => Some (firstn (j - 0) s :: caps)) = Some m).
  { destruct s as [|c s']; simpl in H |- *.
    - exact H.
    - match type of H with
      | match ?x with _ => _ end = _ => destruct x as [m0|] eqn:E
      end; [exact H|].
      rewrite no_match_later in H. discriminate. }
  clear H. unfold defaultFunctionPattern in H0.
  set (k0 := fun (j : nat) (_ : jsstring) (caps : list jsstring) =>
               Some (firstn (j - 0) s :: caps)) in H0.
  set (tail := RSeq (RGroup (RPlus word)) _) in H0.
  let t := eval cbv -[tail] in (literal "FUNCTION:" tail) in
  change (literal "FUNCTION:" tail) with t in H0.
  change (rmatch (RSeq RBegin ?x) 0 s [] k0) with (rmatch x 0 s [] k0) in H0.
  repeat (apply char_inv in H0; destruct H0 as (? & -> & H0)).
  subst tail.
  cbn [rmatch List.length app] in H0.
  apply plus_loop_inv in H0. destruct H0 as (n & rest & -> & Hn & Hw & H0).
  destruct rest as [|c a]; [discriminate|].
  destruct (58 =? c)%N eqn:Ec; [|discriminate].
  apply N.eqb_eq in Ec. subst c.
  apply plus_loop_inv in H0. destruct H0 as (a' & rest & -> & Ha & Hd & H0).
  destruct rest; [|discriminate].
  subst k0. cbv beta in H0. rewrite app_nil_r in H0 |- *.
  exists n, a'.
  repeat split; try assumption.
  match type of H0 with Some ?x = Some _ => assert (Hm : x = m) by congruence end.
  rewrite <- Hm. clear H0 Hm. cbn [set_nth List.length app].
  f_equal; [|f_equal; [|f_equal]].
  - apply firstn_all2. simpl. rewrite length_app. simpl. lia.
  - match goal with |- firstn ?k _ = _ =>
      replace k with (List.length n) by (simpl; lia) end.
    apply firstn_exact.
  - apply firstn_all2. simpl. lia.
Qed.

(** The text of a call survives the outer [trim]. *)
Lemma trim_call_text (n a : jsstring) :
  a <> [] -> trimEnd a = a ->
  trim (str "FUNCTION:" ++ n ++ str ":" ++ a) = str "FUNCTION:" ++ n ++ str ":" ++ a.
Proof.
  intros Ha Ht.
  assert (E : str "FUNCTION:" ++ n ++ str ":" ++ a
              = (70%N :: ([85; 78; 67; 84; 73; 79; 78; 58]%N ++ n ++ [58%N])) ++ a).
  { simpl. rewrite <- app_assoc. reflexivity. }
  rewrite E. apply trim_call; [reflexivity | assumption | assumption].
Qed.

Lemma trimStart_skip (pre s : jsstring) :
  forallb is_whitespace pre = true -> trimStart (pre ++ s) = trimStart s.
Proof.
  induction pre as [|c pre IH]; simpl; [reflexivity|].
  intros H. apply andb_true_iff in H as [Hc H]. rewrite Hc. apply IH, H.
Qed.

Lemma forallb_rev (A : Type) (f : A -> bool) (l : list A) :
  forallb f l = true -> forallb f (rev l) = true.
Proof.
  rewrite !forallb_forall. intros H x Hx. apply H, in_rev, Hx.
Qed.

Lemma trimEnd_skip (s post : jsstring) :
  forallb is_whitespace post = true -> trimEnd (s ++ post) = trimEnd s.
Proof.
  intros H. unfold trimEnd. rewrite rev_app_distr.
  rewrite trimStart_skip by (apply forallb_rev, H). reflexivity.
Qed.

(** Whitespace around a call text is removed by the outer [trim], and the
    call text itself is left as it is. *)
Lemma trim_padded_call (pre post n a : jsstring) :
  forallb is_whitespace pre = true -> forallb is_whitespace post = true ->
  a <> [] -> trimEnd a = a ->
  trim (pre ++ (str "FUNCTION:" ++ n ++ str ":" ++ a) ++ post)
  = str "FUNCTION:" ++ n ++ str ":" ++ a.
Proof.
  intros Hpre Hpost Ha Ht.
  rewrite <- (trim_call_text n a Ha Ht) at 2.
  unfold trim. rewrite trimStart_skip by exact Hpre.
  change (str "FUNCTION:" ++ n ++ str ":" ++ a)
    with ((70%N :: [85; 78; 67; 84; 73; 79; 78; 58]%N ++ n ++ str ":" ++ a)).
  rewrite !trimStart_app by reflexivity.
  apply trimEnd_skip. exact Hpost.
Qed.

End RegexFacts.

(* ===================================================================== *)
(** ** Detection *)
(* ===================================================================== *)

Module DetectionSpec.

Import StringFacts RegexFacts.

(** The built-in registry has [showAlert], whose parser trims. *)
Lemma showAlert_registered (config : Enhanced.Config) :
  Enhanced.get (Enhanced.new_FunctionRegistry config) (str "showAlert")
  = Some {| Enhanced.type := str "browser"; Enhanced.name := str "showAlert";
            Enhanced.handler :=
              fun payload => ret (Enhanced.browserResult "alert" "message" payload);
            Enhanced.parseArgs := Some Enhanced.trimArgs;
            Enhanced.description := Some (str "Show an alert dialog in the browser") |}.
Proof. reflexivity. Qed.

(** C1 as stated fails: with the registered name [showAlert], an empty
    argument string (which has no whitespace at either end, and which the
    parser accepts) is not detected, and neither is one that spans two
    lines. *)
Lemma C1_counterexample_empty_and_multiline :
  trim (str "") = str ""
  /\ Enhanced.trimArgs (VStr (str "")) = Ok (VStr (str ""))
  /\ Enhanced.detectFunctionCall (Enhanced.new_LLMFramework Examples.enhancedDefaults)
       (VStr (str "FUNCTION:" ++ str "showAlert" ++ str ":" ++ str ""))
     = Ok None
  /\ Framework.detectFunctionCall Examples.frameworkDefaults
       (VStr (str "FUNCTION:" ++ str "showAlert" ++ str ":" ++ str ""))
     = Ok None
  /\ trim (str "a" ++ nl ++ str "b") = str "a" ++ nl ++ str "b"
  /\ Enhanced.detectFunctionCall (Enhanced.new_LLMFramework Examples.enhancedDefaults)
       (VStr (str "FUNCTION:" ++ str "showAlert" ++ str ":" ++ str "a" ++ nl ++ str "b"))
     = Ok None.
Proof. repeat split; vm_compute; reflexivity. Qed.

(** C1 (amended): for a registered name [n] of word characters and an
    argument string [a] that is not empty, holds no line terminator and
    does not end in whitespace, [detectFunctionCall] on
    ["FUNCTION:" + n + ":" + a], with any whitespace around it, hands [a]
    verbatim to the parser registered for [n] and, when the parser returns
    [v], yields the call [(n, v)]. Both frameworks. *)
Theorem C1_detect_well_formed_call :
  (forall (this : Enhanced.LLMFramework) (pre post n a : jsstring)
          (func : Enhanced.FunctionDef) (v : value),
      Enhanced.functionPattern (Enhanced.this_config this) = defaultFunctionPattern ->
      Enhanced.get (Enhanced.functionRegistry this) n = Some func ->
      n <> [] -> forallb word n = true ->
      a <> [] -> forallb dot a = true -> trimEnd a = a ->
      forallb is_whitespace pre = true -> forallb is_whitespace post = true ->
      Enhanced.callParseArgs func (VStr a) = Ok v ->
      Enhanced.detectFunctionCall this
        (VStr (pre ++ (str "FUNCTION:" ++ n ++ str ":" ++ a) ++ post))
      = Ok (Some {| Enhanced.function := n; Enhanced.args := v |}))
  /\
  (forall (config : Framework.Config) (pre post n a : jsstring)
          (funcDef : Framework.FunctionDef) (v : value),
      Framework.functionPattern config = defaultFunctionPattern ->
      Map_get n (Framework.functions config) = Some funcDef ->
      n <> [] -> forallb word n = true ->
      a <> [] -> forallb dot a = true -> trimEnd a = a ->
      forallb is_whitespace pre = true -> forallb is_whitespace post = true ->
      Framework.parseArgs funcDef (VStr a) = Ok v ->
      Framework.detectFunctionCall config
        (VStr (pre ++ (str "FUNCTION:" ++ n ++ str ":" ++ a) ++ post))
      = Ok (Some {| Framework.function := VStr n; Framework.args := v |})).
Proof.
  split.
  - intros this pre post n a func v Hpat Hget Hn Hw Ha Hd Ht Hpre Hpost Hparse.
    unfold Enhanced.detectFunctionCall.
    rewrite trim_padded_call, Hpat, match_call by assumption.
    simpl. rewrite Hget, Hparse. reflexivity.
  - intros config pre post n a funcDef v Hpat Hget Hn Hw Ha Hd Ht Hpre Hpost Hparse.
    unfold Framework.detectFunctionCall.
    assert (Htruthy : truthy (VStr (pre ++ (str "FUNCTION:" ++ n ++ str ":" ++ a) ++ post))
                      = true).
    { destruct pre; reflexivity. }
    rewrite Htruthy. cbn [negb].
    rewrite trim_padded_call, Hpat, match_call by assumption.
    simpl. unfold Framework.functionsAt. rewrite Hget, Hparse. reflexivity.
Qed.

(** C1 at [FUNCTION:showAlert:Build complete] between two spaces and a
    newline, in both frameworks. *)
Lemma C1_witness_showAlert :
  Enhanced.detectFunctionCall (Enhanced.new_LLMFramework Examples.enhancedDefaults)
    (VStr (str "  " ++ (str "FUNCTION:" ++ str "showAlert" ++ str ":"
                         ++ str "Build complete") ++ nl))
  = Ok (Some {| Enhanced.function := str "showAlert";
                Enhanced.args := VStr (str "Build complete") |})
  /\
  Framework.detectFunctionCall Examples.frameworkDefaults
    (VStr (str "  " ++ (str "FUNCTION:" ++ str "showAlert" ++ str ":"
                         ++ str "Build complete") ++ nl))
  = Ok (Some {| Framework.function := VStr (str "showAlert");
                Framework.args := VStr (str "Build complete") |}).
Proof.
  split.
  - eapply (proj1 C1_detect_well_formed_call);
      try reflexivity; try discriminate.
  - eapply (proj2 C1_detect_well_formed_call);
      try reflexivity; try discriminate.
Defined.

(** C2: when the pattern matches but the captured name is not registered,
    or its parser throws on the captured arguments, [detectFunctionCall]
    returns [null] and throws nothing; the v2 route then takes the
    plain-text branch and streams the model's reply. Both frameworks. *)
Theorem C2_detect_degrades_silently :
  (forall (this : Enhanced.LLMFramework) (text : jsstring) (match_ : list jsstring),
      String_match (trim text) (Enhanced.functionPattern (Enhanced.this_config this))
      = Some match_ ->
      (forall funcName, nth_error match_ 1 = Some funcName ->
         Enhanced.get (Enhanced.functionRegistry this) funcName = None
         \/ exists func e,
              Enhanced.get (Enhanced.functionRegistry this) funcName = Some func
              /\ Enhanced.callParseArgs func (capture match_ 2) = Throw e) ->
      Enhanced.detectFunctionCall this (VStr text) = Ok None
      /\ forall env enhanced,
           Enhanced.chatStream env this enhanced (VStr text)
           = tryCatch (Enhanced.streamLLMResponse env this
                         (Enhanced.fullPrompt enhanced (VStr text)))
                      Enhanced.sendError)
  /\
  (forall (config : Framework.Config) (text : jsstring) (match_ : list jsstring),
      String_match (trim text) (Framework.functionPattern config) = Some match_ ->
      (Map_get (toString (capture match_ 1)) (Framework.functions config) = None
       \/ exists funcDef e,
            Map_get (toString (capture match_ 1)) (Framework.functions config)
            = Some funcDef
            /\ Framework.parseArgs funcDef (capture match_ 2) = Throw e) ->
      Framework.detectFunctionCall config (VStr text) = Ok None).
Proof.
  split.
  - intros this text match_ Hm Hcase.
    assert (Hd : Enhanced.detectFunctionCall this (VStr text) = Ok None).
    { unfold Enhanced.detectFunctionCall. rewrite Hm.
      destruct (nth_error match_ 1) as [funcName|] eqn:E1; [|reflexivity].
      destruct (Hcase funcName eq_refl) as [Hnone | (func & e & Hsome & Hthrow)].
      - rewrite Hnone. reflexivity.
      - rewrite Hsome. unfold capture in Hthrow. rewrite Hthrow. reflexivity. }
    split; [exact Hd|].
    intros env enhanced. unfold Enhanced.chatStream. rewrite Hd. reflexivity.
  - intros config text match_ Hm Hcase.
    unfold Framework.detectFunctionCall.
    destruct (negb (truthy (VStr text))); [reflexivity|].
    rewrite Hm. fold (capture match_ 1). fold (capture match_ 2).
    unfold Framework.functionsAt.
    destruct Hcase as [Hnone | (funcDef & e & Hsome & Hthrow)].
    + rewrite Hnone.
      destruct (existsb _ Framework.objectPrototype); reflexivity.
    + rewrite Hsome, Hthrow. reflexivity.
Qed.

(** C2 at [FUNCTION:launchRockets:now] (nothing of that name) and at
    [FUNCTION:lookup:hello] (a parser that throws), in both frameworks. *)
Lemma C2_witness_unknown_and_malformed :
  (Enhanced.detectFunctionCall (Enhanced.new_LLMFramework Examples.enhancedDefaults)
     (VStr (str "FUNCTION:launchRockets:now")) = Ok None
   /\ Enhanced.detectFunctionCall Examples.withLookup
        (VStr (str "FUNCTION:lookup:hello")) = Ok None)
  /\
  (Framework.detectFunctionCall Examples.frameworkDefaults
     (VStr (str "FUNCTION:launchRockets:now")) = Ok None
   /\ Framework.detectFunctionCall Examples.frameworkWithLookup
        (VStr (str "FUNCTION:lookup:hello")) = Ok None).
Proof.
  split; split.
  - eapply (proj1 C2_detect_degrades_silently); [vm_compute; reflexivity|].
    intros funcName E. left. vm_compute in E. inversion E. reflexivity.
  - eapply (proj1 C2_detect_degrades_silently); [vm_compute; reflexivity|].
    intros funcName E. right. vm_compute in E. inversion E.
    eexists. eexists. split; reflexivity.
  - eapply (proj2 C2_detect_degrades_silently); [vm_compute; reflexivity|].
    left. reflexivity.
  - eapply (proj2 C2_detect_degrades_silently); [vm_compute; reflexivity|].
    right. eexists. eexists. split; reflexivity.
Defined.

(** A name that plain objects inherit is looked up successfully in v1, has
    no parser, and is discarded all the same. *)
Lemma inherited_name_not_detected :
  Framework.functionsAt Examples.frameworkDefaults (str "constructor")
  = Framework.Inherited
  /\ Framework.detectFunctionCall Examples.frameworkDefaults
       (VStr (str "FUNCTION:constructor:x")) = Ok None.
Proof. split; vm_compute; reflexivity. Qed.

(** Detection is sound: under the default pattern a call is detected only
    when the trimmed text is, as a whole, [FUNCTION:<name>:<arguments>] with
    a registered name, and the detected arguments are what that function's
    parser made of the argument text. *)
Theorem detect_only_complete_calls :
  (forall (this : Enhanced.LLMFramework) (text : jsstring) (call : Enhanced.DetectedCall),
      Enhanced.functionPattern (Enhanced.this_config this) = defaultFunctionPattern ->
      Enhanced.detectFunctionCall this (VStr text) = Ok (Some call) ->
      exists a func,
        trim text = str "FUNCTION:" ++ Enhanced.function call ++ str ":" ++ a
        /\ Enhanced.get (Enhanced.functionRegistry this) (Enhanced.function call)
           = Some func
        /\ Enhanced.callParseArgs func (VStr a) = Ok (Enhanced.args call)
        /\ forallb word (Enhanced.function call) = true
        /\ a <> [] /\ forallb dot a = true)
  /\
  (forall (config : Framework.Config) (text : jsstring) (call : Framework.DetectedCall),
      Framework.functionPattern config = defaultFunctionPattern ->
      Framework.detectFunctionCall config (VStr text) = Ok (Some call) ->
      exists n a funcDef,
        trim text = str "FUNCTION:" ++ n ++ str ":" ++ a
        /\ Framework.function call = VStr n
        /\ Map_get n (Framework.functions config) = Some funcDef
        /\ Framework.parseArgs funcDef (VStr a) = Ok (Framework.args call)
        /\ forallb word n = true
        /\ a <> [] /\ forallb dot a = true).
Proof.
  split.
  - intros this text call Hpat H.
    unfold Enhanced.detectFunctionCall in H. rewrite Hpat in H.
    destruct (String_match (trim text) defaultFunctionPattern) as [m|] eqn:Hm;
      [|discriminate].
    apply match_shape in Hm.
    destruct Hm as (n & a & Htext & -> & Hn & Hw & Ha & Hd).
    cbn [nth_error] in H.
    destruct (Enhanced.get (Enhanced.functionRegistry this) n) as [func|] eqn:Hget;
      [|discriminate].
    destruct (Enhanced.callParseArgs func (VStr a)) as [v|e] eqn:Hparse;
      [|discriminate].
    injection H as <-. exists a, func. simpl. auto 10.
  - intros config text call Hpat H.
    unfold Framework.detectFunctionCall in H.
    destruct (negb (truthy (VStr text))); [discriminate|].
    rewrite Hpat in H.
    destruct (String_match (trim text) defaultFunctionPattern) as [m|] eqn:Hm;
      [|discriminate].
    apply match_shape in Hm.
    destruct Hm as (n & a & Htext & -> & Hn & Hw & Ha & Hd).
    cbn [nth_error toString] in H. unfold Framework.functionsAt in H.
    destruct (Map_get n (Framework.functions config)) as [funcDef|] eqn:Hget.
    + destruct (Framework.parseArgs funcDef (VStr a)) as [v|e] eqn:Hparse;
        [|discriminate].
      injection H as <-. exists n, a, funcDef. simpl. auto 10.
    + destruct (existsb (jsstring_eqb n) Framework.objectPrototype); discriminate.
Qed.

(** [detect_only_complete_calls] at the alert of scenario 2. *)
Lemma detect_only_complete_calls_witness :
  exists a func,
    trim (str "  FUNCTION:showAlert:Build complete ")
    = str "FUNCTION:" ++ str "showAlert" ++ str ":" ++ a
    /\ Enhanced.get (Enhanced.new_FunctionRegistry Examples.enhancedDefaults)
         (str "showAlert") = Some func
    /\ Enhanced.callParseArgs func (VStr a) = Ok (VStr (str "Build complete"))
    /\ forallb word (str "showAlert") = true
    /\ a <> [] /\ forallb dot a = true.
Proof.
  apply (proj1 detect_only_complete_calls
           (Enhanced.new_LLMFramework Examples.enhancedDefaults)
           (str "  FUNCTION:showAlert:Build complete ")
           {| Enhanced.function := str "showAlert";
              Enhanced.args := VStr (str "Build complete") |});
    vm_compute; reflexivity.
Defined.

(** A text that is not, once trimmed, a complete call is never detected:
    the pattern is anchored at both ends. *)
Theorem no_call_no_detection :
  forall (text : jsstring),
    (forall n a, trim text <> str "FUNCTION:" ++ n ++ str ":" ++ a) ->
    (forall this : Enhanced.LLMFramework,
        Enhanced.functionPattern (Enhanced.this_config this) = defaultFunctionPattern ->
        Enhanced.detectFunctionCall this (VStr text) = Ok None)
    /\
    (forall config : Framework.Config,
        Framework.functionPattern config = defaultFunctionPattern ->
        Framework.detectFunctionCall config (VStr text) = Ok None).
Proof.
  intros text Hshape.
  assert (Hm : String_match (trim text) defaultFunctionPattern = None).
  { destruct (String_match (trim text) defaultFunctionPattern) as [m|] eqn:Hm;
      [|reflexivity].
    apply match_shape in Hm. destruct Hm as (n & a & Htext & _).
    exfalso. exact (Hshape n a Htext). }
  split.
  - intros this Hpat. unfold Enhanced.detectFunctionCall. rewrite Hpat, Hm. reflexivity.
  - intros config Hpat. unfold Framework.detectFunctionCall.
    destruct (negb (truthy (VStr text))); [reflexivity|].
    rewrite Hpat, Hm. reflexivity.
Qed.

(** [no_call_no_detection] at [hello]. *)
Lemma no_call_no_detection_witness :
  Enhanced.detectFunctionCall (Enhanced.new_LLMFramework Examples.enhancedDefaults)
    (VStr (str "hello")) = Ok None
  /\ Framework.detectFunctionCall Examples.frameworkDefaults (VStr (str "hello"))
     = Ok None.
Proof.
  assert (H : forall n a, trim (str "hello") <> str "FUNCTION:" ++ n ++ str ":" ++ a).
  { intros n a E. vm_compute in E. discriminate E. }
  split.
  - apply (proj1 (no_call_no_detection (str "hello") H)). reflexivity.
  - apply (proj2 (no_call_no_detection (str "hello") H)). reflexivity.
Defined.

(** A call embedded in a sentence is not detected. *)
Lemma embedded_call_not_detected :
  Enhanced.detectFunctionCall (Enhanced.new_LLMFramework Examples.enhancedDefaults)
    (VStr (str "Sure! FUNCTION:showAlert:Build complete")) = Ok None
  /\ Framework.detectFunctionCall Examples.frameworkDefaults
       (VStr (str "Sure! FUNCTION:showAlert:Build complete")) = Ok None.
Proof. split; vm_compute; reflexivity. Qed.

(** C10: in [framework.js], [detectFunctionCall] returns [null] on
    [undefined], on [null] and on the empty string without throwing, and
    more generally on every falsy argument. *)
Theorem C10_detect_absent_input :
  forall config : Framework.Config,
    Framework.detectFunctionCall config VUndefined = Ok None
    /\ Framework.detectFunctionCall config VNull = Ok None
    /\ Framework.detectFunctionCall config (VStr (str "")) = Ok None
    /\ forall text, truthy text = false ->
         Framework.detectFunctionCall config text = Ok None.
Proof.
  intros config.
  assert (H : forall text, truthy text = false ->
                Framework.detectFunctionCall config text = Ok None).
  { intros text Hf. unfold Framework.detectFunctionCall. rewrite Hf. reflexivity. }
  split; [|split; [|split]]; [apply H .. | exact H]; reflexivity.
Qed.

(** The v2 variant has no such guard: [text.trim()] throws on [null]; the
    route's [catch] turns that into an [error] event. *)
Lemma enhanced_detect_null_throws (this : Enhanced.LLMFramework) :
  Enhanced.detectFunctionCall this VNull
  = Throw (TypeError (str "Cannot read properties of null (reading 'trim')")).
Proof. reflexivity. Qed.

End DetectionSpec.

(* ===================================================================== *)
(** ** The registry *)
(* ===================================================================== *)

Module RegistrySpec.

Import StringFacts.

Lemma register_wf (kind name : jsstring) (definition : Enhanced.Definition_)
      (this : Enhanced.FunctionRegistry) :
  Map_wf (Enhanced.functions this) ->
  Map_wf (Enhanced.functions (Enhanced.register kind name definition this)).
Proof. intros H. unfold Enhanced.register; simpl. apply Map_set_wf; exact H. Qed.

(** The constructor establishes the invariant of the registry's [Map]. *)
Lemma new_FunctionRegistry_wf (config : Enhanced.Config) :
  Map_wf (Enhanced.functions (Enhanced.new_FunctionRegistry config)).
Proof.
  unfold Enhanced.new_FunctionRegistry, Enhanced.registerBuiltInFunctions.
  repeat apply register_wf. constructor.
Qed.

Lemma Map_set_length_present (V : Type) (m : Map V) (k : jsstring) (v v0 : V) :
  Map_get k m = Some v0 -> List.length (Map_set k v m) = List.length m.
Proof.
  induction m as [|[k' v'] m IH]; simpl; [discriminate|].
  destruct (jsstring_eqb k k'); simpl; [reflexivity|].
  intros H. rewrite IH by exact H. reflexivity.
Qed.

(** C7: after [register(kind1, name, def1)] and [register(kind2, name, def2)]
    the registry holds exactly one entry for [name], [get(name)] returns the
    second definition, the second call adds no entry, and the other names
    are as after the first call. *)
Theorem C7_register_last_write_wins :
  forall (this : Enhanced.FunctionRegistry) (kind1 kind2 name : jsstring)
         (def1 def2 : Enhanced.Definition_),
    Map_wf (Enhanced.functions this) ->
    Enhanced.get (Enhanced.register kind2 name def2
                    (Enhanced.register kind1 name def1 this)) name
    = Some {| Enhanced.type := kind2; Enhanced.name := name;
              Enhanced.handler := Enhanced.def_handler def2;
              Enhanced.parseArgs := Enhanced.def_parseArgs def2;
              Enhanced.description := Enhanced.def_description def2 |}
    /\ Map_count name
         (Enhanced.functions (Enhanced.register kind2 name def2
                                (Enhanced.register kind1 name def1 this))) = 1
    /\ List.length
         (Enhanced.functions (Enhanced.register kind2 name def2
                                (Enhanced.register kind1 name def1 this)))
       = List.length (Enhanced.functions (Enhanced.register kind1 name def1 this))
    /\ forall other, other <> name ->
         Enhanced.get (Enhanced.register kind2 name def2
                         (Enhanced.register kind1 name def1 this)) other
         = Enhanced.get (Enhanced.register kind1 name def1 this) other.
Proof.
  intros this kind1 kind2 name def1 def2 Hwf.
  unfold Enhanced.get, Enhanced.register; simpl.
  split; [apply Map_get_set_same|].
  split; [apply Map_count_set, Map_set_wf, Hwf|].
  split.
  - eapply Map_set_length_present. apply Map_get_set_same.
  - intros other Hne. apply Map_get_set_other; exact Hne.
Qed.

(** C7 on the constructor's registry, registering [lookup] twice under
    different kinds. *)
Lemma C7_witness_lookup_twice :
  Enhanced.get
    (Enhanced.register (str "command") (str "lookup") Examples.lookupDefinition
       (Enhanced.register (str "api") (str "lookup") Examples.lookupDefinition
          (Enhanced.new_FunctionRegistry Examples.enhancedDefaults)))
    (str "lookup")
  = Some {| Enhanced.type := str "command"; Enhanced.name := str "lookup";
            Enhanced.handler := Enhanced.def_handler Examples.lookupDefinition;
            Enhanced.parseArgs := Enhanced.def_parseArgs Examples.lookupDefinition;
            Enhanced.description := Enhanced.def_description Examples.lookupDefinition |}.
Proof.
  apply (C7_register_last_write_wins
           (Enhanced.new_FunctionRegistry Examples.enhancedDefaults)
           (str "api") (str "command") (str "lookup")
           Examples.lookupDefinition Examples.lookupDefinition
           (new_FunctionRegistry_wf Examples.enhancedDefaults)).
Defined.

(** Every registry reachable by [register] satisfies the invariant, so C7
    applies to it; in particular overwriting a built-in keeps four entries. *)
Lemma overwrite_builtin_keeps_size :
  List.length (Enhanced.getAll
                 (Enhanced.register (str "api") (str "speak") Examples.lookupDefinition
                    (Enhanced.new_FunctionRegistry Examples.enhancedDefaults))) = 4.
Proof. reflexivity. Qed.

(** C9: each of [showAlert], [openWindow], [showModal] and [speak], in the
    v2 registry and (when browser actions are enabled) in the v1 function
    table, accepts every raw string, and its handler returns, for every
    string and in every world, a success result tagged with its action and
    carrying that string as its only payload, leaving the world as it was. *)
Theorem C9_browser_handlers_pass_through :
  forall (s : jsstring) (w : World),
    (forall config : Enhanced.Config,
        Forall (fun b =>
                  let '(name, action, key) := b in
                  exists def,
                    Enhanced.get (Enhanced.new_FunctionRegistry config) (str name) = Some def
                    /\ Enhanced.callParseArgs def (VStr s) = Ok (VStr (trim s))
                    /\ Enhanced.handler def (VStr s) w
                       = (Ok (browserSuccess action key s), w))
               builtins)
    /\
    (forall config : Framework.Config,
        Framework.browserActions (Framework.app config) = true ->
        Forall (fun b =>
                  let '(name, action, key) := b in
                  exists def,
                    Framework.functionsAt (Framework.validateConfiguration config) (str name)
                    = Framework.Own def
                    /\ Framework.parseArgs def (VStr s) = Ok (VStr (trim s))
                    /\ Framework.handler def (VStr s) w
                       = (Ok (browserSuccess action key s), w))
               builtins).
Proof.
  intros s w. split.
  - intros config. unfold builtins.
    repeat (constructor; [eexists; split; [reflexivity | split; reflexivity]|]).
    constructor.
  - intros config Hb. unfold builtins, Framework.validateConfiguration.
    rewrite Hb. unfold Framework.functionsAt, Framework.registerBrowserFunctions.
    simpl Framework.functions.
    repeat (constructor;
            [eexists; split;
             [ repeat (rewrite Map_get_set_other by discriminate);
               rewrite Map_get_set_same; reflexivity
             | split; reflexivity ] |]).
    constructor.
Qed.

End RegistrySpec.

(* ===================================================================== *)
(** ** The executors *)
(* ===================================================================== *)

Module ExecutorSpec.

Import StringFacts.

(** [execute] of the function registered under [name]: the handler found
    by [get] after the registration. *)
Lemma registerCommand_handler (env : Environment) (name : jsstring)
      (cfg : Enhanced.CommandConfig) (this : Enhanced.FunctionRegistry) :
  exists def,
    Enhanced.get (Enhanced.registerCommand env name cfg this) name = Some def
    /\ Enhanced.handler def = Enhanced.commandHandler env (Enhanced.config this) cfg.
Proof.
  eexists. split.
  - unfold Enhanced.get, Enhanced.registerCommand, Enhanced.register; simpl.
    apply Map_get_set_same.
  - reflexivity.
Qed.

Lemma registerAPI_handler (env : Environment) (name : jsstring)
      (cfg : Enhanced.APIConfig) (this : Enhanced.FunctionRegistry) :
  exists def,
    Enhanced.get (Enhanced.registerAPI env name cfg this) name = Some def
    /\ Enhanced.handler def = Enhanced.apiHandler env cfg.
Proof.
  eexists. split.
  - unfold Enhanced.get, Enhanced.registerAPI, Enhanced.register; simpl.
    apply Map_get_set_same.
  - reflexivity.
Qed.

(** C4: with the [allowCommands] flag off (or no [security] section at
    all), the handler of every registered command function returns, for
    every argument and whatever its allow-list, the failure carrying
    "Command execution is disabled for security", and the world is left
    untouched: nothing is spawned. *)
Theorem C4_commands_disabled :
  forall (env : Environment) (this : Enhanced.FunctionRegistry) (name : jsstring)
         (cfg : Enhanced.CommandConfig) (args : value) (w : World),
    Enhanced.security_allowCommands (Enhanced.config this) = false ->
    exists def,
      Enhanced.get (Enhanced.registerCommand env name cfg this) name = Some def
      /\ Enhanced.handler def args w
         = (Ok (Enhanced.failure (str "Command execution is disabled for security")
                  [(str "command", commandLabel cfg)]), w).
Proof.
  intros env this name cfg args w Hoff.
  destruct (registerCommand_handler env name cfg this) as (def & Hget & Hh).
  exists def. split; [exact Hget|].
  rewrite Hh. unfold Enhanced.commandHandler, tryCatch, bind, when.
  rewrite Hoff. reflexivity.
Qed.

(** C4 on the default configuration, for [pingHost localhost], which its
    allow-list would admit. *)
Lemma C4_witness_ping_disabled :
  exists def,
    Enhanced.get (Enhanced.registerCommand Examples.offline (str "pingHost")
                    Examples.pingHost
                    (Enhanced.new_FunctionRegistry Examples.enhancedDefaults))
                 (str "pingHost") = Some def
    /\ Enhanced.handler def (VStr (str "localhost")) initialWorld
       = (Ok (Enhanced.failure (str "Command execution is disabled for security")
                [(str "command", VStr (str "dynamic"))]), initialWorld).
Proof.
  apply (C4_commands_disabled Examples.offline
           (Enhanced.new_FunctionRegistry Examples.enhancedDefaults)
           (str "pingHost") Examples.pingHost (VStr (str "localhost")) initialWorld).
  reflexivity.
Defined.

(** C5: when an allow-list is configured and the command computed from the
    arguments starts with none of its prefixes, the handler returns a
    failure and leaves the world untouched (no process is spawned: the
    spawn log is unchanged); behind the open security gate, which is where
    a command is computed, the error reads "Command not allowed: <command>",
    and behind the closed gate it is that of C4. *)
Theorem C5_command_outside_allow_list :
  forall (env : Environment) (this : Enhanced.FunctionRegistry) (name : jsstring)
         (cfg : Enhanced.CommandConfig) (args : value) (w : World)
         (allowed : list jsstring) (command : jsstring),
    Enhanced.cmd_allowedCommands cfg = Some allowed ->
    Enhanced.computeCommand cfg args = Ok command ->
    Forall (fun prefix => startsWith command prefix = false) allowed ->
    exists def result,
      Enhanced.get (Enhanced.registerCommand env name cfg this) name = Some def
      /\ Enhanced.handler def args w = (Ok result, w)
      /\ spawned (snd (Enhanced.handler def args w)) = spawned w
      /\ getProp result "success" = Ok (VBool false)
      /\ getProp result "error"
         = Ok (VStr (if Enhanced.security_allowCommands (Enhanced.config this)
                     then str "Command not allowed: " ++ command
                     else str "Command execution is disabled for security")).
Proof.
  intros env this name cfg args w allowed command Hlist Hcmd Hnone.
  destruct (registerCommand_handler env name cfg this) as (def & Hget & Hh).
  assert (Hna : Enhanced.notAllowed cfg command = true).
  { unfold Enhanced.notAllowed. rewrite Hlist.
    apply negb_true_iff. clear - Hnone.
    induction Hnone as [|p l Hp _ IH]; simpl; [reflexivity|].
    rewrite Hp, IH. reflexivity. }
  exists def.
  destruct (Enhanced.security_allowCommands (Enhanced.config this)) eqn:Hgate.
  - eexists. rewrite Hh.
    unfold Enhanced.commandHandler, tryCatch, bind, when, lift.
    rewrite Hgate, Hcmd. simpl. rewrite Hna. simpl.
    repeat split; try reflexivity. exact Hget.
  - eexists. rewrite Hh.
    unfold Enhanced.commandHandler, tryCatch, bind, when, lift.
    rewrite Hgate. simpl.
    repeat split; try reflexivity. exact Hget.
Qed.

(** C5 on scenario 4: allow-list [["ping"]], command [rm -rf /], commands
    enabled. *)
Lemma C5_witness_rm_rejected :
  exists def result,
    Enhanced.get (Enhanced.registerCommand Examples.offline (str "cleanup")
                    Examples.cleanup
                    (Enhanced.new_FunctionRegistry Examples.commandsEnabled))
                 (str "cleanup") = Some def
    /\ Enhanced.handler def (VStr (str "now")) initialWorld = (Ok result, initialWorld)
    /\ spawned (snd (Enhanced.handler def (VStr (str "now")) initialWorld)) = []
    /\ getProp result "success" = Ok (VBool false)
    /\ getProp result "error" = Ok (VStr (str "Command not allowed: rm -rf /")).
Proof.
  apply (C5_command_outside_allow_list Examples.offline
           (Enhanced.new_FunctionRegistry Examples.commandsEnabled)
           (str "cleanup") Examples.cleanup (VStr (str "now")) initialWorld
           [str "ping"] (str "rm -rf /")).
  - reflexivity.
  - reflexivity.
  - repeat constructor.
Defined.

(** An allowed command does reach the shell: the spawn log grows by one. *)
Lemma allowed_command_is_spawned :
  spawned (snd (Enhanced.commandHandler Examples.offline Examples.commandsEnabled
                  Examples.pingHost (VStr (str "localhost")) initialWorld))
  = [(str "ping -c 4 localhost", {| timeout := 5000; maxBuffer := 1048576 |})].
Proof. reflexivity. Qed.

(** Whatever happens, a command handler resolves: it never rejects. *)
Lemma commandHandler_never_throws (env : Environment) (rconfig : Enhanced.Config)
      (cfg : Enhanced.CommandConfig) (args : value) (w : World) :
  exists result, fst (Enhanced.commandHandler env rconfig cfg args w) = Ok result.
Proof.
  unfold Enhanced.commandHandler, tryCatch.
  match goal with |- context [match ?m w with _ => _ end] => destruct (m w) as [[v|e] w'] end;
    eexists; reflexivity.
Qed.

(** C6 as stated fails: a response whose body is not JSON but whose status
    is 500 yields the HTTP error, not "Invalid response format". *)
Lemma C6_counterexample_http_500 :
  JSON_parse (Examples.mislabelled false 500 "Internal Server Error")
    (str "<html>Service page</html>") = None
  /\ fst (Enhanced.apiHandler (Examples.mislabelled false 500 "Internal Server Error")
            Examples.searchMusic (VStr (str "Beatles")) initialWorld)
     = Ok (Enhanced.failure (str "HTTP 500: Internal Server Error") []).
Proof. split; vm_compute; reflexivity. Qed.

(** C6 (amended): for every API function, when the request could be built
    and was answered, a response whose body text is not valid JSON never
    makes the handler throw. If the response is successful (2xx), whatever
    its headers say, the handler returns
    [{success: false, error: "Invalid response format"}]; if it is not, the
    body is not read and the handler returns the failure carrying
    [HTTP <status>: <statusText>]. *)
Theorem C6_invalid_response_format :
  forall (env : Environment) (this : Enhanced.FunctionRegistry) (name : jsstring)
         (cfg : Enhanced.APIConfig) (args : value) (w : World),
  exists def,
    Enhanced.get (Enhanced.registerAPI env name cfg this) name = Some def
    /\ (forall (url : jsstring) (options : FetchOptions) (response : Response)
               (body_text : jsstring),
          Enhanced.resolveEndpoint cfg args = Ok url ->
          Enhanced.apiOptions env cfg args = Ok options ->
          fetch_outcome env w url options = Ok response ->
          ok response = true ->
          text response = Ok body_text ->
          JSON_parse env body_text = None ->
          fst (Enhanced.handler def args w)
          = Ok (Enhanced.failure (str "Invalid response format") []))
    /\ (forall (url : jsstring) (options : FetchOptions) (response : Response),
          Enhanced.resolveEndpoint cfg args = Ok url ->
          Enhanced.apiOptions env cfg args = Ok options ->
          fetch_outcome env w url options = Ok response ->
          ok response = false ->
          fst (Enhanced.handler def args w)
          = Ok (Enhanced.failure
                  (str "HTTP " ++ N_to_jsstring (Host.status response)
                     ++ str ": " ++ statusText response) [])).
Proof.
  intros env this name cfg args w.
  destruct (registerAPI_handler env name cfg this) as (def & Hget & Hh).
  exists def. split; [exact Hget|]. rewrite Hh. split.
  - intros url options response body_text Hurl Hopt Hfetch Hok Htext Hparse.
    unfold Enhanced.apiHandler, tryCatch, bind, when, lift, fetch.
    rewrite Hurl, Hopt, Hfetch, Hok. simpl. rewrite Htext, Hparse. reflexivity.
  - intros url options response Hurl Hopt Hfetch Hok.
    unfold Enhanced.apiHandler, tryCatch, bind, when, lift, fetch.
    rewrite Hurl, Hopt, Hfetch, Hok. reflexivity.
Qed.

(** C6 on a 200 response carrying an HTML page under
    [Content-Type: application/json]. *)
Lemma C6_witness_html_as_json :
  exists def,
    Enhanced.get (Enhanced.registerAPI (Examples.mislabelled true 200 "OK")
                    (str "searchMusic") Examples.searchMusic
                    (Enhanced.new_FunctionRegistry Examples.enhancedDefaults))
                 (str "searchMusic") = Some def
    /\ fst (Enhanced.handler def (VStr (str "Beatles")) initialWorld)
       = Ok (Enhanced.failure (str "Invalid response format") []).
Proof.
  destruct (C6_invalid_response_format (Examples.mislabelled true 200 "OK")
              (Enhanced.new_FunctionRegistry Examples.enhancedDefaults)
              (str "searchMusic") Examples.searchMusic (VStr (str "Beatles"))
              initialWorld) as (def & Hget & H & _).
  exists def. split; [exact Hget|].
  eapply H; reflexivity.
Defined.

End ExecutorSpec.

(* ===================================================================== *)
(** ** End to end: a browser action through the chat route *)
(* ===================================================================== *)

Module RouteSpec.

Import StringFacts.

Lemma match_build_complete :
  String_match (trim (str "FUNCTION:showAlert:Build complete")) defaultFunctionPattern
  = Some [ str "FUNCTION:showAlert:Build complete"; str "showAlert";
           str "Build complete" ].
Proof. vm_compute. reflexivity. Qed.

(** C8: in a v2 framework with the default pattern whose [showAlert] is the
    built-in one, the chat route on the message
    [FUNCTION:showAlert:Build complete] writes exactly the events status
    "Processing your request...", browser_action alert with data
    [{message: "Build complete"}], token [Alert displayed: "Build complete"]
    and done, ends the response, refuses nothing, calls neither the model
    nor any process, and returns normally. *)
Theorem C8_showAlert_event_sequence :
  forall (env : Environment) (this : Enhanced.LLMFramework) (enhanced : jsstring)
         (w : World),
    Enhanced.functionPattern (Enhanced.this_config this) = defaultFunctionPattern ->
    Enhanced.get (Enhanced.functionRegistry this) (str "showAlert")
    = Enhanced.get (Enhanced.new_FunctionRegistry (Enhanced.this_config this))
        (str "showAlert") ->
    Enhanced.chatStream env this enhanced
      (VStr (str "FUNCTION:showAlert:Build complete")) (SSE.openRes, w)
    = (Ok tt, ({| SSE.sent := alertEvents; SSE.writableEnded := true;
                  SSE.refused := [] |}, w)).
Proof.
  intros env this enhanced w Hpat Hget.
  unfold Enhanced.chatStream, Enhanced.detectFunctionCall.
  rewrite Hpat, match_build_complete.
  cbn [nth_error]. rewrite Hget, DetectionSpec.showAlert_registered.
  unfold tryCatch, bind, lift, Enhanced.relayCall. simpl.
  rewrite Hget, DetectionSpec.showAlert_registered.
  reflexivity.
Qed.

(** C8 on a freshly constructed framework with the default configuration. *)
Lemma C8_witness_fresh_framework :
  Enhanced.chatStream Examples.offline
    (Enhanced.new_LLMFramework Examples.enhancedDefaults)
    (Enhanced.systemPrompt Examples.enhancedDefaults)
    (VStr (str "FUNCTION:showAlert:Build complete")) (SSE.openRes, initialWorld)
  = (Ok tt, ({| SSE.sent := alertEvents; SSE.writableEnded := true;
                SSE.refused := [] |}, initialWorld)).
Proof.
  apply (C8_showAlert_event_sequence Examples.offline
           (Enhanced.new_LLMFramework Examples.enhancedDefaults)); reflexivity.
Defined.

(** Scenario 1: [hello] matches no function; the model streams "Hi" and
    " there", and the route relays two tokens and [done]. *)
Lemma hello_event_sequence :
  fst (snd (Enhanced.chatStream Examples.ollama
              (Enhanced.new_LLMFramework Examples.enhancedDefaults)
              (Enhanced.systemPrompt Examples.enhancedDefaults)
              (VStr (str "hello")) (SSE.openRes, initialWorld)))
  = {| SSE.sent := [ SSE.token (VStr (str "Hi")); SSE.token (VStr (str " there"));
                     SSE.done ];
       SSE.writableEnded := true;
       SSE.refused := [] |}.
Proof. vm_compute. reflexivity. Qed.

(** In v1 the message goes to the model first and detection reads the
    model's reply: when that reply is the call text, the route relays the
    same four events. *)
Lemma v1_showAlert_reply_events :
  forall (env : Environment) (config : Framework.Config) (message : value) (w : World)
         (initialResponse : Response) (body_text : jsstring) (initialData : value),
    Framework.functionPattern config = defaultFunctionPattern ->
    Framework.browserActions (Framework.app config) = true ->
    (forall url options, fetch_outcome env w url options = Ok initialResponse) ->
    ok initialResponse = true ->
    text initialResponse = Ok body_text ->
    JSON_parse env body_text = Some initialData ->
    getProp initialData "response" = Ok (VStr (str "FUNCTION:showAlert:Build complete")) ->
    fst (snd (Framework.streamRoute env (Framework.validateConfiguration config)
                message (SSE.openRes, w)))
    = {| SSE.sent := alertEvents; SSE.writableEnded := true; SSE.refused := [] |}.
Proof.
  intros env config message w initialResponse body_text initialData
         Hpat Hb Hfetch Hok Htext Hparse Hresp.
  unfold Framework.streamRoute, Framework.generate, tryCatch, bind, when, lift,
    SSE.inWorld, fetch, Framework.json, andThen.
  cbn [fst snd]. rewrite Hfetch, Hok. cbn [negb]. cbv beta iota.
  rewrite Htext, Hparse, Hresp.
  unfold Framework.detectFunctionCall.
  change (truthy (VStr (str "FUNCTION:showAlert:Build complete"))) with true.
  cbn [negb]. cbv iota.
  unfold Framework.validateConfiguration. rewrite Hb.
  change (Framework.functionPattern (Framework.registerBrowserFunctions config))
    with (Framework.functionPattern config).
  rewrite Hpat, match_build_complete. cbn [nth_error toString].
  assert (Hf : Framework.functionsAt (Framework.registerBrowserFunctions config)
                 (str "showAlert")
               = Framework.Own (Framework.browserFunction "alert" "message")).
  { unfold Framework.functionsAt, Framework.registerBrowserFunctions.
    simpl Framework.functions.
    repeat (rewrite Map_get_set_other by discriminate).
    rewrite Map_get_set_same. reflexivity. }
  rewrite Hf. cbv beta iota.
  unfold Framework.parseArgs at 1. unfold Framework.browserFunction at 1.
  cbv beta iota. unfold Framework.trimArgs.
  change (trim (str "Build complete")) with (str "Build complete").
  cbv beta iota.
  unfold Framework.relayResult, Framework.executeFunction, bind, lift, SSE.inWorld, ret.
  cbn [Framework.function Framework.args toString fst snd SSE.resWrite modify].
  rewrite Hf. reflexivity.
Qed.

(** [v1_showAlert_reply_events] with a model that replies with the call. *)
Lemma v1_showAlert_reply_witness :
  fst (snd (Framework.streamRoute Examples.alertingModel Examples.frameworkDefaults
              (VStr (str "tell me when the build is done"))
              (SSE.openRes, initialWorld)))
  = {| SSE.sent := alertEvents; SSE.writableEnded := true; SSE.refused := [] |}.
Proof.
  apply (v1_showAlert_reply_events Examples.alertingModel
           {| Framework.llm := Framework.llm Examples.frameworkDefaults;
              Framework.app := {| Framework.browserActions := true |};
              Framework.systemPrompt := str "You are a helpful assistant.";
              Framework.functionPattern := defaultFunctionPattern;
              Framework.functions := [] |}
           (VStr (str "tell me when the build is done")) initialWorld
           Examples.alertReply
           (Examples.record "FUNCTION:showAlert:Build complete" true)
           (Examples.parsed "FUNCTION:showAlert:Build complete" true));
    reflexivity.
Defined.

End RouteSpec.

(* ===================================================================== *)
(** ** The shape of a connection's log, request by request *)
(* ===================================================================== *)

Module RequestSpec.

Lemma ordered_open : ordered SSE.openRes.
Proof. reflexivity. Qed.

Lemma ordered_write (e : SSE.event) (r : SSE.Res) :
  SSE.terminal e = false -> ordered r -> ordered (SSE.write e r).
Proof.
  unfold ordered, SSE.write. intros He.
  destruct (SSE.writableEnded r); simpl; [auto|].
  intros H. rewrite existsb_app, H. simpl. rewrite He. reflexivity.
Qed.

Lemma ordered_terminate (t : SSE.event) (r : SSE.Res) :
  SSE.terminal t = true -> ordered r -> ordered (SSE.end_ (SSE.write t r)).
Proof.
  unfold ordered, SSE.write, SSE.end_. intros Ht.
  destruct (SSE.writableEnded r); simpl; [auto|].
  intros H. exists (SSE.sent r), t. auto.
Qed.

Lemma ordered_guarded (t : SSE.event) (r : SSE.Res) :
  SSE.terminal t = true -> ordered r ->
  ordered (if SSE.writableEnded r then r else SSE.end_ (SSE.write t r)).
Proof.
  intros Ht H. destruct (SSE.writableEnded r) eqn:E; [exact H|].
  apply ordered_terminate; assumption.
Qed.

Lemma keeps_ret (A : Type) (a : A) : keeps (ret a).
Proof. intros s H. exact H. Qed.

Lemma keeps_throw (A : Type) (e : exn) : keeps (@throw SSE.RS A e).
Proof. intros s H. exact H. Qed.

Lemma keeps_lift (A : Type) (r : result A) : keeps (lift r).
Proof. intros s H. exact H. Qed.

Lemma keeps_bind (A B : Type) (m : ST SSE.RS A) (f : A -> ST SSE.RS B) :
  keeps m -> (forall a, keeps (f a)) -> keeps (bind m f).
Proof.
  intros Hm Hf s H. unfold bind. specialize (Hm s H).
  destruct (m s) as [[a|e] s']; simpl in *; [apply Hf; exact Hm | exact Hm].
Qed.

Lemma keeps_tryCatch (A : Type) (m : ST SSE.RS A) (h : exn -> ST SSE.RS A) :
  keeps m -> (forall e, keeps (h e)) -> keeps (tryCatch m h).
Proof.
  intros Hm Hh s H. unfold tryCatch. specialize (Hm s H).
  destruct (m s) as [[a|e] s']; simpl in *; [exact Hm | apply Hh; exact Hm].
Qed.

Lemma keeps_when (b : bool) (m : ST SSE.RS unit) : keeps m -> keeps (when b m).
Proof. intros Hm. destruct b; [exact Hm | apply keeps_ret]. Qed.

Lemma keeps_inWorld (A : Type) (m : ST World A) : keeps (SSE.inWorld m).
Proof.
  intros s H. unfold SSE.inWorld. destruct (m (snd s)) as [r w]. exact H.
Qed.

Lemma keeps_write (e : SSE.event) : SSE.terminal e = false -> keeps (SSE.resWrite e).
Proof. intros He s H. simpl. apply ordered_write; assumption. Qed.

Lemma keeps_terminate (t : SSE.event) :
  SSE.terminal t = true -> keeps (SSE.resWrite t ;;; SSE.resEnd).
Proof. intros Ht s H. simpl. apply ordered_terminate; assumption. Qed.

(** *** The stream listeners *)

Lemma v1_forLines_ordered env lines :
  forall st, ordered (Framework.res st) ->
             ordered (Framework.res (Framework.forLines env lines st)).
Proof.
  induction lines as [|line rest IH]; intros st H; simpl; [exact H|].
  destruct (nonblank line); [|apply IH; exact H].
  destruct (JSON_parse env line) as [parsed|]; [|apply IH; exact H].
  destruct (getProp parsed "response") as [response|e]; [|apply IH; exact H].
  set (st1 := if truthy response then _ else st).
  assert (H1 : ordered (Framework.res st1)).
  { subst st1. destruct (truthy response); [|exact H].
    simpl. apply ordered_write; [reflexivity | exact H]. }
  destruct (getProp parsed "done") as [d|e]; [|apply IH; exact H1].
  destruct (truthy d); [|apply IH; exact H1].
  simpl. apply ordered_terminate; [reflexivity | exact H1].
Qed.

Lemma v1_on_ordered env ev st :
  ordered (Framework.res st) -> ordered (Framework.res (Framework.on env ev st)).
Proof.
  intros H. destruct ev as [chunk| |e|]; simpl.
  - apply (v1_forLines_ordered env _
             {| Framework.buffer := _; Framework.res := Framework.res st;
                Framework.promise := _; Framework.timer := _ |}). exact H.
  - apply ordered_guarded; [reflexivity | exact H].
  - apply ordered_guarded; [reflexivity | exact H].
  - destruct (Framework.timer st); [|exact H].
    simpl. apply ordered_guarded; [reflexivity | exact H].
Qed.

Lemma v1_untilSettled_ordered env evs :
  forall st, ordered (Framework.res st) ->
             ordered (Framework.res (Framework.untilSettled env evs st)).
Proof.
  induction evs as [|ev evs IH]; intros st H; simpl; [exact H|].
  pose proof (v1_on_ordered env ev st H) as H'.
  destruct (Framework.promise (Framework.on env ev st)); [apply IH| |]; exact H'.
Qed.

Lemma keeps_processOllamaStream env response :
  keeps (Framework.processOllamaStream env response).
Proof.
  intros s H. unfold Framework.processOllamaStream. simpl.
  apply v1_untilSettled_ordered. exact H.
Qed.

Lemma v2_forLines_ordered env lines :
  forall st, ordered (Enhanced.res st) ->
             ordered (Enhanced.res (Enhanced.forLines env lines st)).
Proof.
  induction lines as [|line rest IH]; intros st H; simpl; [exact H|].
  destruct (nonblank line); [|apply IH; exact H].
  destruct (JSON_parse env line) as [parsed|]; [|apply IH; exact H].
  destruct (getProp parsed "response") as [response|e]; [|apply IH; exact H].
  set (st1 := if truthy response then _ else st).
  assert (H1 : ordered (Enhanced.res st1)).
  { subst st1. destruct (truthy response); [|exact H].
    simpl. apply ordered_write; [reflexivity | exact H]. }
  destruct (getProp parsed "done") as [d|e]; [|apply IH; exact H1].
  destruct (truthy d); [|apply IH; exact H1].
  simpl. apply ordered_terminate; [reflexivity | exact H1].
Qed.

Lemma v2_on_ordered env ev st :
  ordered (Enhanced.res st) -> ordered (Enhanced.res (Enhanced.on env ev st)).
Proof.
  intros H. destruct ev as [chunk| |e|]; simpl; try exact H.
  - apply (v2_forLines_ordered env _
             {| Enhanced.buffer := _; Enhanced.res := Enhanced.res st;
                Enhanced.promise := _ |}). exact H.
  - apply ordered_guarded; [reflexivity | exact H].
Qed.

Lemma v2_untilSettled_ordered env evs :
  forall st, ordered (Enhanced.res st) ->
             ordered (Enhanced.res (Enhanced.untilSettled env evs st)).
Proof.
  induction evs as [|ev evs IH]; intros st H; simpl; [exact H|].
  pose proof (v2_on_ordered env ev st H) as H'.
  destruct (Enhanced.promise (Enhanced.on env ev st)); [apply IH| |]; exact H'.
Qed.

Ltac keeps_step :=
  first
    [ apply keeps_terminate; reflexivity
    | apply keeps_write; reflexivity
    | apply keeps_processOllamaStream
    | apply keeps_inWorld
    | apply keeps_lift
    | apply keeps_ret
    | apply keeps_throw
    | apply keeps_when
    | match goal with
      | |- keeps (bind _ _) => apply keeps_bind; [|intros ?]
      | |- keeps (tryCatch _ _) => apply keeps_tryCatch; [|intros ?]
      | |- keeps (match ?x with _ => _ end) => destruct x
      | |- keeps (if ?b then _ else _) => destruct b
      | |- keeps (let _ := _ in _) => cbv zeta
      end ].

Lemma keeps_streamLLMResponse env this prompt :
  keeps (Enhanced.streamLLMResponse env this prompt).
Proof.
  unfold Enhanced.streamLLMResponse.
  apply keeps_bind; [apply keeps_inWorld | intros response].
  apply keeps_bind; [repeat keeps_step | intros _].
  intros s H. simpl. apply v2_untilSettled_ordered. exact H.
Qed.

Lemma keeps_sendError e : keeps (Enhanced.sendError e).
Proof. unfold Enhanced.sendError. apply keeps_terminate. reflexivity. Qed.

(** Every run of the v2 chat route leaves the log in shape. *)
Lemma keeps_chatStream env this enhanced message :
  keeps (Enhanced.chatStream env this enhanced message).
Proof.
  unfold Enhanced.chatStream.
  apply keeps_tryCatch; [|apply keeps_sendError].
  apply keeps_bind; [apply keeps_lift | intros [functionCall|]];
    [|apply keeps_streamLLMResponse].
  apply keeps_bind; [apply keeps_write; reflexivity | intros _].
  apply keeps_tryCatch; [|apply keeps_sendError].
  unfold Enhanced.relayCall. repeat keeps_step.
Qed.

Lemma keeps_relayResult env config message functionCall :
  keeps (Framework.relayResult env config message functionCall).
Proof.
  unfold Framework.relayResult, Framework.generate. repeat keeps_step.
Qed.

(** Every run of the v1 stream route leaves the log in shape. *)
Lemma keeps_streamRoute env config message :
  keeps (Framework.streamRoute env config message).
Proof.
  unfold Framework.streamRoute, Framework.generate.
  apply keeps_tryCatch.
  - repeat keeps_step. apply keeps_relayResult.
  - intros error s H. destruct (SSE.writableEnded (fst s)) eqn:E; [exact H|].
    apply keeps_terminate; [reflexivity | exact H].
Qed.

End RequestSpec.

(* ===================================================================== *)
(** ** The stream relay *)
(* ===================================================================== *)

Module StreamSpec.

Lemma relayed_token sent0 r p text :
  relayed sent0 r p -> relayed sent0 (SSE.write (SSE.token text) r) p.
Proof.
  unfold relayed, SSE.write.
  destruct (settled p); intros [He H]; rewrite He; simpl.
  - split; [reflexivity | exact H].
  - split; [reflexivity|]. destruct H as (toks & Hs & Ht).
    exists (toks ++ [SSE.token text]). split.
    + rewrite Hs, app_assoc. reflexivity.
    + apply Forall_app. split; [exact Ht|]. constructor; [eexists; reflexivity | constructor].
Qed.

Lemma relayed_terminate sent0 r p q t :
  SSE.terminal t = true -> settled q = true ->
  relayed sent0 r p ->
  relayed sent0 (SSE.end_ (SSE.write t r)) (match p with Pending => q | _ => p end).
Proof.
  intros Ht Hq. unfold relayed, SSE.write, SSE.end_.
  destruct p; simpl; intros [He H]; rewrite He; simpl.
  - rewrite Hq. split; [reflexivity|]. destruct H as (toks & Hs & Htoks).
    exists toks, t. rewrite Hs, app_assoc. auto.
  - split; [reflexivity | exact H].
  - split; [reflexivity | exact H].
Qed.

Lemma relayed_guarded sent0 r p q t :
  SSE.terminal t = true -> settled q = true ->
  relayed sent0 r p ->
  relayed sent0 (if SSE.writableEnded r then r else SSE.end_ (SSE.write t r))
          (match p with Pending => q | _ => p end).
Proof.
  intros Ht Hq H.
  destruct (SSE.writableEnded r) eqn:He.
  - unfold relayed in *. destruct p; simpl in *; try exact H.
    destruct H as [H _]. congruence.
  - apply relayed_terminate; assumption.
Qed.

Lemma forLines_inv env sent0 lines :
  forall st, inv sent0 st -> inv sent0 (Framework.forLines env lines st).
Proof.
  induction lines as [|line rest IH]; intros st H; simpl; [exact H|].
  destruct (nonblank line); [|apply IH; exact H].
  destruct (JSON_parse env line) as [parsed|]; [|apply IH; exact H].
  destruct (getProp parsed "response") as [response|e]; [|apply IH; exact H].
  assert (H1 : inv sent0
                 (if truthy response
                  then {| Framework.buffer := Framework.buffer st;
                          Framework.res := SSE.write (SSE.token response) (Framework.res st);
                          Framework.promise := Framework.promise st;
                          Framework.timer := Framework.timer st |}
                  else st)).
  { destruct (truthy response); [|exact H]. apply relayed_token. exact H. }
  destruct (getProp parsed "done") as [d|e]; [|apply IH; exact H1].
  destruct (truthy d); [|apply IH; exact H1].
  unfold inv; simpl.
  apply (relayed_terminate sent0 _ _ Resolved SSE.done); [reflexivity | reflexivity | exact H1].
Qed.

Lemma on_inv env sent0 ev st : inv sent0 st -> inv sent0 (Framework.on env ev st).
Proof.
  intros H. destruct ev as [chunk| |e|]; simpl.
  - apply forLines_inv. exact H.
  - apply (relayed_guarded sent0 _ _ Resolved SSE.done); auto.
  - apply (relayed_guarded sent0 _ _ (Rejected e) (SSE.error _)); auto.
  - destruct (Framework.timer st); [|exact H].
    apply (relayed_guarded sent0 _ _ (Rejected _) (SSE.error _)); auto.
Qed.

Lemma run_inv env sent0 evs : forall st, inv sent0 st -> inv sent0 (Framework.run env evs st).
Proof.
  unfold Framework.run.
  induction evs as [|ev evs IH]; intros st H; simpl; [exact H|].
  apply IH, on_inv, H.
Qed.

Lemma start_inv (res0 : SSE.Res) :
  SSE.writableEnded res0 = false -> inv (SSE.sent res0) (Framework.start res0).
Proof.
  intros H. unfold inv, relayed; simpl. split; [exact H|].
  exists []. rewrite app_nil_r. auto.
Qed.

(** Once [end()] was called nothing more reaches the connection. *)
Lemma write_closed (e : SSE.event) (r : SSE.Res) :
  SSE.writableEnded r = true ->
  SSE.sent (SSE.write e r) = SSE.sent r /\ SSE.writableEnded (SSE.write e r) = true.
Proof. intros H. unfold SSE.write. rewrite H. auto. Qed.

Lemma forLines_closed env lines :
  forall st, SSE.writableEnded (Framework.res st) = true ->
             same_connection (Framework.res st)
               (Framework.res (Framework.forLines env lines st)).
Proof.
  induction lines as [|line rest IH]; intros st H; simpl; [split; auto|].
  destruct (nonblank line); [|apply IH; exact H].
  destruct (JSON_parse env line) as [parsed|]; [|apply IH; exact H].
  destruct (getProp parsed "response") as [response|e]; [|apply IH; exact H].
  set (st1 := if truthy response then _ else st).
  assert (H1 : same_connection (Framework.res st) (Framework.res st1)).
  { subst st1. destruct (truthy response); [|split; auto].
    simpl. apply write_closed. exact H. }
  destruct H1 as [Hs He].
  assert (Hrest : same_connection (Framework.res st)
                    (Framework.res (Framework.forLines env rest st1))).
  { destruct (IH st1 He) as [Hs' He']. split; congruence. }
  destruct (getProp parsed "done") as [d|e]; [|exact Hrest].
  destruct (truthy d); [|exact Hrest].
  simpl. destruct (write_closed SSE.done (Framework.res st1) He) as [Hs' _].
  split; [simpl; congruence | reflexivity].
Qed.

Lemma on_closed env ev st :
  SSE.writableEnded (Framework.res st) = true ->
  same_connection (Framework.res st) (Framework.res (Framework.on env ev st)).
Proof.
  intros H. destruct ev as [chunk| |e|]; simpl.
  - apply (forLines_closed env _
             {| Framework.buffer := _; Framework.res := Framework.res st;
                Framework.promise := _; Framework.timer := _ |}). exact H.
  - rewrite H. split; auto.
  - rewrite H. split; auto.
  - destruct (Framework.timer st); simpl; rewrite ?H; split; auto.
Qed.

Lemma run_closed env evs :
  forall st, SSE.writableEnded (Framework.res st) = true ->
             same_connection (Framework.res st)
               (Framework.res (Framework.run env evs st)).
Proof.
  unfold Framework.run.
  induction evs as [|ev evs IH]; intros st H; simpl; [split; auto|].
  destruct (on_closed env ev st H) as [Hs He].
  destruct (IH _ He) as [Hs' He']. split; congruence.
Qed.

(** The guarded terminations leave an ended response exactly as it is. *)
Lemma guarded_termination_noop env st :
  SSE.writableEnded (Framework.res st) = true ->
  Framework.res (Framework.on env End st) = Framework.res st
  /\ (forall e, Framework.res (Framework.on env (BodyError e) st) = Framework.res st)
  /\ Framework.res (Framework.on env Elapsed st) = Framework.res st.
Proof.
  intros H. simpl. rewrite H.
  repeat split. destruct (Framework.timer st); simpl; rewrite ?H; reflexivity.
Qed.

Lemma one_terminal (toks : list SSE.event) (t : SSE.event) :
  Forall is_token toks -> SSE.terminal t = true ->
  List.length (filter SSE.terminal (toks ++ [t])) = 1.
Proof.
  intros Htoks Ht. rewrite filter_app, length_app. simpl. rewrite Ht. simpl.
  replace (filter SSE.terminal toks) with (@nil SSE.event); [reflexivity|].
  induction Htoks as [|e l [text ->] _ IH]; simpl; [reflexivity | exact IH].
Qed.

(** What the greeting stream puts on the connection. *)
Lemma greeting_events :
  Framework.res (Framework.run Examples.ollama Examples.greeting
                   (Framework.start SSE.openRes))
  = {| SSE.sent := [ SSE.token (VStr (str "Hi")); SSE.token (VStr (str " there"));
                     SSE.done ];
       SSE.writableEnded := true;
       SSE.refused := [] |}.
Proof. vm_compute. reflexivity. Qed.

(** A stream error after the first token: the error stands in for [done]. *)
Lemma broken_stream_events :
  Framework.res (Framework.run Examples.ollama
                   [ Data (Examples.record "Hi" false ++ nl);
                     BodyError (Error (str "socket hang up")); End; Elapsed ]
                   (Framework.start SSE.openRes))
  = {| SSE.sent := [ SSE.token (VStr (str "Hi"));
                     SSE.error (VStr (str "socket hang up")) ];
       SSE.writableEnded := true;
       SSE.refused := [] |}.
Proof. vm_compute. reflexivity. Qed.

(** The ['data'] listener itself does not look at [writableEnded]: records
    arriving after the timeout are written to the ended response, where
    they are refused and never reach the connection. *)
Lemma data_after_timeout_is_refused :
  Framework.res (Framework.run Examples.ollama (Elapsed :: Examples.greeting)
                   (Framework.start SSE.openRes))
  = {| SSE.sent := [ SSE.error (VStr (str "Response timeout")) ];
       SSE.writableEnded := true;
       SSE.refused := [ SSE.token (VStr (str "Hi")); SSE.token (VStr (str " there"));
                        SSE.done ] |}.
Proof. vm_compute. reflexivity. Qed.

End StreamSpec.

(* ===================================================================== *)
(** ** How a streamed request terminates *)
(* ===================================================================== *)

Module TerminationSpec.

(** *** The v1 relay comes to a close *)

Lemma forLines_armed env lines :
  forall st, armed st -> armed (Framework.forLines env lines st).
Proof.
  induction lines as [|line rest IH]; intros st H; simpl; [exact H|].
  destruct (nonblank line); [|apply IH; exact H].
  destruct (JSON_parse env line) as [parsed|]; [|apply IH; exact H].
  destruct (getProp parsed "response") as [response|e]; [|apply IH; exact H].
  set (st1 := if truthy response then _ else st).
  assert (H1 : armed st1).
  { subst st1. destruct (truthy response); exact H. }
  destruct (getProp parsed "done") as [d|e]; [|apply IH; exact H1].
  destruct (truthy d); [|apply IH; exact H1].
  unfold armed. simpl. destruct (Framework.promise st1); discriminate.
Qed.

Lemma on_armed env ev st : armed st -> armed (Framework.on env ev st).
Proof.
  intros H. destruct ev as [chunk| |e|]; simpl.
  - apply forLines_armed. exact H.
  - unfold armed. simpl. destruct (Framework.promise st); discriminate.
  - unfold armed. simpl. destruct (Framework.promise st); discriminate.
  - destruct (Framework.timer st) eqn:Ht; [|exact H].
    unfold armed. simpl. destruct (Framework.promise st); discriminate.
Qed.

Lemma on_closes_settles env ev st :
  closes ev = true -> armed st ->
  settled (Framework.promise (Framework.on env ev st)) = true.
Proof.
  intros Hc H. destruct ev as [chunk| |e|]; try discriminate; simpl.
  - destruct (Framework.promise st); reflexivity.
  - destruct (Framework.promise st); reflexivity.
  - destruct (Framework.promise st) eqn:Hp.
    + rewrite (H Hp). reflexivity.
    + destruct (Framework.timer st); simpl; rewrite ?Hp; reflexivity.
    + destruct (Framework.timer st); simpl; rewrite ?Hp; reflexivity.
Qed.

Lemma untilSettled_settles env evs :
  forall st, armed st -> completes evs = true ->
             settled (Framework.promise (Framework.untilSettled env evs st)) = true.
Proof.
  induction evs as [|ev evs IH]; intros st H Hc; [discriminate|].
  cbn [Framework.untilSettled].
  destruct (Framework.promise (Framework.on env ev st)) eqn:Hp.
  - apply IH; [apply on_armed; exact H|].
    unfold completes in *. cbn [existsb] in Hc.
    destruct (closes ev) eqn:Hev; [|exact Hc].
    pose proof (on_closes_settles env ev st Hev H) as Hs.
    rewrite Hp in Hs. discriminate.
  - rewrite Hp. reflexivity.
  - rewrite Hp. reflexivity.
Qed.

Lemma untilSettled_inv env sent0 evs :
  forall st, inv sent0 st -> inv sent0 (Framework.untilSettled env evs st).
Proof.
  induction evs as [|ev evs IH]; intros st H; cbn [Framework.untilSettled]; [exact H|].
  pose proof (StreamSpec.on_inv env sent0 ev st H) as H'.
  destruct (Framework.promise (Framework.on env ev st)); [apply IH| |]; exact H'.
Qed.

Lemma untilSettled_closed env evs :
  forall st, SSE.writableEnded (Framework.res st) = true ->
             same_connection (Framework.res st)
               (Framework.res (Framework.untilSettled env evs st)).
Proof.
  induction evs as [|ev evs IH]; intros st H; cbn [Framework.untilSettled];
    [split; auto|].
  destruct (StreamSpec.on_closed env ev st H) as [Hs He].
  destruct (Framework.promise (Framework.on env ev st)); [|split; assumption ..].
  destruct (IH _ He) as [Hs' He']. split; congruence.
Qed.

Lemma forLines_settledEnded env lines :
  forall st, settledEnded st -> settledEnded (Framework.forLines env lines st).
Proof.
  induction lines as [|line rest IH]; intros st H; simpl; [exact H|].
  destruct (nonblank line); [|apply IH; exact H].
  destruct (JSON_parse env line) as [parsed|]; [|apply IH; exact H].
  destruct (getProp parsed "response") as [response|e]; [|apply IH; exact H].
  set (st1 := if truthy response then _ else st).
  assert (H1 : settledEnded st1).
  { subst st1. destruct (truthy response); [|exact H].
    unfold settledEnded in *. simpl. intros Hs. unfold SSE.write.
    rewrite (H Hs). reflexivity. }
  destruct (getProp parsed "done") as [d|e]; [|apply IH; exact H1].
  destruct (truthy d); [|apply IH; exact H1].
  intros _. reflexivity.
Qed.

Lemma on_settledEnded env ev st :
  settledEnded st -> settledEnded (Framework.on env ev st).
Proof.
  intros H. destruct ev as [chunk| |e|]; simpl.
  - apply forLines_settledEnded. exact H.
  - intros _. simpl. destruct (SSE.writableEnded (Framework.res st)) eqn:E;
      [exact E | reflexivity].
  - intros _. simpl. destruct (SSE.writableEnded (Framework.res st)) eqn:E;
      [exact E | reflexivity].
  - destruct (Framework.timer st); [|exact H].
    intros _. simpl. destruct (SSE.writableEnded (Framework.res st)) eqn:E;
      [exact E | reflexivity].
Qed.

Lemma untilSettled_settledEnded env evs :
  forall st, settledEnded st -> settledEnded (Framework.untilSettled env evs st).
Proof.
  induction evs as [|ev evs IH]; intros st H; cbn [Framework.untilSettled]; [exact H|].
  pose proof (on_settledEnded env ev st H) as H'.
  destruct (Framework.promise (Framework.on env ev st)); [apply IH| |]; exact H'.
Qed.

(** *** The v2 relay comes to a close *)

Lemma v2_on_closes_settles env ev st :
  v2_closes ev = true -> settled (Enhanced.promise (Enhanced.on env ev st)) = true.
Proof.
  intros Hc. destruct ev as [chunk| |e|]; try discriminate; simpl;
    destruct (Enhanced.promise st); reflexivity.
Qed.

Lemma v2_untilSettled_settles env evs :
  forall st, v2_completes evs = true ->
             settled (Enhanced.promise (Enhanced.untilSettled env evs st)) = true.
Proof.
  induction evs as [|ev evs IH]; intros st Hc; [discriminate|].
  cbn [Enhanced.untilSettled].
  destruct (Enhanced.promise (Enhanced.on env ev st)) eqn:Hp.
  - apply IH. unfold v2_completes in *. cbn [existsb] in Hc.
    destruct (v2_closes ev) eqn:Hev; [|exact Hc].
    pose proof (v2_on_closes_settles env ev st Hev) as Hs.
    rewrite Hp in Hs. discriminate.
  - rewrite Hp. reflexivity.
  - rewrite Hp. reflexivity.
Qed.

Lemma v2_forLines_resolvedEnded env lines :
  forall st, resolvedEnded st -> resolvedEnded (Enhanced.forLines env lines st).
Proof.
  induction lines as [|line rest IH]; intros st H; simpl; [exact H|].
  destruct (nonblank line); [|apply IH; exact H].
  destruct (JSON_parse env line) as [parsed|]; [|apply IH; exact H].
  destruct (getProp parsed "response") as [response|e]; [|apply IH; exact H].
  set (st1 := if truthy response then _ else st).
  assert (H1 : resolvedEnded st1).
  { subst st1. destruct (truthy response); [|exact H].
    unfold resolvedEnded in *. simpl. intros Hs. unfold SSE.write.
    rewrite (H Hs). reflexivity. }
  destruct (getProp parsed "done") as [d|e]; [|apply IH; exact H1].
  destruct (truthy d); [|apply IH; exact H1].
  intros _. reflexivity.
Qed.

Lemma v2_on_resolvedEnded env ev st :
  resolvedEnded st -> resolvedEnded (Enhanced.on env ev st).
Proof.
  intros H. destruct ev as [chunk| |e|]; simpl.
  - apply v2_forLines_resolvedEnded. exact H.
  - intros _. simpl. destruct (SSE.writableEnded (Enhanced.res st)) eqn:E;
      [exact E | reflexivity].
  - unfold resolvedEnded in *. simpl. intros Hr. apply H.
    destruct (Enhanced.promise st); [discriminate | reflexivity | discriminate].
  - exact H.
Qed.

Lemma v2_untilSettled_resolvedEnded env evs :
  forall st, resolvedEnded st -> resolvedEnded (Enhanced.untilSettled env evs st).
Proof.
  induction evs as [|ev evs IH]; intros st H; cbn [Enhanced.untilSettled]; [exact H|].
  pose proof (v2_on_resolvedEnded env ev st H) as H'.
  destruct (Enhanced.promise (Enhanced.on env ev st)); [apply IH| |]; exact H'.
Qed.

(** *** Nothing is taken back from the connection *)

Lemma grows_refl r : grows r r.
Proof. exists []. symmetry. apply app_nil_r. Qed.

Lemma grows_trans r1 r2 r3 : grows r1 r2 -> grows r2 r3 -> grows r1 r3.
Proof.
  intros [m1 H1] [m2 H2]. exists (m1 ++ m2). rewrite H2, H1, app_assoc. reflexivity.
Qed.

Lemma grows_write e r : grows r (SSE.write e r).
Proof.
  unfold grows, SSE.write. destruct (SSE.writableEnded r); simpl.
  - exists []. symmetry. apply app_nil_r.
  - exists [e]. reflexivity.
Qed.

Lemma grows_end r : grows r (SSE.end_ r).
Proof. exists []. symmetry. apply app_nil_r. Qed.

Lemma grows_terminate t r : grows r (SSE.end_ (SSE.write t r)).
Proof. eapply grows_trans; [apply grows_write | apply grows_end]. Qed.

Lemma grows_guarded t r :
  grows r (if SSE.writableEnded r then r else SSE.end_ (SSE.write t r)).
Proof.
  destruct (SSE.writableEnded r); [apply grows_refl | apply grows_terminate].
Qed.

Lemma v1_forLines_grows env lines :
  forall st, grows (Framework.res st) (Framework.res (Framework.forLines env lines st)).
Proof.
  induction lines as [|line rest IH]; intros st; simpl; [apply grows_refl|].
  destruct (nonblank line); [|apply IH].
  destruct (JSON_parse env line) as [parsed|]; [|apply IH].
  destruct (getProp parsed "response") as [response|e]; [|apply IH].
  set (st1 := if truthy response then _ else st).
  assert (H1 : grows (Framework.res st) (Framework.res st1)).
  { subst st1. destruct (truthy response); [apply grows_write | apply grows_refl]. }
  destruct (getProp parsed "done") as [d|e];
    [|eapply grows_trans; [exact H1 | apply IH]].
  destruct (truthy d); [|eapply grows_trans; [exact H1 | apply IH]].
  simpl. eapply grows_trans; [exact H1 | apply grows_terminate].
Qed.

Lemma v1_on_grows env ev st :
  grows (Framework.res st) (Framework.res (Framework.on env ev st)).
Proof.
  destruct ev as [chunk| |e|]; simpl.
  - apply (v1_forLines_grows env _
             {| Framework.buffer := _; Framework.res := Framework.res st;
                Framework.promise := _; Framework.timer := _ |}).
  - apply grows_guarded.
  - apply grows_guarded.
  - destruct (Framework.timer st); [apply grows_guarded | apply grows_refl].
Qed.

Lemma v1_untilSettled_grows env evs :
  forall st, grows (Framework.res st)
               (Framework.res (Framework.untilSettled env evs st)).
Proof.
  induction evs as [|ev evs IH]; intros st; cbn [Framework.untilSettled];
    [apply grows_refl|].
  pose proof (v1_on_grows env ev st) as H.
  destruct (Framework.promise (Framework.on env ev st)); try exact H.
  eapply grows_trans; [exact H | apply IH].
Qed.

Lemma v2_forLines_grows env lines :
  forall st, grows (Enhanced.res st) (Enhanced.res (Enhanced.forLines env lines st)).
Proof.
  induction lines as [|line rest IH]; intros st; simpl; [apply grows_refl|].
  destruct (nonblank line); [|apply IH].
  destruct (JSON_parse env line) as [parsed|]; [|apply IH].
  destruct (getProp parsed "response") as [response|e]; [|apply IH].
  set (st1 := if truthy response then _ else st).
  assert (H1 : grows (Enhanced.res st) (Enhanced.res st1)).
  { subst st1. destruct (truthy response); [apply grows_write | apply grows_refl]. }
  destruct (getProp parsed "done") as [d|e];
    [|eapply grows_trans; [exact H1 | apply IH]].
  destruct (truthy d); [|eapply grows_trans; [exact H1 | apply IH]].
  simpl. eapply grows_trans; [exact H1 | apply grows_terminate].
Qed.

Lemma v2_on_grows env ev st :
  grows (Enhanced.res st) (Enhanced.res (Enhanced.on env ev st)).
Proof.
  destruct ev as [chunk| |e|]; simpl; try apply grows_refl.
  - apply (v2_forLines_grows env _
             {| Enhanced.buffer := _; Enhanced.res := Enhanced.res st;
                Enhanced.promise := _ |}).
  - apply grows_guarded.
Qed.

Lemma v2_untilSettled_grows env evs :
  forall st, grows (Enhanced.res st)
               (Enhanced.res (Enhanced.untilSettled env evs st)).
Proof.
  induction evs as [|ev evs IH]; intros st; cbn [Enhanced.untilSettled];
    [apply grows_refl|].
  pose proof (v2_on_grows env ev st) as H.
  destruct (Enhanced.promise (Enhanced.on env ev st)); try exact H.
  eapply grows_trans; [exact H | apply IH].
Qed.

Lemma extends_ret (A : Type) (a : A) : extends (@ret SSE.RS A a).
Proof. intros s. apply grows_refl. Qed.

Lemma extends_throw (A : Type) (e : exn) : extends (@throw SSE.RS A e).
Proof. intros s. apply grows_refl. Qed.

Lemma extends_lift (A : Type) (r : result A) : extends (@lift SSE.RS A r).
Proof. intros s. apply grows_refl. Qed.

Lemma extends_bind (A B : Type) (m : ST SSE.RS A) (f : A -> ST SSE.RS B) :
  extends m -> (forall a, extends (f a)) -> extends (bind m f).
Proof.
  intros Hm Hf s. unfold bind. specialize (Hm s).
  destruct (m s) as [[a|e] s']; simpl in *; [|exact Hm].
  eapply grows_trans; [exact Hm | apply Hf].
Qed.

Lemma extends_tryCatch (A : Type) (m : ST SSE.RS A) (h : exn -> ST SSE.RS A) :
  extends m -> (forall e, extends (h e)) -> extends (tryCatch m h).
Proof.
  intros Hm Hh s. unfold tryCatch. specialize (Hm s).
  destruct (m s) as [[a|e] s']; simpl in *; [exact Hm|].
  eapply grows_trans; [exact Hm | apply Hh].
Qed.

Lemma extends_when (b : bool) (m : ST SSE.RS unit) : extends m -> extends (when b m).
Proof. intros Hm. destruct b; [exact Hm | apply extends_ret]. Qed.

Lemma extends_inWorld (A : Type) (m : ST World A) : extends (SSE.inWorld m).
Proof.
  intros s. unfold SSE.inWorld. destruct (m (snd s)) as [r w]. apply grows_refl.
Qed.

Lemma extends_write (e : SSE.event) : extends (SSE.resWrite e).
Proof. intros s. simpl. apply grows_write. Qed.

Lemma extends_end : extends SSE.resEnd.
Proof. intros s. simpl. apply grows_end. Qed.

Lemma extends_processOllamaStream env response :
  extends (Framework.processOllamaStream env response).
Proof.
  intros s. unfold Framework.processOllamaStream. simpl.
  apply (v1_untilSettled_grows env (body response) (Framework.start (fst s))).
Qed.

Ltac extends_step :=
  first
    [ apply extends_write
    | apply extends_end
    | apply extends_processOllamaStream
    | apply extends_inWorld
    | apply extends_lift
    | apply extends_ret
    | apply extends_throw
    | apply extends_when
    | match goal with
      | |- extends (bind _ _) => apply extends_bind; [|intros ?]
      | |- extends (tryCatch _ _) => apply extends_tryCatch; [|intros ?]
      | |- extends (match ?x with _ => _ end) => destruct x
      | |- extends (if ?b then _ else _) => destruct b
      | |- extends (let _ := _ in _) => cbv zeta
      end ].

Lemma extends_streamLLMResponse env this prompt :
  extends (Enhanced.streamLLMResponse env this prompt).
Proof.
  unfold Enhanced.streamLLMResponse.
  apply extends_bind; [apply extends_inWorld | intros response].
  apply extends_bind; [repeat extends_step | intros _].
  intros s. simpl.
  apply (v2_untilSettled_grows env (body response)
           {| Enhanced.buffer := []; Enhanced.res := fst s;
              Enhanced.promise := Pending |}).
Qed.

Lemma extends_chatStream env this enhanced message :
  extends (Enhanced.chatStream env this enhanced message).
Proof.
  unfold Enhanced.chatStream, Enhanced.sendError.
  apply extends_tryCatch; [|intros e; repeat extends_step].
  apply extends_bind; [apply extends_lift | intros [functionCall|]];
    [|apply extends_streamLLMResponse].
  apply extends_bind; [apply extends_write | intros _].
  apply extends_tryCatch; [|intros e; repeat extends_step].
  unfold Enhanced.relayCall. repeat extends_step.
Qed.

Lemma extends_relayResult env config message functionCall :
  extends (Framework.relayResult env config message functionCall).
Proof.
  unfold Framework.relayResult, Framework.generate. repeat extends_step.
Qed.

Lemma extends_streamRoute env config message :
  extends (Framework.streamRoute env config message).
Proof.
  unfold Framework.streamRoute, Framework.generate.
  apply extends_tryCatch.
  - repeat extends_step. apply extends_relayResult.
  - intros error s. destruct (SSE.writableEnded (fst s)); [apply grows_refl|].
    simpl. apply grows_terminate.
Qed.

(** *** Every path ends the response *)

Lemma ends_end : ends SSE.resEnd.
Proof. intros s. reflexivity. Qed.

Lemma ends_terminate (e : SSE.event) : ends (SSE.resWrite e ;;; SSE.resEnd).
Proof. intros s. reflexivity. Qed.

Lemma ends_tryCatch (A : Type) (m : ST SSE.RS A) (h : exn -> ST SSE.RS A) :
  endsOnReturn m -> (forall e, ends (h e)) -> ends (tryCatch m h).
Proof.
  intros Hm Hh s. unfold tryCatch. specialize (Hm s).
  destruct (m s) as [[a|e] s']; simpl in *; [exact Hm | apply Hh].
Qed.

Lemma eor_of_ends (A : Type) (m : ST SSE.RS A) : ends m -> endsOnReturn m.
Proof. intros H s. destruct (fst (m s)); [apply H | exact I]. Qed.

Lemma eor_throw (A : Type) (e : exn) : endsOnReturn (@throw SSE.RS A e).
Proof. intros s. exact I. Qed.

Lemma eor_bind (A B : Type) (m : ST SSE.RS A) (f : A -> ST SSE.RS B) :
  (forall a, endsOnReturn (f a)) -> endsOnReturn (bind m f).
Proof.
  intros Hf s. unfold bind.
  destruct (m s) as [[a|e] s']; simpl; [apply Hf | exact I].
Qed.

(** The stream relayed by [processOllamaStream] leaves the response ended
    as soon as the body ends or fails or the timeout elapses. *)
Lemma ends_processOllamaStream env response :
  completes (body response) = true ->
  ends (Framework.processOllamaStream env response).
Proof.
  intros Hc s. unfold Framework.processOllamaStream. simpl.
  apply (untilSettled_settledEnded env (body response) (Framework.start (fst s))).
  - intros H. discriminate.
  - apply untilSettled_settles; [|exact Hc]. intros _. reflexivity.
Qed.

Lemma eor_generate env config prompt stream (A : Type) (k : Response -> ST SSE.RS A) :
  streams_complete env ->
  (forall response, completes (body response) = true -> endsOnReturn (k response)) ->
  endsOnReturn (bind (Framework.generate env config prompt stream) k).
Proof.
  intros Henv Hk s. unfold bind, Framework.generate, SSE.inWorld, fetch.
  destruct (fetch_outcome env (snd s) _ _) as [response|e] eqn:Hf; [|exact I].
  apply Hk. exact (Henv _ _ _ _ Hf).
Qed.

Ltac eor_step :=
  first
    [ apply eor_throw
    | apply eor_of_ends; apply ends_end
    | apply eor_of_ends; apply ends_processOllamaStream; assumption
    | apply eor_generate; [assumption | intros ? ?]
    | match goal with
      | |- endsOnReturn (bind _ _) => apply eor_bind; intros ?
      | |- endsOnReturn (match ?x with _ => _ end) => destruct x
      | |- endsOnReturn (if ?b then _ else _) => destruct b
      | |- endsOnReturn (let _ := _ in _) => cbv zeta
      end ].

Lemma eor_relayResult env config message functionCall :
  streams_complete env ->
  endsOnReturn (Framework.relayResult env config message functionCall).
Proof.
  intros Henv. unfold Framework.relayResult. repeat eor_step.
Qed.

Lemma ends_streamRoute env config message :
  streams_complete env -> ends (Framework.streamRoute env config message).
Proof.
  intros Henv. unfold Framework.streamRoute.
  apply ends_tryCatch.
  - apply eor_generate; [exact Henv | intros initialResponse _].
    apply eor_bind; intros _.
    apply eor_bind; intros initialData.
    apply eor_bind; intros responseText.
    apply eor_bind; intros [functionCall|].
    + apply eor_bind; intros _. apply eor_of_ends.
      apply ends_tryCatch; [apply eor_relayResult; exact Henv|].
      intros e. apply ends_terminate.
    + repeat eor_step.
  - intros error s. destruct (SSE.writableEnded (fst s)) eqn:E; [exact E|].
    reflexivity.
Qed.

Lemma eor_streamLLMResponse env this prompt :
  v2_streams_complete env ->
  endsOnReturn (Enhanced.streamLLMResponse env this prompt).
Proof.
  intros Henv s. unfold Enhanced.streamLLMResponse, bind, SSE.inWorld, fetch.
  destruct (fetch_outcome env (snd s) _ _) as [response|e] eqn:Hf; [|exact I].
  pose proof (Henv _ _ _ _ Hf) as Hc.
  destruct (ok response); cbn [negb when throw ret fst snd]; [|exact I].
  match goal with
  | |- context [Enhanced.untilSettled env (body response) ?st0] =>
      pose proof (v2_untilSettled_settles env (body response) st0 Hc) as Hs;
      pose proof (v2_untilSettled_resolvedEnded env (body response) st0) as Hr;
      destruct (Enhanced.promise (Enhanced.untilSettled env (body response) st0))
        eqn:Hp
  end.
  - cbn in Hs. discriminate.
  - cbn [fst snd]. apply Hr; [intros H; discriminate | exact Hp].
  - exact I.
Qed.

Lemma ends_sendError e : ends (Enhanced.sendError e).
Proof. intros s. reflexivity. Qed.

Lemma eor_relayCall this functionCall :
  endsOnReturn (Enhanced.relayCall this functionCall).
Proof. unfold Enhanced.relayCall. repeat eor_step. Qed.

Lemma ends_chatStream env this enhanced message :
  v2_streams_complete env -> ends (Enhanced.chatStream env this enhanced message).
Proof.
  intros Henv. unfold Enhanced.chatStream.
  apply ends_tryCatch; [|apply ends_sendError].
  apply eor_bind; intros [functionCall|].
  - apply eor_bind; intros _. apply eor_of_ends.
    apply ends_tryCatch; [apply eor_relayCall | apply ends_sendError].
  - apply eor_streamLLMResponse. exact Henv.
Qed.

(** *** The shape of the log of an ended response *)

Lemma no_terminal_count (l : list SSE.event) :
  existsb SSE.terminal l = false -> filter SSE.terminal l = [].
Proof.
  induction l as [|e l IH]; simpl; [reflexivity|].
  destruct (SSE.terminal e); simpl; [discriminate | exact IH].
Qed.

Lemma closed_log (r0 r1 : SSE.Res) :
  existsb SSE.terminal (SSE.sent r0) = false ->
  grows r0 r1 -> ordered r1 -> SSE.writableEnded r1 = true ->
  exists more t,
    SSE.sent r1 = SSE.sent r0 ++ more ++ [t]
    /\ existsb SSE.terminal more = false /\ SSE.terminal t = true
    /\ List.length (filter SSE.terminal (more ++ [t])) = 1.
Proof.
  intros H0 [more Hg] Ho He. unfold ordered in Ho. rewrite He in Ho.
  destruct Ho as (pre & t & Hs & Hpre & Ht).
  destruct (exists_last (l := more)) as (more' & t' & ->).
  - intros ->. rewrite app_nil_r in Hg. rewrite Hg in Hs.
    rewrite Hs, existsb_app in H0. simpl in H0. rewrite Ht in H0.
    rewrite orb_true_r in H0. discriminate.
  - rewrite Hg, app_assoc in Hs. apply app_inj_tail in Hs. destruct Hs as [Hs ->].
    rewrite <- Hs, existsb_app in Hpre. apply orb_false_iff in Hpre.
    destruct Hpre as [_ Hm].
    exists more', t. repeat split; try assumption.
    rewrite filter_app, (no_terminal_count _ Hm). simpl. rewrite Ht. reflexivity.
Qed.

(** *** Writes on an ended response *)

Lemma write_open e r :
  SSE.writableEnded r = false ->
  SSE.refused (SSE.write e r) = SSE.refused r
  /\ SSE.writableEnded (SSE.write e r) = false.
Proof. intros H. unfold SSE.write. rewrite H. split; reflexivity. Qed.

Lemma v1_forLines_tidy env lines :
  forall st,
    Framework.promise st = Pending -> SSE.writableEnded (Framework.res st) = false ->
    SSE.refused (Framework.res (Framework.forLines env lines st))
    = SSE.refused (Framework.res st)
    /\ (Framework.promise (Framework.forLines env lines st) = Pending ->
        SSE.writableEnded (Framework.res (Framework.forLines env lines st)) = false).
Proof.
  induction lines as [|line rest IH]; intros st Hp Ho; simpl; [auto|].
  destruct (nonblank line); [|apply IH; assumption].
  destruct (JSON_parse env line) as [parsed|]; [|apply IH; assumption].
  destruct (getProp parsed "response") as [response|e]; [|apply IH; assumption].
  set (st1 := if truthy response then _ else st).
  assert (H1 : Framework.promise st1 = Pending
               /\ SSE.writableEnded (Framework.res st1) = false
               /\ SSE.refused (Framework.res st1) = SSE.refused (Framework.res st)).
  { subst st1. destruct (truthy response); [|auto].
    simpl. destruct (write_open (SSE.token response) _ Ho). auto. }
  destruct H1 as (Hp1 & Ho1 & Hr1).
  assert (Hrest : SSE.refused (Framework.res (Framework.forLines env rest st1))
                  = SSE.refused (Framework.res st)
                  /\ (Framework.promise (Framework.forLines env rest st1) = Pending ->
                      SSE.writableEnded
                        (Framework.res (Framework.forLines env rest st1)) = false)).
  { destruct (IH st1 Hp1 Ho1) as [Hr Hk]. split; [congruence | exact Hk]. }
  destruct (getProp parsed "done") as [d|e]; [|exact Hrest].
  destruct (truthy d); [|exact Hrest].
  simpl. rewrite Hp1. split; [|discriminate].
  destruct (write_open SSE.done _ Ho1) as [Hr _]. congruence.
Qed.

Lemma v1_on_tidy env ev st :
  Framework.promise st = Pending -> SSE.writableEnded (Framework.res st) = false ->
  SSE.refused (Framework.res (Framework.on env ev st)) = SSE.refused (Framework.res st)
  /\ (Framework.promise (Framework.on env ev st) = Pending ->
      SSE.writableEnded (Framework.res (Framework.on env ev st)) = false).
Proof.
  intros Hp Ho. destruct ev as [chunk| |e|]; simpl.
  - apply (v1_forLines_tidy env _
             {| Framework.buffer := _; Framework.res := Framework.res st;
                Framework.promise := _; Framework.timer := _ |}); assumption.
  - rewrite Ho, Hp. simpl. split; [|discriminate].
    apply (write_open SSE.done _ Ho).
  - rewrite Ho, Hp. simpl. split; [|discriminate].
    apply (write_open (SSE.error _) _ Ho).
  - destruct (Framework.timer st); [|auto].
    simpl. rewrite Ho, Hp. simpl. split; [|discriminate].
    apply (write_open (SSE.error _) _ Ho).
Qed.

Lemma v1_untilSettled_tidy env evs :
  forall st,
    Framework.promise st = Pending -> SSE.writableEnded (Framework.res st) = false ->
    SSE.refused (Framework.res (Framework.untilSettled env evs st))
    = SSE.refused (Framework.res st).
Proof.
  induction evs as [|ev evs IH]; intros st Hp Ho; cbn [Framework.untilSettled];
    [reflexivity|].
  destruct (v1_on_tidy env ev st Hp Ho) as [Hr Hk].
  destruct (Framework.promise (Framework.on env ev st)) eqn:Hp'; try exact Hr.
  rewrite (IH _ Hp' (Hk eq_refl)). exact Hr.
Qed.

Lemma v2_forLines_calm env lines :
  forall st,
    Enhanced.promise st = Pending -> SSE.writableEnded (Enhanced.res st) = false ->
    SSE.refused (Enhanced.res (Enhanced.forLines env lines st))
    = SSE.refused (Enhanced.res st)
    /\ (Enhanced.promise (Enhanced.forLines env lines st) <> Resolved ->
        Enhanced.promise (Enhanced.forLines env lines st) = Pending
        /\ SSE.writableEnded (Enhanced.res (Enhanced.forLines env lines st)) = false).
Proof.
  induction lines as [|line rest IH]; intros st Hp Ho; simpl; [auto|].
  destruct (nonblank line); [|apply IH; assumption].
  destruct (JSON_parse env line) as [parsed|]; [|apply IH; assumption].
  destruct (getProp parsed "response") as [response|e]; [|apply IH; assumption].
  set (st1 := if truthy response then _ else st).
  assert (H1 : Enhanced.promise st1 = Pending
               /\ SSE.writableEnded (Enhanced.res st1) = false
               /\ SSE.refused (Enhanced.res st1) = SSE.refused (Enhanced.res st)).
  { subst st1. destruct (truthy response); [|auto].
    simpl. destruct (write_open (SSE.token response) _ Ho). auto. }
  destruct H1 as (Hp1 & Ho1 & Hr1).
  assert (Hrest : SSE.refused (Enhanced.res (Enhanced.forLines env rest st1))
                  = SSE.refused (Enhanced.res st)
                  /\ (Enhanced.promise (Enhanced.forLines env rest st1) <> Resolved ->
                      Enhanced.promise (Enhanced.forLines env rest st1) = Pending
                      /\ SSE.writableEnded
                           (Enhanced.res (Enhanced.forLines env rest st1)) = false)).
  { destruct (IH st1 Hp1 Ho1) as [Hr Hk]. split; [congruence | exact Hk]. }
  destruct (getProp parsed "done") as [d|e]; [|exact Hrest].
  destruct (truthy d); [|exact Hrest].
  simpl. rewrite Hp1. split; [|intros H; exfalso; apply H; reflexivity].
  destruct (write_open SSE.done _ Ho1) as [Hr _]. congruence.
Qed.

(** A v2 stream started on an open response has nothing refused, and
    leaves the response open unless it resolves. *)
Lemma v2_on_calm env ev st :
  Enhanced.promise st = Pending -> SSE.writableEnded (Enhanced.res st) = false ->
  SSE.refused (Enhanced.res (Enhanced.on env ev st)) = SSE.refused (Enhanced.res st)
  /\ (Enhanced.promise (Enhanced.on env ev st) <> Resolved ->
      SSE.writableEnded (Enhanced.res (Enhanced.on env ev st)) = false).
Proof.
  intros Hp Ho. destruct ev as [chunk| |e|]; simpl.
  - destruct (v2_forLines_calm env (removelast (split_lines (Enhanced.buffer st ++ chunk)))
                {| Enhanced.buffer := last (split_lines (Enhanced.buffer st ++ chunk)) [];
                   Enhanced.res := Enhanced.res st;
                   Enhanced.promise := Enhanced.promise st |} Hp Ho) as [Hr Hk].
    split; [exact Hr | intros H; apply Hk; exact H].
  - rewrite Ho, Hp. simpl. split; [|intros H; exfalso; apply H; reflexivity].
    apply (write_open SSE.done _ Ho).
  - auto.
  - auto.
Qed.

Lemma v2_untilSettled_calm env evs :
  forall st,
    Enhanced.promise st = Pending -> SSE.writableEnded (Enhanced.res st) = false ->
    SSE.refused (Enhanced.res (Enhanced.untilSettled env evs st))
    = SSE.refused (Enhanced.res st)
    /\ (Enhanced.promise (Enhanced.untilSettled env evs st) <> Resolved ->
        SSE.writableEnded (Enhanced.res (Enhanced.untilSettled env evs st)) = false).
Proof.
  induction evs as [|ev evs IH]; intros st Hp Ho; cbn [Enhanced.untilSettled].
  - split; [reflexivity | intros _; exact Ho].
  - destruct (v2_on_calm env ev st Hp Ho) as [Hr Hk].
    destruct (Enhanced.promise (Enhanced.on env ev st)) eqn:Hp'.
    + assert (Ho' : SSE.writableEnded (Enhanced.res (Enhanced.on env ev st)) = false).
      { apply Hk. rewrite ?Hp'. discriminate. }
      destruct (IH _ Hp' Ho') as [Hr' Hk']. split; [congruence | exact Hk'].
    + split; [exact Hr | rewrite ?Hp'; intros H; exfalso; apply H; reflexivity].
    + split; [exact Hr | intros _; apply Hk; rewrite ?Hp'; discriminate].
Qed.

Lemma quiet_ret (A : Type) (a : A) : quiet (@ret SSE.RS A a).
Proof. intros s H. auto. Qed.

Lemma quiet_throw (A : Type) (e : exn) : quiet (@throw SSE.RS A e).
Proof. intros s H. auto. Qed.

Lemma quiet_lift (A : Type) (r : result A) : quiet (@lift SSE.RS A r).
Proof. intros s H. auto. Qed.

Lemma quiet_inWorld (A : Type) (m : ST World A) : quiet (SSE.inWorld m).
Proof. intros s H. unfold SSE.inWorld. destruct (m (snd s)) as [r w]. auto. Qed.

Lemma quiet_write (e : SSE.event) : quiet (SSE.resWrite e).
Proof. intros s H. simpl. apply write_open. exact H. Qed.

Lemma quiet_when (b : bool) (m : ST SSE.RS unit) : quiet m -> quiet (when b m).
Proof. intros Hm. destruct b; [exact Hm | apply quiet_ret]. Qed.

Lemma quiet_bind (A B : Type) (m : ST SSE.RS A) (f : A -> ST SSE.RS B) :
  quiet m -> (forall a, quiet (f a)) -> quiet (bind m f).
Proof.
  intros Hm Hf s H. unfold bind. destruct (Hm s H) as [Hr Ho].
  destruct (m s) as [[a|e] s']; simpl in *; [|auto].
  destruct (Hf a s' Ho) as [Hr' Ho']. split; [congruence | exact Ho'].
Qed.

Ltac quiet_step :=
  first
    [ apply quiet_write
    | apply quiet_inWorld
    | apply quiet_lift
    | apply quiet_ret
    | apply quiet_throw
    | apply quiet_when
    | match goal with
      | |- quiet (bind _ _) => apply quiet_bind; [|intros ?]
      | |- quiet (match ?x with _ => _ end) => destruct x
      | |- quiet (if ?b then _ else _) => destruct b
      end ].

Lemma tidy_of_quiet (A : Type) (m : ST SSE.RS A) : quiet m -> tidy m.
Proof. intros Hm s H. apply (Hm s H). Qed.

Lemma tidy_end : tidy SSE.resEnd.
Proof. intros s H. reflexivity. Qed.

Lemma tidy_bind (A B : Type) (m : ST SSE.RS A) (f : A -> ST SSE.RS B) :
  quiet m -> (forall a, tidy (f a)) -> tidy (bind m f).
Proof.
  intros Hm Hf s H. unfold bind. destruct (Hm s H) as [Hr Ho].
  destruct (m s) as [[a|e] s']; simpl in *; [|exact Hr].
  rewrite (Hf a s' Ho). exact Hr.
Qed.

Lemma tidy_processOllamaStream env response :
  tidy (Framework.processOllamaStream env response).
Proof.
  intros s H. unfold Framework.processOllamaStream. cbn [fst snd].
  apply (v1_untilSettled_tidy env (body response) (Framework.start (fst s)));
    [reflexivity | exact H].
Qed.

Ltac tidy_step :=
  first
    [ apply tidy_end
    | apply tidy_processOllamaStream
    | match goal with
      | |- tidy (bind _ _) => apply tidy_bind; [solve [repeat quiet_step] | intros ?]
      | |- tidy (match ?x with _ => _ end) => destruct x
      | |- tidy (if ?b then _ else _) => destruct b
      | |- tidy (let _ := _ in _) => cbv zeta
      end
    | apply tidy_of_quiet; solve [repeat quiet_step] ].

Lemma tidy_relayResult env config message functionCall :
  tidy (Framework.relayResult env config message functionCall).
Proof.
  unfold Framework.relayResult, Framework.generate. repeat tidy_step.
Qed.

Lemma nearlyTidy_of_tidy (A : Type) (m : ST SSE.RS A) : tidy m -> nearlyTidy m.
Proof.
  intros Hm s H. exists []. rewrite app_nil_r. split; [apply Hm; exact H | left; reflexivity].
Qed.

Lemma nearlyTidy_bind (A B : Type) (m : ST SSE.RS A) (f : A -> ST SSE.RS B) :
  quiet m -> (forall a, nearlyTidy (f a)) -> nearlyTidy (bind m f).
Proof.
  intros Hm Hf s H. unfold bind. destruct (Hm s H) as [Hr Ho].
  destruct (m s) as [[a|e] s']; simpl in *.
  - destruct (Hf a s' Ho) as (attempts & Hr' & Hl).
    exists attempts. split; [congruence | exact Hl].
  - exists []. rewrite app_nil_r. split; [exact Hr | left; reflexivity].
Qed.

(** The inner [try] of the v1 route with its [catch]. *)
Lemma nearlyTidy_inner (m : ST SSE.RS unit) :
  tidy m ->
  nearlyTidy
    (tryCatch m
       (fun error =>
          SSE.resWrite (SSE.error (VStr (str "Function failed: " ++ JS.message error))) ;;;
          SSE.resEnd)).
Proof.
  intros Hm s H. unfold tryCatch. specialize (Hm s H).
  destruct (m s) as [[a|e] s']; simpl in *.
  - exists []. rewrite app_nil_r. split; [exact Hm | left; reflexivity].
  - unfold SSE.write. destruct (SSE.writableEnded (fst s')); simpl.
    + eexists. split; [rewrite Hm; reflexivity|]. right. eexists. reflexivity.
    + exists []. rewrite app_nil_r. split; [exact Hm | left; reflexivity].
Qed.

Lemma nearlyTidy_tryCatch (A : Type) (m : ST SSE.RS A) (h : exn -> ST SSE.RS A) :
  nearlyTidy m ->
  (forall e s, SSE.refused (fst (snd (h e s))) = SSE.refused (fst s)) ->
  nearlyTidy (tryCatch m h).
Proof.
  intros Hm Hh s H. unfold tryCatch. specialize (Hm s H).
  destruct (m s) as [[a|e] s']; simpl in *; [exact Hm|].
  destruct Hm as (attempts & Hr & Hl). exists attempts.
  split; [rewrite Hh; exact Hr | exact Hl].
Qed.

(** What a run of the v1 route has refused: at most the [error] event of
    the inner [catch]. *)
Lemma nearlyTidy_streamRoute env config message :
  nearlyTidy (Framework.streamRoute env config message).
Proof.
  unfold Framework.streamRoute, Framework.generate.
  apply nearlyTidy_tryCatch.
  - apply nearlyTidy_bind; [apply quiet_inWorld | intros initialResponse].
    apply nearlyTidy_bind; [repeat quiet_step | intros _].
    apply nearlyTidy_bind; [apply quiet_lift | intros initialData].
    apply nearlyTidy_bind; [apply quiet_lift | intros responseText].
    apply nearlyTidy_bind; [apply quiet_lift | intros [functionCall|]].
    + apply nearlyTidy_bind; [apply quiet_write | intros _].
      apply nearlyTidy_inner. apply tidy_relayResult.
    + apply nearlyTidy_of_tidy. repeat tidy_step.
  - intros e s. destruct (SSE.writableEnded (fst s)) eqn:E; [reflexivity|].
    simpl. apply (write_open (SSE.error _) _ E).
Qed.

Lemma calm_of_quiet (A : Type) (m : ST SSE.RS A) : quiet m -> calm m.
Proof.
  intros Hm s H. destruct (Hm s H) as [Hr Ho]. split; [exact Hr|].
  destruct (fst (m s)); [exact I | exact Ho].
Qed.

Lemma calm_bind (A B : Type) (m : ST SSE.RS A) (f : A -> ST SSE.RS B) :
  quiet m -> (forall a, calm (f a)) -> calm (bind m f).
Proof.
  intros Hm Hf s H. unfold bind. destruct (Hm s H) as [Hr Ho].
  destruct (m s) as [[a|e] s']; simpl in *; [|auto].
  destruct (Hf a s' Ho) as [Hr' Hk]. split; [congruence | exact Hk].
Qed.

Lemma calm_terminate (e : SSE.event) : calm (SSE.resWrite e ;;; SSE.resEnd).
Proof.
  intros s H. simpl. split; [|exact I]. apply (write_open e _ H).
Qed.

Lemma calm_sendError_after (m : ST SSE.RS unit) :
  calm m -> calm (tryCatch m Enhanced.sendError).
Proof.
  intros Hm s H. unfold tryCatch. destruct (Hm s H) as [Hr Hk].
  destruct (m s) as [[a|e] s']; simpl in *; [auto|].
  split; [|exact I].
  destruct (write_open (SSE.error (VStr (message e))) _ Hk) as [Hr' _]. congruence.
Qed.

Lemma calm_streamLLMResponse env this prompt :
  calm (Enhanced.streamLLMResponse env this prompt).
Proof.
  unfold Enhanced.streamLLMResponse.
  apply calm_bind; [apply quiet_inWorld | intros response].
  apply calm_bind; [repeat quiet_step | intros _].
  intros s H. cbn [fst snd].
  destruct (v2_untilSettled_calm env (body response)
              {| Enhanced.buffer := []; Enhanced.res := fst s;
                 Enhanced.promise := Pending |} eq_refl H) as [Hr Hk].
  split; [exact Hr|].
  destruct (Enhanced.promise (Enhanced.untilSettled env (body response) _)) eqn:Hp;
    [exact I | exact I | apply Hk; discriminate].
Qed.

Lemma calm_relayCall this functionCall : calm (Enhanced.relayCall this functionCall).
Proof.
  unfold Enhanced.relayCall.
  apply calm_bind; [repeat quiet_step | intros func].
  apply calm_bind; [repeat quiet_step | intros result].
  apply calm_bind; [repeat quiet_step | intros isBrowser].
  apply calm_bind; [repeat quiet_step | intros _].
  apply calm_terminate.
Qed.

(** A run of the v2 chat route has nothing refused. *)
Lemma tidy_chatStream env this enhanced message :
  tidy (Enhanced.chatStream env this enhanced message).
Proof.
  intros s H. unfold Enhanced.chatStream.
  apply (calm_sendError_after _); [|exact H].
  apply calm_bind; [apply quiet_lift | intros [functionCall|]].
  - apply calm_bind; [apply quiet_write | intros _].
    apply calm_sendError_after. apply calm_relayCall.
  - apply calm_streamLLMResponse.
Qed.

(** *** The claim *)

(** C3: every completed streamed request puts exactly one terminal event
    on the connection, as its last event, and ends the response.
    (1) [processOllamaStream], handed an open response and a body that
    ends, fails, or runs into the stream timeout, leaves the response
    ended, having added to the connection tokens followed by exactly one
    terminal event ([done], or the [error] standing in for it).
    (2) Handed a response that was ended already, it changes nothing on
    the connection, whatever the body.
    (3) On an ended response no listener changes what is on the
    connection, the ['data'] listener with its final record included (what
    it writes is refused); and the end of the body, its failure and the
    timeout, which look at [writableEnded], leave the response untouched.
    (4, 5) The v1 route [/stream] and the v2 route [/api/v1/chat/stream],
    started on an open response without a terminal event, in an
    environment whose response bodies come to a close, leave the response
    ended, whichever path is taken (a call or none, success or failure,
    either [catch]): the connection holds what it held, then events that
    are not terminal, then exactly one terminal event.
    (6, 7) What the handler of the route has written to the ended
    response, and had refused, when it returns: in the v1 route at most the
    one [error] event of the inner [catch], which does not look at
    [writableEnded]; in the v2 route nothing. (Listeners that run after the
    promise has settled are the subject of (3).) *)
Theorem C3_single_terminal_event :
  (forall (env : Environment) (response : Response) (res0 : SSE.Res) (w : World),
      completes (body response) = true ->
      SSE.writableEnded res0 = false ->
      SSE.writableEnded
        (fst (snd (Framework.processOllamaStream env response (res0, w)))) = true
      /\ exists toks t,
           SSE.sent (fst (snd (Framework.processOllamaStream env response (res0, w))))
           = SSE.sent res0 ++ toks ++ [t]
           /\ Forall is_token toks /\ SSE.terminal t = true
           /\ List.length (filter SSE.terminal (toks ++ [t])) = 1)
  /\
  (forall (env : Environment) (response : Response) (res0 : SSE.Res) (w : World),
      SSE.writableEnded res0 = true ->
      same_connection res0
        (fst (snd (Framework.processOllamaStream env response (res0, w)))))
  /\
  (forall (env : Environment) (st : Framework.Stream),
      SSE.writableEnded (Framework.res st) = true ->
      (forall later,
          same_connection (Framework.res st)
            (Framework.res (Framework.run env later st)))
      /\ (forall ev, closes ev = true ->
            Framework.res (Framework.on env ev st) = Framework.res st))
  /\
  (forall (env : Environment) (config : Framework.Config) (message : value)
          (res0 : SSE.Res) (w : World),
      streams_complete env ->
      SSE.writableEnded res0 = false ->
      existsb SSE.terminal (SSE.sent res0) = false ->
      SSE.writableEnded
        (fst (snd (Framework.streamRoute env config message (res0, w)))) = true
      /\ exists more t,
           SSE.sent (fst (snd (Framework.streamRoute env config message (res0, w))))
           = SSE.sent res0 ++ more ++ [t]
           /\ existsb SSE.terminal more = false /\ SSE.terminal t = true
           /\ List.length (filter SSE.terminal (more ++ [t])) = 1)
  /\
  (forall (env : Environment) (this : Enhanced.LLMFramework) (enhanced : jsstring)
          (message : value) (res0 : SSE.Res) (w : World),
      v2_streams_complete env ->
      SSE.writableEnded res0 = false ->
      existsb SSE.terminal (SSE.sent res0) = false ->
      SSE.writableEnded
        (fst (snd (Enhanced.chatStream env this enhanced message (res0, w)))) = true
      /\ exists more t,
           SSE.sent (fst (snd (Enhanced.chatStream env this enhanced message (res0, w))))
           = SSE.sent res0 ++ more ++ [t]
           /\ existsb SSE.terminal more = false /\ SSE.terminal t = true
           /\ List.length (filter SSE.terminal (more ++ [t])) = 1)
  /\
  (forall (env : Environment) (config : Framework.Config) (message : value)
          (res0 : SSE.Res) (w : World),
      SSE.writableEnded res0 = false ->
      exists attempts,
        SSE.refused (fst (snd (Framework.streamRoute env config message (res0, w))))
        = SSE.refused res0 ++ attempts
        /\ (attempts = []
            \/ exists msg,
                 attempts = [SSE.error (VStr (str "Function failed: " ++ msg))]))
  /\
  (forall (env : Environment) (this : Enhanced.LLMFramework) (enhanced : jsstring)
          (message : value) (res0 : SSE.Res) (w : World),
      SSE.writableEnded res0 = false ->
      SSE.refused (fst (snd (Enhanced.chatStream env this enhanced message (res0, w))))
      = SSE.refused res0).
Proof.
  split; [|split; [|split; [|split; [|split; [|split]]]]].
  - intros env response res0 w Hc Hopen.
    unfold Framework.processOllamaStream. cbn [fst snd].
    pose proof (untilSettled_inv env (SSE.sent res0) (body response) _
                  (StreamSpec.start_inv res0 Hopen)) as Hinv.
    assert (Hs : settled (Framework.promise
                            (Framework.untilSettled env (body response)
                               (Framework.start res0))) = true).
    { apply untilSettled_settles; [|exact Hc]. intros _. reflexivity. }
    unfold inv, relayed in Hinv. rewrite Hs in Hinv.
    destruct Hinv as (Hended & toks & t & Hsent & Htoks & Ht).
    split; [exact Hended|].
    exists toks, t. repeat split; try assumption.
    apply StreamSpec.one_terminal; assumption.
  - intros env response res0 w Hended.
    unfold Framework.processOllamaStream. cbn [fst snd].
    apply (untilSettled_closed env (body response) (Framework.start res0)).
    exact Hended.
  - intros env st Hended. split.
    + intros later. apply StreamSpec.run_closed. exact Hended.
    + intros ev Hev.
      destruct (StreamSpec.guarded_termination_noop env st Hended) as (H1 & H2 & H3).
      destruct ev as [chunk| |e|]; [discriminate | exact H1 | apply H2 | exact H3].
  - intros env config message res0 w Henv Hopen Hno.
    split; [apply (ends_streamRoute env config message Henv (res0, w))|].
    apply closed_log.
    + exact Hno.
    + apply (extends_streamRoute env config message (res0, w)).
    + apply (RequestSpec.keeps_streamRoute env config message (res0, w)).
      unfold ordered. cbn [fst]. rewrite Hopen. exact Hno.
    + apply (ends_streamRoute env config message Henv (res0, w)).
  - intros env this enhanced message res0 w Henv Hopen Hno.
    split; [apply (ends_chatStream env this enhanced message Henv (res0, w))|].
    apply closed_log.
    + exact Hno.
    + apply (extends_chatStream env this enhanced message (res0, w)).
    + apply (RequestSpec.keeps_chatStream env this enhanced message (res0, w)).
      unfold ordered. cbn [fst]. rewrite Hopen. exact Hno.
    + apply (ends_chatStream env this enhanced message Henv (res0, w)).
  - intros env config message res0 w Hopen.
    apply (nearlyTidy_streamRoute env config message (res0, w)). exact Hopen.
  - intros env this enhanced message res0 w Hopen.
    apply (tidy_chatStream env this enhanced message (res0, w)). exact Hopen.
Qed.

(** C3 on the greeting stream, relayed on a fresh response. *)
Lemma C3_witness_greeting :
  SSE.writableEnded
    (fst (snd (Framework.processOllamaStream Examples.ollama greetingReply
                 (SSE.openRes, initialWorld)))) = true
  /\ exists toks t,
       SSE.sent (fst (snd (Framework.processOllamaStream Examples.ollama greetingReply
                             (SSE.openRes, initialWorld))))
       = SSE.sent SSE.openRes ++ toks ++ [t]
       /\ Forall is_token toks /\ SSE.terminal t = true
       /\ List.length (filter SSE.terminal (toks ++ [t])) = 1.
Proof.
  apply (proj1 C3_single_terminal_event Examples.ollama greetingReply SSE.openRes
           initialWorld); reflexivity.
Defined.

(** The bodies of [Examples.ollama] and of the stalling model come to a
    close. *)
Lemma sample_streams_complete :
  streams_complete Examples.ollama /\ v2_streams_complete Examples.ollama
  /\ streams_complete stallingModel.
Proof.
  repeat split; intros w url o response H; injection H as <-; reflexivity.
Qed.

(** A body that never comes to a close leaves the response open: the
    request has not completed. *)
Lemma unfinished_stream_stays_open :
  fst (snd (Framework.processOllamaStream Examples.ollama
              {| Host.ok := true; Host.status := 200; Host.statusText := str "OK";
                 Host.headers := []; Host.text := Ok [];
                 Host.body := [ Data (Examples.record "Hi" false ++ nl) ] |}
              (SSE.openRes, initialWorld)))
  = {| SSE.sent := [ SSE.token (VStr (str "Hi")) ];
       SSE.writableEnded := false;
       SSE.refused := [] |}.
Proof. vm_compute. reflexivity. Qed.

(** The inner [catch] of the v1 route does not look at [writableEnded]:
    when the analysis of a result runs into the stream timeout, the relay
    has sent its [error] and ended the response, and the [error] the
    [catch] writes next is refused. One terminal event reaches the
    connection. *)
Lemma second_termination_is_refused :
  fst (snd (Framework.streamRoute stallingModel
              (Framework.validateConfiguration withEmptySearch)
              (VStr (str "find me something")) (SSE.openRes, initialWorld)))
  = {| SSE.sent := [ SSE.status (str "Processing your request...");
                     SSE.search_results (VArr []) (VNum 0);
                     SSE.error (VStr (str "Response timeout")) ];
       SSE.writableEnded := true;
       SSE.refused := [ SSE.error (VStr (str "Function failed: Timeout")) ] |}.
Proof. vm_compute. reflexivity. Qed.

End TerminationSpec.

(* ===================================================================== *)
(** ** Facts about lines *)
(* ===================================================================== *)

Module LineFacts.

Lemma split_lines_nonempty (s : jsstring) : split_lines s <> [].
Proof.
  destruct s as [|c s]; simpl; [discriminate|].
  destruct (c =? 10)%N; [discriminate|].
  destruct (split_lines s); discriminate.
Qed.

(** Splitting a concatenation: the complete lines of the first part, then
    the split of its unfinished last line followed by the second part. *)
Lemma split_lines_app (x y : jsstring) :
  split_lines (x ++ y)
  = removelast (split_lines x) ++ split_lines (last (split_lines x) [] ++ y).
Proof.
  induction x as [|c x IH]; simpl; [reflexivity|].
  pose proof (split_lines_nonempty x) as Hne.
  destruct (c =? 10)%N eqn:Hc.
  - destruct (split_lines x) as [|l ls] eqn:E; [congruence|].
    rewrite IH. reflexivity.
  - destruct (split_lines x) as [|l ls] eqn:E; [congruence|].
    rewrite IH. destruct ls as [|l2 ls]; simpl; rewrite ?Hc; reflexivity.
Qed.

Lemma split_lines_nlfree (s : jsstring) : nlfree s = true -> split_lines s = [s].
Proof.
  unfold nlfree. induction s as [|c s IH]; simpl; [reflexivity|].
  intros H. apply andb_true_iff in H as [Hc H].
  apply negb_true_iff in Hc. rewrite Hc, IH by exact H. reflexivity.
Qed.

Lemma removelast_app_nonempty (A : Type) (l l' : list A) :
  l' <> [] -> removelast (l ++ l') = l ++ removelast l'.
Proof. intros H. apply removelast_app. exact H. Qed.

Lemma last_app_nonempty (A : Type) (l l' : list A) (d : A) :
  l' <> [] -> last (l ++ l') d = last l' d.
Proof.
  intros H. induction l as [|a l IH]; simpl; [reflexivity|].
  destruct (l ++ l') eqn:E; [|exact IH].
  apply app_eq_nil in E. destruct E; contradiction.
Qed.

End LineFacts.

(* ===================================================================== *)
(** ** Facts about chunks: the v1 relay *)
(* ===================================================================== *)

Module ChunkFacts.
Import LineFacts.


Lemma wire_write (e : SSE.event) (r r' : SSE.Res) :
  wire r = wire r' -> wire (SSE.write e r) = wire (SSE.write e r').
Proof.
  unfold wire, SSE.write. intros H. injection H as Hs He.
  rewrite He. destruct (SSE.writableEnded r'); simpl; congruence.
Qed.

Lemma wire_end (r r' : SSE.Res) :
  wire r = wire r' -> wire (SSE.end_ r) = wire (SSE.end_ r').
Proof. unfold wire, SSE.end_. simpl. congruence. Qed.

Lemma wire_write_ended (e : SSE.event) (r : SSE.Res) :
  SSE.writableEnded r = true -> wire (SSE.write e r) = wire r.
Proof. unfold wire, SSE.write. intros H. rewrite H. simpl. congruence. Qed.

Lemma wire_end_ended (r : SSE.Res) :
  SSE.writableEnded r = true -> wire (SSE.end_ r) = wire r.
Proof. unfold wire, SSE.end_. simpl. congruence. Qed.


Lemma core_eq (st st' : Framework.Stream) :
  core st = core st' ->
  wire (Framework.res st) = wire (Framework.res st')
  /\ Framework.promise st = Framework.promise st'
  /\ Framework.timer st = Framework.timer st'.
Proof. unfold core. intros H. repeat split; congruence. Qed.


Lemma observe_core (st st' : Framework.Stream) :
  observe st = observe st'
  <-> Framework.buffer st = Framework.buffer st' /\ core st = core st'.
Proof.
  unfold observe, core, wire. split.
  - intros H. injection H as -> -> -> -> ->. auto.
  - intros [-> H]. injection H as -> -> -> ->. reflexivity.
Qed.

Section V1.
Variable env : Environment.

Lemma forLines_buffer (lines : list jsstring) :
  forall st, Framework.buffer (Framework.forLines env lines st) = Framework.buffer st.
Proof.
  induction lines as [|line rest IH]; intros st; simpl; [reflexivity|].
  destruct (nonblank line); [|apply IH].
  destruct (JSON_parse env line) as [parsed|]; [|apply IH].
  destruct (getProp parsed "response") as [response|e]; [|apply IH].
  destruct (getProp parsed "done") as [d|e];
    [destruct (truthy d)|]; destruct (truthy response);
    simpl; rewrite ?IH; reflexivity.
Qed.

Lemma forLines_core (lines : list jsstring) :
  forall st st', core st = core st' ->
                 core (Framework.forLines env lines st)
                 = core (Framework.forLines env lines st').
Proof.
  induction lines as [|line rest IH]; intros st st' H; simpl; [exact H|].
  destruct (nonblank line); [|apply IH; exact H].
  destruct (JSON_parse env line) as [parsed|]; [|apply IH; exact H].
  destruct (getProp parsed "response") as [response|e]; [|apply IH; exact H].
  set (st1 := if truthy response then _ else st).
  set (st1' := if truthy response then _ else st').
  assert (H1 : core st1 = core st1').
  { subst st1 st1'. destruct (truthy response); [|exact H].
    apply core_eq in H as (Hw & Hp & Ht). unfold core; simpl.
    rewrite (wire_write _ _ _ Hw), Hp, Ht. reflexivity. }
  destruct (getProp parsed "done") as [d|e]; [|apply IH; exact H1].
  destruct (truthy d); [|apply IH; exact H1].
  apply core_eq in H1 as (Hw & Hp & Ht). unfold core; simpl.
  rewrite (wire_end _ _ (wire_write SSE.done _ _ Hw)), Hp. reflexivity.
Qed.

(** On a stream that is over, the loop changes nothing that shows. *)
Lemma forLines_over (lines : list jsstring) :
  forall st,
    SSE.writableEnded (Framework.res st) = true ->
    settled (Framework.promise st) = true ->
    Framework.timer st = false ->
    core (Framework.forLines env lines st) = core st.
Proof.
  induction lines as [|line rest IH]; intros st He Hp Ht; simpl; [reflexivity|].
  destruct (nonblank line); [|apply IH; assumption].
  destruct (JSON_parse env line) as [parsed|]; [|apply IH; assumption].
  destruct (getProp parsed "response") as [response|e]; [|apply IH; assumption].
  set (st1 := if truthy response then _ else st).
  assert (H1 : core st1 = core st
               /\ SSE.writableEnded (Framework.res st1) = true
               /\ settled (Framework.promise st1) = true
               /\ Framework.timer st1 = false).
  { subst st1. destruct (truthy response); [|auto].
    unfold core; simpl. rewrite (wire_write_ended _ _ He).
    unfold SSE.write. rewrite He. auto. }
  destruct H1 as (Hc & He1 & Hp1 & Ht1).
  destruct (getProp parsed "done") as [d|e];
    [|rewrite <- Hc; apply IH; assumption].
  destruct (truthy d); [|rewrite <- Hc; apply IH; assumption].
  rewrite <- Hc. unfold core; simpl.
  rewrite wire_end_ended, (wire_write_ended _ _ He1), Ht1.
  - destruct (Framework.promise st1); simpl in *; try discriminate; reflexivity.
  - unfold SSE.write. rewrite He1. reflexivity.
Qed.

Lemma forLines_app (l1 l2 : list jsstring) :
  forall st, core (Framework.forLines env (l1 ++ l2) st)
             = core (Framework.forLines env l2 (Framework.forLines env l1 st)).
Proof.
  induction l1 as [|line rest IH]; intros st; simpl; [reflexivity|].
  destruct (nonblank line); [|apply IH].
  destruct (JSON_parse env line) as [parsed|]; [|apply IH].
  destruct (getProp parsed "response") as [response|e]; [|apply IH].
  set (st1 := if truthy response then _ else st).
  destruct (getProp parsed "done") as [d|e]; [|apply IH].
  destruct (truthy d); [|apply IH].
  symmetry. apply forLines_over; simpl; try reflexivity.
  destruct (Framework.promise st1); reflexivity.
Qed.


(** One chunk or two: the same stream. *)
Lemma data_split (a b : jsstring) (st : Framework.Stream) :
  observe (Framework.on env (Data (a ++ b)) st)
  = observe (Framework.on env (Data b) (Framework.on env (Data a) st)).
Proof.
  apply observe_core. simpl.
  rewrite !forLines_buffer. simpl.
  rewrite app_assoc, split_lines_app.
  set (L1 := split_lines (Framework.buffer st ++ a)).
  set (L2 := split_lines (last L1 [] ++ b)).
  assert (Hne : L2 <> []) by apply split_lines_nonempty.
  rewrite removelast_app_nonempty, last_app_nonempty by exact Hne.
  split; [reflexivity|].
  rewrite forLines_app.
  apply forLines_core.
  transitivity (core (Framework.forLines env (removelast L1)
                        (rebuffer (last L1 []) st))).
  - apply forLines_core. reflexivity.
  - reflexivity.
Qed.

Lemma on_observe (ev : BodyEvent) (st st' : Framework.Stream) :
  observe st = observe st' ->
  observe (Framework.on env ev st) = observe (Framework.on env ev st').
Proof.
  intros H. apply observe_core in H as [Hb Hc]. apply observe_core.
  pose proof (core_eq _ _ Hc) as (Hw & Hp & Ht).
  assert (He : SSE.writableEnded (Framework.res st)
               = SSE.writableEnded (Framework.res st'))
    by (unfold wire in Hw; congruence).
  destruct ev as [chunk| |e|]; simpl.
  - rewrite !forLines_buffer. simpl. rewrite Hb. split; [reflexivity|].
    apply forLines_core. exact Hc.
  - split; [exact Hb|]. unfold core; simpl.
    rewrite He, Hp. destruct (SSE.writableEnded (Framework.res st'));
      [rewrite Hw | rewrite (wire_end _ _ (wire_write _ _ _ Hw))]; reflexivity.
  - split; [exact Hb|]. unfold core; simpl.
    rewrite He, Hp. destruct (SSE.writableEnded (Framework.res st'));
      [rewrite Hw | rewrite (wire_end _ _ (wire_write _ _ _ Hw))]; reflexivity.
  - rewrite Ht.
    destruct (Framework.timer st'); simpl; [|split; assumption].
    split; [exact Hb|]. unfold core; simpl.
    rewrite He, Hp. destruct (SSE.writableEnded (Framework.res st'));
      [rewrite Hw | rewrite (wire_end _ _ (wire_write _ _ _ Hw))]; reflexivity.
Qed.

Lemma run_observe (evs : list BodyEvent) :
  forall st st', observe st = observe st' ->
                 observe (Framework.run env evs st) = observe (Framework.run env evs st').
Proof.
  unfold Framework.run.
  induction evs as [|ev evs IH]; intros st st' H; simpl; [exact H|].
  apply IH, on_observe, H.
Qed.


Lemma over_inv (st : Framework.Stream) :
  over st = true ->
  SSE.writableEnded (Framework.res st) = true
  /\ settled (Framework.promise st) = true /\ Framework.timer st = false.
Proof.
  unfold over. rewrite !andb_true_iff, negb_true_iff. tauto.
Qed.

Lemma core_over (st st' : Framework.Stream) :
  core st = core st' -> over st = over st'.
Proof.
  intros H. apply core_eq in H as (Hw & Hp & Ht). unfold over.
  unfold wire in Hw. rewrite Hp, Ht. f_equal. f_equal. congruence.
Qed.

Lemma on_over (ev : BodyEvent) (st : Framework.Stream) :
  over st = true -> core (Framework.on env ev st) = core st.
Proof.
  intros H. apply over_inv in H as (He & Hp & Ht).
  destruct ev as [c| |e|]; simpl.
  - rewrite forLines_over by assumption. reflexivity.
  - unfold core; simpl. rewrite He, Ht.
    destruct (Framework.promise st); try discriminate; reflexivity.
  - unfold core; simpl. rewrite He, Ht.
    destruct (Framework.promise st); try discriminate; reflexivity.
  - rewrite Ht. reflexivity.
Qed.

Lemma run_over (evs : list BodyEvent) :
  forall st, over st = true -> core (Framework.run env evs st) = core st.
Proof.
  unfold Framework.run.
  induction evs as [|ev evs IH]; intros st H; simpl; [reflexivity|].
  rewrite IH.
  - apply on_over, H.
  - rewrite (core_over _ _ (on_over ev st H)). exact H.
Qed.

Lemma run_app (evs evs' : list BodyEvent) (st : Framework.Stream) :
  Framework.run env (evs ++ evs') st
  = Framework.run env evs' (Framework.run env evs st).
Proof. unfold Framework.run. apply fold_left_app. Qed.

Lemma data_chunks (cs : list jsstring) :
  forall (c : jsstring) (st : Framework.Stream),
    observe (Framework.run env (map Data (c :: cs)) st)
    = observe (Framework.on env (Data (List.concat (c :: cs))) st).
Proof.
  induction cs as [|c' cs IH]; intros c st.
  - simpl. rewrite app_nil_r. reflexivity.
  - change (Framework.run env (map Data (c :: c' :: cs)) st)
      with (Framework.run env (map Data (c' :: cs)) (Framework.on env (Data c) st)).
    rewrite IH.
    change (List.concat (c :: c' :: cs)) with (c ++ List.concat (c' :: cs)).
    symmetry. apply data_split.
Qed.




End V1.
End ChunkFacts.

(* ===================================================================== *)
(** ** The v1 relay, record by record *)
(* ===================================================================== *)

Module RelaySpec.
Import LineFacts ChunkFacts.

Lemma split_lines_record (line rest : jsstring) :
  nlfree line = true ->
  split_lines (line ++ nl ++ rest) = line :: split_lines rest.
Proof.
  induction line as [|c line IH]; intros H; [reflexivity|].
  simpl in H. apply andb_true_iff in H as [Hc Hl].
  apply negb_true_iff in Hc.
  cbn [app split_lines]. rewrite Hc, (IH Hl). reflexivity.
Qed.

Lemma split_lines_ndjson (env : Environment) (records : list (jsstring * jsstring)) :
  Forall (fun rc => carries env (fst rc) (snd rc)) records ->
  split_lines (ndjson records) = map fst records ++ [[]].
Proof.
  unfold ndjson.
  induction 1 as [|rc records (Hnl & _) _ IH]; [reflexivity|].
  cbn [map List.concat]. rewrite <- app_assoc.
  rewrite (split_lines_record _ _ Hnl), IH. reflexivity.
Qed.

Lemma forLines_records (env : Environment) (records : list (jsstring * jsstring)) :
  Forall (fun rc => carries env (fst rc) (snd rc)) records ->
  forall st,
    SSE.writableEnded (Framework.res st) = false ->
    Framework.forLines env (map fst records) st
    = {| Framework.buffer := Framework.buffer st;
         Framework.res :=
           {| SSE.sent := SSE.sent (Framework.res st) ++ tokens records;
              SSE.writableEnded := false;
              SSE.refused := SSE.refused (Framework.res st) |};
         Framework.promise := Framework.promise st;
         Framework.timer := Framework.timer st |}.
Proof.
  induction 1 as [|[line text] records H _ IH]; intros st He.
  - simpl. rewrite app_nil_r. destruct st as [b [s e r] p t]; simpl in *.
    rewrite He. reflexivity.
  - destruct H as (_ & Hnb & Ht & parsed & d & Hp & Hr & Hd & Hf).
    simpl in *. rewrite Hnb, Hp, Hr, Hd, Hf.
    destruct text as [|x text]; [congruence|]. simpl.
    rewrite IH by (unfold SSE.write; simpl; rewrite He; reflexivity).
    simpl. unfold SSE.write. rewrite He. simpl.
    rewrite <- app_assoc. reflexivity.
Qed.


Lemma split_lines_tail (env : Environment) (records : list (jsstring * jsstring))
    (tail : jsstring) :
  Forall (fun rc => carries env (fst rc) (snd rc)) records ->
  split_lines (ndjson records ++ tail) = map fst records ++ split_lines tail.
Proof.
  unfold ndjson.
  induction 1 as [|rc records (Hnl & _) _ IH]; [reflexivity|].
  cbn [map List.concat]. rewrite <- !app_assoc.
  rewrite (split_lines_record _ _ Hnl), IH. reflexivity.
Qed.

(** The state of the listeners after the records and the text that follows
    them came in, in any number of chunks. *)
Lemma data_records (env : Environment) (res0 : SSE.Res)
    (records : list (jsstring * jsstring)) (tail : jsstring)
    (chunks : list jsstring) :
  SSE.writableEnded res0 = false ->
  Forall (fun rc => carries env (fst rc) (snd rc)) records ->
  nlfree tail = true ->
  List.concat chunks = ndjson records ++ tail ->
  observe (Framework.run env (map Data chunks) (Framework.start res0))
  = observe {| Framework.buffer := tail;
               Framework.res :=
                 {| SSE.sent := SSE.sent res0 ++ tokens records;
                    SSE.writableEnded := false;
                    SSE.refused := SSE.refused res0 |};
               Framework.promise := Pending;
               Framework.timer := true |}.
Proof.
  intros He Hrec Htail Hcat.
  assert (Hone : observe (Framework.on env (Data (ndjson records ++ tail))
                            (Framework.start res0)) = observe
            {| Framework.buffer := tail;
               Framework.res :=
                 {| SSE.sent := SSE.sent res0 ++ tokens records;
                    SSE.writableEnded := false;
                    SSE.refused := SSE.refused res0 |};
               Framework.promise := Pending;
               Framework.timer := true |}).
  { unfold Framework.on. cbn [Framework.buffer Framework.start app].
    rewrite (split_lines_tail env) by exact Hrec.
    rewrite (split_lines_nlfree _ Htail).
    rewrite removelast_last, last_last.
    rewrite forLines_records by (try exact Hrec; exact He).
    reflexivity. }
  destruct chunks as [|c cs].
  - simpl in Hcat. symmetry in Hcat. apply app_eq_nil in Hcat as [Hr ->].
    destruct records as [|[l x] records]; [|destruct l; discriminate Hr].
    unfold observe; simpl. rewrite app_nil_r, He. reflexivity.
  - rewrite data_chunks, Hcat. exact Hone.
Qed.

Lemma run_records_closed (env : Environment) (res0 : SSE.Res)
    (records : list (jsstring * jsstring)) (tail : jsstring)
    (chunks : list jsstring) (ev : BodyEvent) (later : list BodyEvent)
    (t : SSE.event) (p : Promise) :
  SSE.writableEnded res0 = false ->
  Forall (fun rc => carries env (fst rc) (snd rc)) records ->
  nlfree tail = true ->
  List.concat chunks = ndjson records ++ tail ->
  closing ev = Some (t, p) ->
  core (Framework.run env (map Data chunks ++ ev :: later) (Framework.start res0))
  = ((SSE.sent res0 ++ tokens records ++ [t], true), p, false).
Proof.
  intros He Hrec Htail Hcat Hev.
  rewrite run_app.
  change (Framework.run env (ev :: later) ?st)
    with (Framework.run env later (Framework.on env ev st)).
  pose proof (data_records env res0 records tail chunks He Hrec Htail Hcat) as Hd.
  apply (on_observe env ev) in Hd.
  apply observe_core in Hd as [_ Hd].
  rewrite run_over.
  - rewrite Hd. destruct ev as [c| |e|]; simpl in Hev; inversion Hev; subst;
      unfold core; simpl; unfold SSE.write; simpl; rewrite <- app_assoc; reflexivity.
  - rewrite (core_over _ _ Hd).
    destruct ev as [c| |e|]; simpl in Hev; inversion Hev; reflexivity.
Qed.

(** A body of well-formed records, none of them final, then text without a
    newline, then the event that closes the stream (the end of the body, a
    stream error or the timeout): the connection receives one [token] event
    per record, in the order of the records, and then the terminal event of
    the closing event; the text after the last newline is never relayed;
    the promise settles as the closing event says. Neither the way the text
    of the body is cut into chunks nor anything that happens later plays a
    part. *)
Theorem relay_until_closed (env : Environment) (res0 : SSE.Res)
    (records : list (jsstring * jsstring)) (tail : jsstring)
    (chunks : list jsstring) (ev : BodyEvent) (later : list BodyEvent)
    (t : SSE.event) (p : Promise) :
  SSE.writableEnded res0 = false ->
  Forall (fun rc => carries env (fst rc) (snd rc)) records ->
  nlfree tail = true ->
  List.concat chunks = ndjson records ++ tail ->
  closing ev = Some (t, p) ->
  core (Framework.run env (map Data chunks ++ ev :: later) (Framework.start res0))
  = ((SSE.sent res0 ++ tokens records ++ [t], true), p, false).
Proof.
  apply run_records_closed.
Qed.

(** [relay_until_closed] on a reply cut in the middle of a record, when the
    timeout elapses before the body ends. *)
Lemma relay_until_closed_witness :
  core (Framework.run Samples.chatty
          (map Data Samples.cutReply ++ Elapsed :: [Data nl; End])
          (Framework.start SSE.openRes))
  = ((SSE.sent SSE.openRes ++ tokens Samples.twoRecords
        ++ [SSE.error (VStr (str "Response timeout"))], true),
     Rejected (Error (str "Timeout")), false).
Proof.
  apply (relay_until_closed Samples.chatty SSE.openRes Samples.twoRecords
           (str "{") Samples.cutReply Elapsed [Data nl; End]);
    try reflexivity.
  constructor; [|constructor; [|constructor]];
    (split; [reflexivity | split; [reflexivity | split; [discriminate|]]]).
  - exists (Examples.parsed "Hi" false), (VBool false).
    split; [reflexivity | split; [reflexivity | split; reflexivity]].
  - exists (Examples.parsed " there" false), (VBool false).
    split; [reflexivity | split; [reflexivity | split; reflexivity]].
Defined.

(** A final record (its [done] is truthy) closes the stream by itself: the
    connection receives the tokens of the records before it, the token of
    the final record if it carries text, and [done]; the response is ended
    and the promise resolved. What the body holds after that record and
    whatever happens later (more data, the end, an error, the timeout) is
    not relayed. *)
Theorem final_record_closes (env : Environment) (res0 : SSE.Res)
    (records : list (jsstring * jsstring)) (final : jsstring) (response : value)
    (rest : jsstring) (chunks : list jsstring) (later : list BodyEvent) :
  SSE.writableEnded res0 = false ->
  Forall (fun rc => carries env (fst rc) (snd rc)) records ->
  finishes env final response ->
  List.concat chunks = ndjson records ++ final ++ nl ++ rest ->
  core (Framework.run env (map Data chunks ++ later) (Framework.start res0))
  = ((SSE.sent res0 ++ tokens records
        ++ (if truthy response then [SSE.token response] else []) ++ [SSE.done],
      true), Resolved, false).
Proof.
  intros He Hrec (Hnl & Hnb & parsed & d & Hp & Hr & Hd & Ht) Hcat.
  destruct chunks as [|c cs].
  { simpl in Hcat. symmetry in Hcat.
    apply app_eq_nil in Hcat as [_ Hcat]. apply app_eq_nil in Hcat as [_ Hcat].
    discriminate Hcat. }
  rewrite run_app.
  pose proof (data_chunks env cs c (Framework.start res0)) as Hobs.
  apply observe_core in Hobs as [_ Hobs]. rewrite Hcat in Hobs.
  assert (Hfin : core (Framework.on env
                         (Data (ndjson records ++ final ++ nl ++ rest))
                         (Framework.start res0))
                 = ((SSE.sent res0 ++ tokens records
                       ++ (if truthy response then [SSE.token response] else [])
                       ++ [SSE.done], true), Resolved, false)).
  { unfold Framework.on. cbn [Framework.buffer Framework.start app].
    rewrite (split_lines_tail env) by exact Hrec.
    rewrite (split_lines_record _ _ Hnl).
    change (map fst records ++ final :: split_lines rest)
      with (map fst records ++ [final] ++ split_lines rest).
    rewrite app_assoc, removelast_app_nonempty by apply split_lines_nonempty.
    rewrite <- app_assoc, forLines_app.
    rewrite forLines_records by (try exact Hrec; exact He).
    cbn [app Framework.forLines]. rewrite Hnb, Hp, Hr, Hd, Ht.
    unfold core, wire. destruct (truthy response); simpl;
      unfold SSE.write; simpl; rewrite <- ?app_assoc; reflexivity. }
  rewrite run_over.
  - rewrite Hobs. exact Hfin.
  - rewrite (core_over _ _ Hobs).
    apply (core_over _ {| Framework.buffer := [];
                          Framework.res := {| SSE.sent := _; SSE.writableEnded := true;
                                              SSE.refused := [] |};
                          Framework.promise := Resolved;
                          Framework.timer := false |} Hfin).
Qed.

(** [final_record_closes] on a reply whose final record carries no text and
    is followed by one more record and the end of the body. *)
Lemma final_record_closes_witness :
  core (Framework.run Samples.chatty (map Data Samples.finishedReply ++ [End])
          (Framework.start SSE.openRes))
  = ((SSE.sent SSE.openRes ++ tokens Samples.twoRecords
        ++ (if truthy (VStr []) then [SSE.token (VStr [])] else []) ++ [SSE.done],
      true), Resolved, false).
Proof.
  apply (final_record_closes Samples.chatty SSE.openRes Samples.twoRecords
           (Examples.record "" true) (VStr [])
           (Examples.record "late" false ++ nl) Samples.finishedReply [End]);
    try reflexivity.
  - constructor; [|constructor; [|constructor]];
      (split; [reflexivity | split; [reflexivity | split; [discriminate|]]]).
    + exists (Examples.parsed "Hi" false), (VBool false).
      split; [reflexivity | split; [reflexivity | split; reflexivity]].
    + exists (Examples.parsed " there" false), (VBool false).
      split; [reflexivity | split; [reflexivity | split; reflexivity]].
  - split; [reflexivity | split; [reflexivity|]].
    exists (Examples.parsed "" true), (VBool true).
    split; [reflexivity | split; [reflexivity | split; reflexivity]].
Defined.

End RelaySpec.

(* ===================================================================== *)
(** ** Facts about chunks: the v2 relay *)
(* ===================================================================== *)

Module V2ChunkFacts.
Import LineFacts ChunkFacts.

Lemma v2_core_eq (st st' : Enhanced.Stream) :
  v2_core st = v2_core st' ->
  wire (Enhanced.res st) = wire (Enhanced.res st')
  /\ Enhanced.promise st = Enhanced.promise st'.
Proof. unfold v2_core. intros H. split; congruence. Qed.

Lemma v2_observe_core (st st' : Enhanced.Stream) :
  v2_observe st = v2_observe st'
  <-> Enhanced.buffer st = Enhanced.buffer st' /\ v2_core st = v2_core st'.
Proof.
  unfold v2_observe, v2_core, wire. split.
  - intros H. injection H as -> -> -> ->. auto.
  - intros [-> H]. injection H as -> -> ->. reflexivity.
Qed.

Section V2.
Variable env : Environment.

Lemma v2_forLines_buffer (lines : list jsstring) :
  forall st, Enhanced.buffer (Enhanced.forLines env lines st) = Enhanced.buffer st.
Proof.
  induction lines as [|line rest IH]; intros st; simpl; [reflexivity|].
  destruct (nonblank line); [|apply IH].
  destruct (JSON_parse env line) as [parsed|]; [|apply IH].
  destruct (getProp parsed "response") as [response|e]; [|apply IH].
  destruct (getProp parsed "done") as [d|e];
    [destruct (truthy d)|]; destruct (truthy response);
    simpl; rewrite ?IH; reflexivity.
Qed.

Lemma v2_forLines_core (lines : list jsstring) :
  forall st st', v2_core st = v2_core st' ->
                 v2_core (Enhanced.forLines env lines st)
                 = v2_core (Enhanced.forLines env lines st').
Proof.
  induction lines as [|line rest IH]; intros st st' H; simpl; [exact H|].
  destruct (nonblank line); [|apply IH; exact H].
  destruct (JSON_parse env line) as [parsed|]; [|apply IH; exact H].
  destruct (getProp parsed "response") as [response|e]; [|apply IH; exact H].
  set (st1 := if truthy response then _ else st).
  set (st1' := if truthy response then _ else st').
  assert (H1 : v2_core st1 = v2_core st1').
  { subst st1 st1'. destruct (truthy response); [|exact H].
    apply v2_core_eq in H as (Hw & Hp). unfold v2_core; simpl.
    rewrite (wire_write _ _ _ Hw), Hp. reflexivity. }
  destruct (getProp parsed "done") as [d|e]; [|apply IH; exact H1].
  destruct (truthy d); [|apply IH; exact H1].
  apply v2_core_eq in H1 as (Hw & Hp). unfold v2_core; simpl.
  rewrite (wire_end _ _ (wire_write SSE.done _ _ Hw)), Hp. reflexivity.
Qed.

Lemma v2_over_inv (st : Enhanced.Stream) :
  v2_over st = true ->
  SSE.writableEnded (Enhanced.res st) = true
  /\ settled (Enhanced.promise st) = true.
Proof. unfold v2_over. rewrite andb_true_iff. tauto. Qed.

Lemma v2_core_over (st st' : Enhanced.Stream) :
  v2_core st = v2_core st' -> v2_over st = v2_over st'.
Proof.
  intros H. apply v2_core_eq in H as (Hw & Hp). unfold v2_over.
  unfold wire in Hw. rewrite Hp. f_equal. congruence.
Qed.

Lemma v2_forLines_over (lines : list jsstring) :
  forall st, v2_over st = true ->
             v2_core (Enhanced.forLines env lines st) = v2_core st.
Proof.
  induction lines as [|line rest IH]; intros st Ho; simpl; [reflexivity|].
  destruct (nonblank line); [|apply IH; assumption].
  destruct (JSON_parse env line) as [parsed|]; [|apply IH; assumption].
  destruct (getProp parsed "response") as [response|e]; [|apply IH; assumption].
  set (st1 := if truthy response then _ else st).
  assert (H1 : v2_core st1 = v2_core st).
  { subst st1. destruct (truthy response); [|auto].
    apply v2_over_inv in Ho as (He & Hp).
    unfold v2_core; simpl. rewrite (wire_write_ended _ _ He). reflexivity. }
  assert (Ho1 : v2_over st1 = true) by (rewrite (v2_core_over _ _ H1); exact Ho).
  destruct (getProp parsed "done") as [d|e];
    [|rewrite <- H1; apply IH; assumption].
  destruct (truthy d); [|rewrite <- H1; apply IH; assumption].
  rewrite <- H1. apply v2_over_inv in Ho1 as (He1 & Hp1).
  unfold v2_core; simpl.
  rewrite wire_end_ended, (wire_write_ended _ _ He1).
  - destruct (Enhanced.promise st1); simpl in *; try discriminate; reflexivity.
  - unfold SSE.write. rewrite He1. reflexivity.
Qed.

Lemma v2_forLines_app (l1 l2 : list jsstring) :
  forall st, v2_core (Enhanced.forLines env (l1 ++ l2) st)
             = v2_core (Enhanced.forLines env l2 (Enhanced.forLines env l1 st)).
Proof.
  induction l1 as [|line rest IH]; intros st; simpl; [reflexivity|].
  destruct (nonblank line); [|apply IH].
  destruct (JSON_parse env line) as [parsed|]; [|apply IH].
  destruct (getProp parsed "response") as [response|e]; [|apply IH].
  set (st1 := if truthy response then _ else st).
  destruct (getProp parsed "done") as [d|e]; [|apply IH].
  destruct (truthy d); [|apply IH].
  symmetry. apply v2_forLines_over. unfold v2_over; simpl.
  destruct (Enhanced.promise st1); reflexivity.
Qed.

(** While the promise is pending the response is as it was handed over or
    the loop has ended it: pending, or over. *)
Lemma v2_forLines_settles (lines : list jsstring) :
  forall st, Enhanced.promise st = Pending ->
             Enhanced.promise (Enhanced.forLines env lines st) = Pending
             \/ v2_over (Enhanced.forLines env lines st) = true.
Proof.
  induction lines as [|line rest IH]; intros st Hp; simpl; [left; exact Hp|].
  destruct (nonblank line); [|apply IH; assumption].
  destruct (JSON_parse env line) as [parsed|]; [|apply IH; assumption].
  destruct (getProp parsed "response") as [response|e]; [|apply IH; assumption].
  set (st1 := if truthy response then _ else st).
  assert (Hp1 : Enhanced.promise st1 = Pending)
    by (subst st1; destruct (truthy response); exact Hp).
  destruct (getProp parsed "done") as [d|e]; [|apply IH; assumption].
  destruct (truthy d); [|apply IH; assumption].
  right. unfold v2_over; simpl. rewrite Hp1. reflexivity.
Qed.

Lemma v2_data_split (a b : jsstring) (st : Enhanced.Stream) :
  v2_observe (Enhanced.on env (Data (a ++ b)) st)
  = v2_observe (Enhanced.on env (Data b) (Enhanced.on env (Data a) st)).
Proof.
  apply v2_observe_core. simpl.
  rewrite !v2_forLines_buffer. simpl.
  rewrite app_assoc, split_lines_app.
  set (L1 := split_lines (Enhanced.buffer st ++ a)).
  set (L2 := split_lines (last L1 [] ++ b)).
  assert (Hne : L2 <> []) by apply split_lines_nonempty.
  rewrite removelast_app_nonempty, last_app_nonempty by exact Hne.
  split; [reflexivity|].
  rewrite v2_forLines_app.
  apply v2_forLines_core.
  transitivity (v2_core (Enhanced.forLines env (removelast L1)
                           (v2_rebuffer (last L1 []) st))).
  - apply v2_forLines_core. reflexivity.
  - reflexivity.
Qed.

Lemma v2_on_observe (ev : BodyEvent) (st st' : Enhanced.Stream) :
  v2_observe st = v2_observe st' ->
  v2_observe (Enhanced.on env ev st) = v2_observe (Enhanced.on env ev st').
Proof.
  intros H. apply v2_observe_core in H as [Hb Hc]. apply v2_observe_core.
  pose proof (v2_core_eq _ _ Hc) as (Hw & Hp).
  assert (He : SSE.writableEnded (Enhanced.res st)
               = SSE.writableEnded (Enhanced.res st'))
    by (unfold wire in Hw; congruence).
  destruct ev as [chunk| |e|]; simpl.
  - rewrite !v2_forLines_buffer. simpl. rewrite Hb. split; [reflexivity|].
    apply v2_forLines_core. exact Hc.
  - split; [exact Hb|]. unfold v2_core; simpl.
    rewrite He, Hp. destruct (SSE.writableEnded (Enhanced.res st'));
      [rewrite Hw | rewrite (wire_end _ _ (wire_write _ _ _ Hw))]; reflexivity.
  - split; [exact Hb|]. unfold v2_core; simpl. rewrite Hw, Hp. reflexivity.
  - split; assumption.
Qed.

Lemma v2_untilSettled_observe (evs : list BodyEvent) :
  forall st st', v2_observe st = v2_observe st' ->
                 v2_observe (Enhanced.untilSettled env evs st)
                 = v2_observe (Enhanced.untilSettled env evs st').
Proof.
  induction evs as [|ev evs IH]; intros st st' H; simpl; [exact H|].
  pose proof (v2_on_observe ev _ _ H) as H1.
  assert (Hp : Enhanced.promise (Enhanced.on env ev st)
               = Enhanced.promise (Enhanced.on env ev st'))
    by (unfold v2_observe in H1; congruence).
  rewrite Hp. destruct (Enhanced.promise (Enhanced.on env ev st'));
    [apply IH; exact H1 | exact H1 | exact H1].
Qed.

Lemma v2_data_settles (c : jsstring) (st : Enhanced.Stream) :
  Enhanced.promise st = Pending ->
  Enhanced.promise (Enhanced.on env (Data c) st) = Pending
  \/ v2_over (Enhanced.on env (Data c) st) = true.
Proof. intros Hp. simpl. apply v2_forLines_settles. exact Hp. Qed.

Lemma v2_data_over (c : jsstring) (st : Enhanced.Stream) :
  v2_over st = true -> v2_core (Enhanced.on env (Data c) st) = v2_core st.
Proof. intros H. simpl. rewrite v2_forLines_over by exact H. reflexivity. Qed.

(** The first chunk and the rest of the data, or all of it at once. *)
Lemma v2_data_chunks (rest : list BodyEvent) (cs : list jsstring) :
  forall (c : jsstring) (st : Enhanced.Stream),
    Enhanced.promise st = Pending ->
    v2_core (Enhanced.untilSettled env (map Data (c :: cs) ++ rest) st)
    = v2_core (Enhanced.untilSettled env (Data (List.concat (c :: cs)) :: rest) st).
Proof.
  induction cs as [|c' cs IH]; intros c st Hp.
  - simpl. rewrite app_nil_r. reflexivity.
  - change (map Data (c :: c' :: cs) ++ rest)
      with (Data c :: (map Data (c' :: cs) ++ rest)).
    change (List.concat (c :: c' :: cs)) with (c ++ List.concat (c' :: cs)).
    set (X := List.concat (c' :: cs)) in *.
    pose proof (v2_data_split c X st) as Hs.
    cbn [Enhanced.untilSettled].
    destruct (v2_data_settles c st Hp) as [Hp1 | Ho1].
    + rewrite Hp1, (IH c' _ Hp1). fold X.
      cbn [Enhanced.untilSettled].
      apply v2_observe_core in Hs as Hs'. destruct Hs' as [_ Hc].
      assert (Hpp : Enhanced.promise (Enhanced.on env (Data (c ++ X)) st)
                    = Enhanced.promise
                        (Enhanced.on env (Data X) (Enhanced.on env (Data c) st)))
        by (apply v2_core_eq in Hc; tauto).
      rewrite Hpp.
      destruct (Enhanced.promise
                  (Enhanced.on env (Data X) (Enhanced.on env (Data c) st)));
        [|symmetry; exact Hc|symmetry; exact Hc].
      apply v2_observe_core.
      apply (v2_untilSettled_observe rest). symmetry. exact Hs.
    + apply v2_observe_core in Hs as [_ Hc].
      rewrite (v2_data_over X _ Ho1) in Hc.
      pose proof (v2_over_inv _ Ho1) as (_ & Hset).
      assert (Hpp : Enhanced.promise (Enhanced.on env (Data (c ++ X)) st)
                    = Enhanced.promise (Enhanced.on env (Data c) st))
        by (apply v2_core_eq in Hc; tauto).
      rewrite Hpp.
      destruct (Enhanced.promise (Enhanced.on env (Data c) st));
        [discriminate Hset | symmetry; exact Hc | symmetry; exact Hc].
Qed.

End V2.
End V2ChunkFacts.

(* ===================================================================== *)
(** ** The v2 relay and the chat route *)
(* ===================================================================== *)

Module ChatSpec.
Import LineFacts ChunkFacts V2ChunkFacts RelaySpec.

(** However the text of the backend's body is cut into chunks, the relay
    does the same: the listeners of v1's [processOllamaStream] end up with
    the same events on the connection, the response ended or not, the same
    promise, buffer and timer; v2's [streamLLMResponse] leaves the same
    events on the connection, the response ended or not, and settles the
    same way. (A chunk is the text it decodes to; a cut inside a multi-byte
    character, which changes that text, is outside this statement.) *)
Theorem chunking_does_not_matter :
  (forall (env : Environment) (c : jsstring) (cs : list jsstring)
          (rest : list BodyEvent) (st : Framework.Stream),
      observe (Framework.run env (map Data (c :: cs) ++ rest) st)
      = observe (Framework.run env (Data (List.concat (c :: cs)) :: rest) st))
  /\ (forall (env : Environment) (c : jsstring) (cs : list jsstring)
             (rest : list BodyEvent) (res0 : SSE.Res),
         v2_core (Enhanced.untilSettled env (map Data (c :: cs) ++ rest)
                    (v2_start res0))
         = v2_core (Enhanced.untilSettled env
                      (Data (List.concat (c :: cs)) :: rest) (v2_start res0))).
Proof.
  split.
  - intros env c cs rest st. rewrite run_app.
    change (Framework.run env (Data (List.concat (c :: cs)) :: rest) st)
      with (Framework.run env rest
              (Framework.on env (Data (List.concat (c :: cs))) st)).
    apply run_observe, data_chunks.
  - intros env c cs rest res0. apply v2_data_chunks. reflexivity.
Qed.

Lemma v2_forLines_records (env : Environment) (records : list (jsstring * jsstring)) :
  Forall (fun rc => carries env (fst rc) (snd rc)) records ->
  forall st,
    SSE.writableEnded (Enhanced.res st) = false ->
    Enhanced.forLines env (map fst records) st
    = {| Enhanced.buffer := Enhanced.buffer st;
         Enhanced.res :=
           {| SSE.sent := SSE.sent (Enhanced.res st) ++ tokens records;
              SSE.writableEnded := false;
              SSE.refused := SSE.refused (Enhanced.res st) |};
         Enhanced.promise := Enhanced.promise st |}.
Proof.
  induction 1 as [|[line text] records H _ IH]; intros st He.
  - simpl. rewrite app_nil_r. destruct st as [b [s e r] p]; simpl in *.
    rewrite He. reflexivity.
  - destruct H as (_ & Hnb & Ht & parsed & d & Hp & Hr & Hd & Hf).
    simpl in *. rewrite Hnb, Hp, Hr, Hd, Hf.
    destruct text as [|x text]; [congruence|]. simpl.
    rewrite IH by (unfold SSE.write; simpl; rewrite He; reflexivity).
    simpl. unfold SSE.write. rewrite He. simpl.
    rewrite <- app_assoc. reflexivity.
Qed.

(** The stream after the records, the text that follows them and the
    closing event, however the data was cut. *)
Lemma v2_stream_records (env : Environment) (res0 : SSE.Res)
    (records : list (jsstring * jsstring)) (tail : jsstring)
    (chunks : list jsstring) (ev : BodyEvent) (later : list BodyEvent)
    (t : SSE.event) :
  SSE.writableEnded res0 = false ->
  Forall (fun rc => carries env (fst rc) (snd rc)) records ->
  nlfree tail = true ->
  List.concat chunks = ndjson records ++ tail ->
  v2_closing ev = Some t ->
  v2_core (Enhanced.untilSettled env (map Data chunks ++ ev :: later) (v2_start res0))
  = v2_core (Enhanced.on env ev
               {| Enhanced.buffer := tail;
                  Enhanced.res :=
                    {| SSE.sent := SSE.sent res0 ++ tokens records;
                       SSE.writableEnded := false;
                       SSE.refused := SSE.refused res0 |};
                  Enhanced.promise := Pending |}).
Proof.
  intros He Hrec Htail Hcat Hev.
  assert (Hone : Enhanced.on env (Data (ndjson records ++ tail)) (v2_start res0)
                 = {| Enhanced.buffer := tail;
                      Enhanced.res :=
                        {| SSE.sent := SSE.sent res0 ++ tokens records;
                           SSE.writableEnded := false;
                           SSE.refused := SSE.refused res0 |};
                      Enhanced.promise := Pending |}).
  { unfold Enhanced.on. cbn [Enhanced.buffer v2_start app].
    rewrite (split_lines_tail env) by exact Hrec.
    rewrite (split_lines_nlfree _ Htail).
    rewrite removelast_last, last_last.
    rewrite v2_forLines_records by (try exact Hrec; exact He).
    reflexivity. }
  assert (Hstop : forall st, Enhanced.promise st = Pending ->
            Enhanced.untilSettled env (ev :: later) st = Enhanced.on env ev st).
  { intros st Hp. cbn [Enhanced.untilSettled].
    destruct ev as [c| |e|]; simpl in Hev; try discriminate;
      simpl; rewrite Hp; reflexivity. }
  destruct chunks as [|c cs].
  - simpl in Hcat. symmetry in Hcat. apply app_eq_nil in Hcat as [Hr ->].
    destruct records as [|[l x] records]; [|destruct l; discriminate Hr].
    cbn [map app]. rewrite Hstop by reflexivity.
    apply v2_observe_core. apply v2_on_observe.
    unfold v2_observe, v2_start; simpl. rewrite app_nil_r, He. reflexivity.
  - rewrite v2_data_chunks by reflexivity. rewrite Hcat.
    assert (Hgo : Enhanced.untilSettled env
                    (Data (ndjson records ++ tail) :: ev :: later) (v2_start res0)
                  = Enhanced.untilSettled env (ev :: later)
                      (Enhanced.on env (Data (ndjson records ++ tail))
                         (v2_start res0))).
    { change (Enhanced.untilSettled env
                (Data (ndjson records ++ tail) :: ev :: later) (v2_start res0))
        with (match Enhanced.promise
                      (Enhanced.on env (Data (ndjson records ++ tail))
                         (v2_start res0)) with
              | Pending => Enhanced.untilSettled env (ev :: later)
                             (Enhanced.on env (Data (ndjson records ++ tail))
                                (v2_start res0))
              | _ => Enhanced.on env (Data (ndjson records ++ tail)) (v2_start res0)
              end).
      rewrite Hone. reflexivity. }
    rewrite Hgo, Hone, Hstop by reflexivity. reflexivity.
Qed.

(** A message that is no function call goes to the model, once; when the
    model answers with a body of well-formed records, none of them final,
    then text without a newline, and the body then ends or fails, the
    connection receives one [token] per record, in order, and then [done],
    or, for a failed body, [error] with the failure's message; the response
    is ended and the route returns normally. Neither the way the body is
    cut into chunks nor what the body holds after its closing event plays a
    part. *)
Theorem chat_relays_reply (env : Environment) (this : Enhanced.LLMFramework)
    (enhanced : jsstring) (message : value) (res0 : SSE.Res) (w : World)
    (response : Response) (records : list (jsstring * jsstring))
    (tail : jsstring) (chunks : list jsstring) (ev : BodyEvent)
    (later : list BodyEvent) (t : SSE.event) :
  SSE.writableEnded res0 = false ->
  Enhanced.detectFunctionCall this message = Ok None ->
  fetch_outcome env w
    (fst (generateRequest env this (Enhanced.fullPrompt enhanced message)))
    (snd (generateRequest env this (Enhanced.fullPrompt enhanced message)))
  = Ok response ->
  ok response = true ->
  body response = map Data chunks ++ ev :: later ->
  Forall (fun rc => carries env (fst rc) (snd rc)) records ->
  nlfree tail = true ->
  List.concat chunks = ndjson records ++ tail ->
  v2_closing ev = Some t ->
  fst (Enhanced.chatStream env this enhanced message (res0, w)) = Ok tt
  /\ wire (fst (snd (Enhanced.chatStream env this enhanced message (res0, w))))
     = (SSE.sent res0 ++ tokens records ++ [t], true)
  /\ requested (snd (snd (Enhanced.chatStream env this enhanced message (res0, w))))
     = requested w
       ++ [generateRequest env this (Enhanced.fullPrompt enhanced message)].
Proof.
  intros He Hdet Hfetch Hok Hbody Hrec Htail Hcat Hev.
  pose proof (v2_stream_records env res0 records tail chunks ev later t
                He Hrec Htail Hcat Hev) as Hs.
  unfold Enhanced.chatStream, Enhanced.streamLLMResponse, tryCatch, bind, lift,
    when, SSE.inWorld, fetch.
  rewrite Hdet. cbn [fst snd].
  unfold generateRequest in Hfetch. cbn [fst snd] in Hfetch.
  rewrite Hfetch, Hok. cbn [negb ret fst snd]. rewrite Hbody.
  fold (v2_start res0).
  apply v2_core_eq in Hs as (Hw & Hp). rewrite Hp.
  destruct ev as [c| |e|]; simpl in Hev; inversion Hev; subst t.
  - cbn [Enhanced.on Enhanced.promise Enhanced.res SSE.writableEnded resolve]
      in Hw |- *.
    cbn [fst snd]. rewrite Hw. unfold wire, SSE.end_, SSE.write; simpl.
    rewrite <- app_assoc. auto.
  - cbn [Enhanced.on Enhanced.promise Enhanced.res reject] in Hw |- *.
    unfold Enhanced.sendError, bind, SSE.resWrite, SSE.resEnd, modify.
    cbn [fst snd].
    unfold wire in *. unfold SSE.end_, SSE.write. simpl in *.
    injection Hw as Hs Hn. rewrite Hn. simpl. rewrite Hs, <- app_assoc. auto.
Qed.

(** [chat_relays_reply] on a backend whose streamed reply breaks off. *)
Lemma chat_relays_reply_witness :
  fst (Enhanced.chatStream Samples.chatty
         (Enhanced.new_LLMFramework Examples.enhancedDefaults)
         (Enhanced.systemPrompt Examples.enhancedDefaults)
         (VStr (str "hello")) (SSE.openRes, initialWorld)) = Ok tt
  /\ wire (fst (snd (Enhanced.chatStream Samples.chatty
                       (Enhanced.new_LLMFramework Examples.enhancedDefaults)
                       (Enhanced.systemPrompt Examples.enhancedDefaults)
                       (VStr (str "hello")) (SSE.openRes, initialWorld))))
     = (SSE.sent SSE.openRes ++ tokens Samples.twoRecords
          ++ [SSE.error (VStr (str "socket hang up"))], true)
  /\ requested (snd (snd (Enhanced.chatStream Samples.chatty
                            (Enhanced.new_LLMFramework Examples.enhancedDefaults)
                            (Enhanced.systemPrompt Examples.enhancedDefaults)
                            (VStr (str "hello")) (SSE.openRes, initialWorld))))
     = requested initialWorld
       ++ [generateRequest Samples.chatty
             (Enhanced.new_LLMFramework Examples.enhancedDefaults)
             (Enhanced.fullPrompt (Enhanced.systemPrompt Examples.enhancedDefaults)
                (VStr (str "hello")))].
Proof.
  apply (chat_relays_reply Samples.chatty
           (Enhanced.new_LLMFramework Examples.enhancedDefaults)
           (Enhanced.systemPrompt Examples.enhancedDefaults)
           (VStr (str "hello")) SSE.openRes initialWorld
           Samples.chattyResponse Samples.twoRecords (str "{") Samples.cutReply
           (BodyError (Error (str "socket hang up"))) [End]
           (SSE.error (VStr (str "socket hang up"))));
    try reflexivity.
  constructor; [|constructor; [|constructor]];
    (split; [reflexivity | split; [reflexivity | split; [discriminate|]]]).
  - exists (Examples.parsed "Hi" false), (VBool false).
    split; [reflexivity | split; [reflexivity | split; reflexivity]].
  - exists (Examples.parsed " there" false), (VBool false).
    split; [reflexivity | split; [reflexivity | split; reflexivity]].
Defined.

End ChatSpec.

(* ===================================================================== *)
(** ** The v1 route on a plain reply *)
(* ===================================================================== *)

Module StreamRouteSpec.
Import LineFacts ChunkFacts RelaySpec.



End StreamRouteSpec.

(* ===================================================================== *)
(** ** Script and N8N functions, the user's functions *)
(* ===================================================================== *)

Module RegistrationSpec.

Import StringFacts.
Import Enhanced Registration.

Section Registry.
Variable env : Environment.
Variable stack : exn -> value.
Variable n8n : option jsstring.
Variable now : World -> jsstring.

Lemma registerUserFunction_config (name : jsstring) (definition : UserFunction)
    (this : FunctionRegistry) :
  config (registerUserFunction env stack n8n now name definition this) = config this.
Proof. destruct definition; reflexivity. Qed.

Lemma registerUserFunction_get (name other : jsstring) (definition : UserFunction)
    (this : FunctionRegistry) :
  get (registerUserFunction env stack n8n now name definition this) other
  = if jsstring_eqb other name
    then match stored env stack n8n now (config this) name definition with
         | Some def => Some def
         | None => get this other
         end
    else get this other.
Proof.
  destruct (jsstring_eqb other name) eqn:E.
  - apply jsstring_eqb_eq in E. subst other.
    destruct definition; simpl; unfold get, registerAPI, registerCommand,
      registerScript, registerN8N, register; simpl;
      rewrite ?Map_get_set_same; reflexivity.
  - apply jsstring_eqb_neq in E.
    destruct definition; simpl; unfold get, registerAPI, registerCommand,
      registerScript, registerN8N, register; simpl;
      rewrite ?Map_get_set_other by exact E; reflexivity.
Qed.

Lemma registerUserFunctions_config (functions : list (jsstring * UserFunction)) :
  forall this,
    config (registerUserFunctions env stack n8n now functions this) = config this.
Proof.
  unfold registerUserFunctions.
  induction functions as [|[n d] fs IH]; intros this; simpl; [reflexivity|].
  rewrite IH. apply registerUserFunction_config.
Qed.

Lemma registerUserFunctions_absent (functions : list (jsstring * UserFunction))
    (name : jsstring) :
  ~ In name (map fst functions) ->
  forall this,
    get (registerUserFunctions env stack n8n now functions this) name = get this name.
Proof.
  unfold registerUserFunctions.
  induction functions as [|[n d] fs IH]; intros Hn this; simpl; [reflexivity|].
  simpl in Hn. rewrite IH by tauto.
  rewrite registerUserFunction_get.
  replace (jsstring_eqb name n) with false; [reflexivity|].
  symmetry. apply jsstring_eqb_neq. intros ->. tauto.
Qed.

Lemma registerUserFunctions_get (functions : list (jsstring * UserFunction))
    (name : jsstring) :
  NoDup (map fst functions) ->
  forall this,
    get (registerUserFunctions env stack n8n now functions this) name
    = match Map_get name functions with
      | Some definition =>
          match stored env stack n8n now (config this) name definition with
          | Some def => Some def
          | None => get this name
          end
      | None => get this name
      end.
Proof.
  induction functions as [|[n d] fs IH]; intros Hnd this; [reflexivity|].
  inversion Hnd as [|x l Hnotin Hnd']; subst.
  change (registerUserFunctions env stack n8n now ((n, d) :: fs) this)
    with (registerUserFunctions env stack n8n now fs
            (registerUserFunction env stack n8n now n d this)).
  cbn [Map_get].
  destruct (jsstring_eqb name n) eqn:E.
  - apply jsstring_eqb_eq in E. subst n.
    rewrite registerUserFunctions_absent by exact Hnotin.
    rewrite registerUserFunction_get, jsstring_eqb_refl. reflexivity.
  - rewrite (IH Hnd'), registerUserFunction_config.
    rewrite registerUserFunction_get, E. reflexivity.
Qed.

Lemma Map_set_keys (V : Type) (m : Map V) (k : jsstring) (v : V) :
  map fst (Map_set k v m)
  = if among (map fst m) k then map fst m else map fst m ++ [k].
Proof.
  unfold among.
  induction m as [|[k' v'] m IH]; simpl; [reflexivity|].
  destruct (jsstring_eqb k k') eqn:E; simpl.
  - apply jsstring_eqb_eq in E. subst k'. reflexivity.
  - rewrite IH. destruct (existsb (jsstring_eqb k) (map fst m)); reflexivity.
Qed.

Lemma registerUserFunction_keys (name : jsstring) (definition : UserFunction)
    (this : FunctionRegistry) :
  map fst (functions (registerUserFunction env stack n8n now name definition this))
  = if known (name, definition) && negb (among (map fst (functions this)) name)
    then map fst (functions this) ++ [name]
    else map fst (functions this).
Proof.
  destruct definition; simpl; unfold registerAPI, registerCommand,
    registerScript, registerN8N, register; simpl;
    rewrite ?Map_set_keys;
    try (destruct (among (map fst (functions this)) name); reflexivity).
Qed.

Lemma among_app (keys : list jsstring) (k name : jsstring) :
  name <> k -> among (keys ++ [k]) name = among keys name.
Proof.
  intros H. unfold among. rewrite existsb_app. simpl.
  replace (jsstring_eqb name k) with false
    by (symmetry; apply jsstring_eqb_neq; exact H).
  rewrite !orb_false_r. reflexivity.
Qed.

Lemma filter_fresh (keys : list jsstring) (k : jsstring)
    (fs : list (jsstring * UserFunction)) :
  ~ In k (map fst fs) ->
  filter (fun n => negb (among (keys ++ [k]) n)) (map fst (filter known fs))
  = filter (fun n => negb (among keys n)) (map fst (filter known fs)).
Proof.
  induction fs as [|[n d] fs IH]; intros Hn; simpl; [reflexivity|].
  simpl in Hn. destruct (known (n, d)); simpl; [|apply IH; tauto].
  rewrite among_app by (intros ->; tauto).
  rewrite IH by tauto. reflexivity.
Qed.

Lemma registerUserFunctions_keys (fs : list (jsstring * UserFunction)) :
  NoDup (map fst fs) ->
  forall this,
    map fst (functions (registerUserFunctions env stack n8n now fs this))
    = map fst (functions this)
        ++ filter (fun n => negb (among (map fst (functions this)) n))
                  (map fst (filter known fs)).
Proof.
  induction fs as [|[n d] fs IH]; intros Hnd this.
  - simpl. rewrite app_nil_r. reflexivity.
  - inversion Hnd as [|x l Hnotin Hnd']; subst.
    change (registerUserFunctions env stack n8n now ((n, d) :: fs) this)
      with (registerUserFunctions env stack n8n now fs
              (registerUserFunction env stack n8n now n d this)).
    rewrite (IH Hnd'), registerUserFunction_keys.
    cbn [filter]. destruct (known (n, d)) eqn:Hk; cbn [andb map filter fst].
    + destruct (among (map fst (functions this)) n) eqn:Ha; cbn [negb].
      * reflexivity.
      * rewrite <- app_assoc. cbn [app].
        rewrite (filter_fresh _ _ _ Hnotin). reflexivity.
    + reflexivity.
Qed.

End Registry.

(** A user function of type [script] is never run while scripts are not
    allowed: with [security.allowScripts] off (or no [security] section)
    its handler returns the failure "Script execution is disabled for
    security" for every argument, and the world is left as it was. *)
Theorem scripts_disabled (stack : exn -> value) (this : FunctionRegistry)
    (name : jsstring) (cfg : ScriptConfig) (args : value) (w : World) :
  security_allowScripts (config this) = false ->
  exists def,
    get (registerScript stack name cfg this) name = Some def
    /\ handler def args w
       = (Ok (failure (str "Script execution is disabled for security")
                [ (str "stack",
                   stack (Error (str "Script execution is disabled for security"))) ]),
          w).
Proof.
  intros H. eexists. split.
  - unfold registerScript, register, get; simpl. apply Map_get_set_same.
  - simpl. unfold scriptHandler, tryCatch, bind, when. rewrite H. reflexivity.
Qed.

(** [scripts_disabled] on the default configuration. *)
Lemma scripts_disabled_witness :
  exists def,
    get (registerScript noStack (str "echo") echo
           (new_FunctionRegistry Examples.enhancedDefaults)) (str "echo") = Some def
    /\ handler def (VStr (str "hi")) initialWorld
       = (Ok (failure (str "Script execution is disabled for security")
                [ (str "stack",
                   noStack (Error (str "Script execution is disabled for security"))) ]),
          initialWorld).
Proof.
  apply (scripts_disabled noStack (new_FunctionRegistry Examples.enhancedDefaults)
           (str "echo") echo (VStr (str "hi")) initialWorld).
  reflexivity.
Defined.

Lemma caught_never_throws (S A : Type) (m : ST S A) (h : exn -> A) (s : S) :
  exists result, fst (tryCatch m (fun error => ret (h error)) s) = Ok result.
Proof.
  unfold tryCatch, ret. destruct (m s) as [[a|e] s']; eexists; reflexivity.
Qed.

(** The handlers the registry builds for command, script and N8N functions
    never reject: whatever the configuration, the argument, the world and
    the environment's answers, they resolve with a value, failures
    included. The handler of an API function rejects in one case only, and
    then with that error: the request was answered with a successful
    response whose body parsed, and [config.transform] returned a promise
    that rejects; the handler returns that promise without awaiting it, so
    its [catch] does not apply. (What a callback of the configuration
    throws is an error object, as everywhere in this development.) *)
Theorem handlers_reject_only_through_transform (env : Environment)
    (stack : exn -> value) (n8n : option jsstring) (now : World -> jsstring)
    (rconfig : Config) (name : jsstring) (args : value) (w : World) :
  (forall cfg e,
      fst (apiHandler env cfg args w) = Throw e
      <-> exists url options response body_text data transform,
            resolveEndpoint cfg args = Ok url
            /\ apiOptions env cfg args = Ok options
            /\ fetch_outcome env w url options = Ok response
            /\ ok response = true
            /\ text response = Ok body_text
            /\ JSON_parse env body_text = Some data
            /\ api_transform cfg = Some transform
            /\ transform data args = Rejects e)
  /\ (forall cfg, exists result, fst (commandHandler env rconfig cfg args w) = Ok result)
  /\ (forall cfg, exists result, fst (scriptHandler stack rconfig cfg args w) = Ok result)
  /\ (forall cfg, exists result, fst (n8nHandler env n8n now name cfg args w) = Ok result).
Proof.
  split; [|split; [|split]]; try (intros cfg; apply caught_never_throws).
  intros cfg e.
  unfold apiHandler, tryCatch, bind, when, lift, fetch, ret, throw.
  destruct (resolveEndpoint cfg args) as [url|e1] eqn:Hurl;
    [|split; [discriminate | intros (?&?&?&?&?&?&?&?&?); discriminate]].
  destruct (apiOptions env cfg args) as [options|e2] eqn:Hopt;
    [|split; [discriminate | intros (?&?&?&?&?&?&?&?&?); discriminate]].
  destruct (fetch_outcome env w url options) as [response|e3] eqn:Hfetch;
    [|split; [discriminate
             | intros (u&o&r&t&d&tr&Hu&Ho&Hf&_); congruence]].
  destruct (ok response) eqn:Hok; cbn [negb];
    [|split; [discriminate
             | intros (u&o&r&t&d&tr&Hu&Ho&Hf&Hk&_); congruence]].
  destruct (text response) as [body_text|e4] eqn:Htext;
    [|split; [discriminate
             | intros (u&o&r&t&d&tr&Hu&Ho&Hf&Hk&Ht&_); congruence]].
  destruct (JSON_parse env body_text) as [data|] eqn:Hparse;
    [|split; [discriminate
             | intros (u&o&r&t&d&tr&Hu&Ho&Hf&Hk&Ht&Hp&_); congruence]].
  destruct (api_transform cfg) as [transform|] eqn:Htr;
    [|split; [discriminate
             | intros (u&o&r&t&d&tr&Hu&Ho&Hf&Hk&Ht&Hp&Hc&_); congruence]].
  destruct (transform data args) as [v|e5|e5] eqn:Hcall; cbn [fst].
  - split; [discriminate|].
    intros (u&o&r&t&d&tr&Hu&Ho&Hf&Hk&Ht&Hp&Hc&Hr). congruence.
  - split; [discriminate|].
    intros (u&o&r&t&d&tr&Hu&Ho&Hf&Hk&Ht&Hp&Hc&Hr). congruence.
  - split.
    + intros H. injection H as <-.
      exists url, options, response, body_text, data, transform. repeat split; assumption.
    + intros (u&o&r&t&d&tr&Hu&Ho&Hf&Hk&Ht&Hp&Hc&Hr). congruence.
Qed.

(** A transform that throws is caught; the rejection of the promise an
    [async] transform returned is the handler's. *)
Lemma transform_throw_and_rejection :
  fst (apiHandler Examples.alertingModel
         (transformed (fun _ _ => Throws (Error (str "no results"))))
         (VStr (str "Beatles")) initialWorld)
  = Ok (failure (str "no results") [])
  /\ fst (apiHandler Examples.alertingModel
            (transformed (fun _ _ => Rejects (Error (str "no results"))))
            (VStr (str "Beatles")) initialWorld)
     = Throw (Error (str "no results")).
Proof. split; vm_compute; reflexivity. Qed.

(** After construction, [get(name)] finds: for a name of [config.functions]
    with one of the four types or none, the user's function, under its
    type ([api] for a definition without type), also when the name is that
    of a built-in function, which it replaces; for a name whose definition
    has an unknown type, and for every other name, what the registry held
    before, that is the built-in function of that name or nothing. *)
Theorem user_functions_lookup (env : Environment) (stack : exn -> value)
    (n8n : option jsstring) (now : World -> jsstring) (config : Config)
    (functions : list (jsstring * UserFunction)) (name : jsstring) :
  NoDup (map fst functions) ->
  get (functionRegistry (construct env stack n8n now config functions)) name
  = match Map_get name functions with
    | Some definition =>
        match stored env stack n8n now config name definition with
        | Some def => Some def
        | None => get (new_FunctionRegistry config) name
        end
    | None => get (new_FunctionRegistry config) name
    end.
Proof.
  intros Hnd. unfold construct; simpl.
  rewrite (registerUserFunctions_get env stack n8n now functions name Hnd).
  reflexivity.
Qed.

(** [user_functions_lookup] on [sampleFunctions], for the name [speak]. *)
Lemma user_functions_lookup_witness :
  get (functionRegistry
         (construct Examples.offline noStack None epoch Examples.enhancedDefaults
            sampleFunctions)) (str "speak")
  = Some {| type := str "api"; name := str "speak";
            handler := def_handler Examples.lookupDefinition;
            parseArgs := def_parseArgs Examples.lookupDefinition;
            description := def_description Examples.lookupDefinition |}.
Proof.
  apply (user_functions_lookup Examples.offline noStack None epoch
           Examples.enhancedDefaults sampleFunctions (str "speak")).
  repeat constructor; simpl; intuition discriminate.
Defined.

(** [getAll] after construction lists the four built-in functions first, in
    the order of their registration (a built-in replaced by a user function
    keeps its place), and then the user's functions that are no built-ins,
    in the order of [config.functions]; a definition of unknown type is not
    listed; no name is listed twice. *)
Theorem functions_listing (env : Environment) (stack : exn -> value)
    (n8n : option jsstring) (now : World -> jsstring) (config : Config)
    (functions : list (jsstring * UserFunction)) :
  NoDup (map fst functions) ->
  listed (functionRegistry (construct env stack n8n now config functions))
  = builtinNames
      ++ filter (fun n => negb (among builtinNames n)) (map fst (filter known functions))
  /\ NoDup (listed (functionRegistry (construct env stack n8n now config functions))).
Proof.
  intros Hnd.
  assert (Hl : forall this, listed this = map fst (Enhanced.functions this)).
  { intros this. unfold listed, getAll. rewrite map_map. reflexivity. }
  assert (Heq : listed (functionRegistry (construct env stack n8n now config functions))
                = builtinNames
                    ++ filter (fun n => negb (among builtinNames n))
                              (map fst (filter known functions))).
  { rewrite Hl. unfold construct; simpl.
    rewrite (registerUserFunctions_keys env stack n8n now functions Hnd).
    reflexivity. }
  split; [exact Heq|].
  rewrite Hl. unfold construct; simpl.
  assert (Hwf : forall fs this,
             Map_wf (Enhanced.functions this) ->
             Map_wf (Enhanced.functions
                       (registerUserFunctions env stack n8n now fs this))).
  { unfold registerUserFunctions.
    induction fs as [|[n d] fs IH]; intros this Hw; simpl; [exact Hw|].
    apply IH. destruct d; simpl; try exact Hw;
      unfold registerAPI, registerCommand, registerScript, registerN8N, register;
      simpl; apply Map_set_wf; exact Hw. }
  apply Hwf. apply RegistrySpec.new_FunctionRegistry_wf.
Qed.

(** [functions_listing] on [sampleFunctions]. *)
Lemma functions_listing_witness :
  listed (functionRegistry
            (construct Examples.offline noStack None epoch Examples.enhancedDefaults
               sampleFunctions))
  = [ str "showAlert"; str "openWindow"; str "showModal"; str "speak";
      str "searchMusic" ]
  /\ NoDup (listed (functionRegistry
                      (construct Examples.offline noStack None epoch
                         Examples.enhancedDefaults sampleFunctions))).
Proof.
  apply (functions_listing Examples.offline noStack None epoch
           Examples.enhancedDefaults sampleFunctions).
  repeat constructor; simpl; intuition discriminate.
Defined.

(** An N8N function makes no request when neither the function nor the
    configuration names an endpoint (an empty string counts as none), and
    exactly one otherwise, whatever comes back: a POST to
    [<endpoint>/webhook/<webhookId or function name>], the function's own
    endpoint before the configuration's. It never rejects, no process is
    spawned, and every result names the workflow; without an endpoint the
    result is the failure "N8N endpoint not configured". *)
Theorem n8n_workflow_call (env : Environment) (n8n : option jsstring)
    (now : World -> jsstring) (name : jsstring) (cfg : N8NConfig)
    (args : value) (w : World) :
  exists result,
    n8nHandler env n8n now name cfg args w
    = (Ok result,
       match n8nEndpoint n8n cfg with
       | Some endpoint =>
           afterRequest w (endpoint ++ str "/webhook/" ++ workflow name cfg,
                           n8nOptions env now cfg args w)
       | None => w
       end)
    /\ getProp result "workflow" = Ok (VStr (workflow name cfg))
    /\ match n8nEndpoint n8n cfg with
       | Some _ => True
       | None => result = failure (str "N8N endpoint not configured")
                            [ (str "workflow", VStr (workflow name cfg)) ]
       end.
Proof.
  unfold n8nHandler, tryCatch, bind, when, lift, fetch, ret, throw, afterRequest.
  destruct (n8nEndpoint n8n cfg) as [endpoint|].
  - destruct (fetch_outcome env w _ _) as [response|e]; [|eexists; repeat split].
    destruct (ok response); simpl; [|eexists; repeat split].
    unfold json, andThen.
    destruct (text response) as [t|e]; [|eexists; repeat split].
    destruct (JSON_parse env t) as [v|]; eexists; repeat split.
  - eexists; repeat split.
Qed.

End RegistrationSpec.

(* ===================================================================== *)
(** ** v1: built-in functions and validation *)
(* ===================================================================== *)

Module FrameworkSpec.

Import StringFacts.

Lemma fold_set_get (V : Type) (news : Map V) :
  forall (m : Map V) (k : jsstring),
    NoDup (map fst news) ->
    Map_get k (fold_left (fun acc kv => Map_set (fst kv) (snd kv) acc) news m)
    = match Map_get k news with
      | Some v => Some v
      | None => Map_get k m
      end.
Proof.
  induction news as [|[k' v'] news IH]; intros m k Hnd; simpl; [reflexivity|].
  inversion Hnd as [|x l Hnotin Hnd']; subst.
  rewrite (IH _ _ Hnd').
  destruct (jsstring_eqb k k') eqn:E.
  - apply jsstring_eqb_eq in E. subst k'.
    replace (Map_get k news) with (@None V).
    + apply Map_get_set_same.
    + symmetry. clear -Hnotin. induction news as [|[a b] news IH]; [reflexivity|].
      simpl in *. replace (jsstring_eqb k a) with false.
      * apply IH. tauto.
      * symmetry. apply jsstring_eqb_neq. intros ->. tauto.
  - apply jsstring_eqb_neq in E.
    rewrite Map_get_set_other by exact E. reflexivity.
Qed.

Lemma functionsAt_validated (config : Framework.Config)
    (name : jsstring) :
  Framework.functionsAt (Framework.validateConfiguration config) name
  = match (if Framework.browserActions (Framework.app config)
           then Map_get name Framework.browserFunctions else None) with
    | Some builtin => Framework.Own builtin
    | None => Framework.functionsAt config name
    end.
Proof.
  unfold Framework.validateConfiguration.
  destruct (Framework.browserActions (Framework.app config)); [|reflexivity].
  unfold Framework.functionsAt, Framework.registerBrowserFunctions.
  cbn [Framework.functions].
  rewrite fold_set_get.
  - destruct (Map_get name Framework.browserFunctions); reflexivity.
  - repeat constructor; simpl; intuition discriminate.
Qed.

(** In v1 the built-in browser functions win: with browser actions enabled,
    each of the four names resolves to the built-in function whatever the
    user configured under that name, and every other name resolves as in
    the user's configuration; with browser actions disabled nothing
    changes. *)
Theorem v1_builtins_replace_user_functions (config : Framework.Config)
    (name : jsstring) :
  Framework.functionsAt (Framework.validateConfiguration config) name
  = match (if Framework.browserActions (Framework.app config)
           then Map_get name Framework.browserFunctions else None) with
    | Some builtin => Framework.Own builtin
    | None => Framework.functionsAt config name
    end.
Proof.
  apply functionsAt_validated.
Qed.

(** What a plain object without the own property finds. *)
Lemma inherited_spec (key : jsstring) :
  Framework.inherited key
  = if onPrototype key
    then Framework.FromPrototype
           (if jsstring_eqb key (str "__proto__") then str "object" else str "function")
    else Framework.Held VUndefined.
Proof.
  unfold Framework.inherited, onPrototype.
  destruct (jsstring_eqb key (str "__proto__")) eqn:E; [|reflexivity].
  apply jsstring_eqb_eq in E. subst key. reflexivity.
Qed.

Lemma checkRequired_spec (funcName : value) (ps : list (jsstring * value))
    (l : list jsstring) :
  if forallb (present ps) l
  then Framework.checkRequired funcName (VObj ps) l = Ok tt
  else exists e, Framework.checkRequired funcName (VObj ps) l = Throw e.
Proof.
  induction l as [|r l IH]; [reflexivity|].
  cbn [Framework.checkRequired Framework.member andThen forallb].
  unfold present at 1.
  destruct (assoc r ps) as [v|].
  - destruct v; cbn [andb]; try exact IH; eexists; reflexivity.
  - rewrite inherited_spec.
    destruct (onPrototype r); cbn [andb]; [exact IH | eexists; reflexivity].
Qed.

Lemma checkTypes_spec (funcName : value) (ps : list (jsstring * value))
    (l : list (jsstring * jsstring)) :
  if forallb (wellTyped ps) l
  then Framework.checkTypes funcName (VObj ps) l = Ok tt
  else exists e, Framework.checkTypes funcName (VObj ps) l = Throw e.
Proof.
  induction l as [|[p t] l IH]; [reflexivity|].
  cbn [Framework.checkTypes Framework.member andThen forallb].
  unfold wellTyped at 1. cbn [fst snd].
  assert (Hgen : forall m expected,
             jsstring_eqb (Framework.typeofMember m) t = expected ->
             if expected && forallb (wellTyped ps) l
             then (if jsstring_eqb (Framework.typeofMember m) t
                   then Framework.checkTypes funcName (VObj ps) l
                   else Throw (Error (str "Function " ++ toString funcName
                                 ++ str " parameter " ++ p ++ str " should be "
                                 ++ t ++ str ", got " ++ Framework.typeofMember m
                                 ++ str " ")))
                  = Ok tt
             else exists e,
                 (if jsstring_eqb (Framework.typeofMember m) t
                  then Framework.checkTypes funcName (VObj ps) l
                  else Throw (Error (str "Function " ++ toString funcName
                                 ++ str " parameter " ++ p ++ str " should be "
                                 ++ t ++ str ", got " ++ Framework.typeofMember m
                                 ++ str " ")))
                 = Throw e).
  { intros m expected <-.
    destruct (jsstring_eqb (Framework.typeofMember m) t); cbn [andb];
      [exact IH | eexists; reflexivity]. }
  destruct (assoc p ps) as [v|].
  - destruct v; cbn [andb]; try exact IH;
      apply (Hgen (Framework.Held _)); reflexivity.
  - rewrite inherited_spec. destruct (onPrototype p); cbn [andb]; [|exact IH].
    apply (Hgen (Framework.FromPrototype _)). reflexivity.
Qed.

(** [executeFunction] runs the handler of a function with a [validation],
    on arguments that are a plain object, exactly when the arguments pass
    it: every required parameter is neither [undefined] nor [null], and
    every typed parameter is [undefined] or of its expected type, where a
    name that is not an own property of the arguments is read from
    [Object.prototype] (so [constructor] is always present, and is a
    function). Otherwise it throws and the handler is not run: the world is
    as before. *)
Theorem validation_guards_handler (config : Framework.Config) (funcName : value)
    (funcDef : Framework.FunctionDef) (v : Framework.Validation)
    (ps : list (jsstring * value)) (w : World) :
  Framework.functionsAt config (toString funcName) = Framework.Own funcDef ->
  Framework.validation funcDef = Some v ->
  if passes v ps
  then Framework.executeFunction config funcName (VObj ps) w
       = Framework.handler funcDef (VObj ps) w
  else exists e, Framework.executeFunction config funcName (VObj ps) w = (Throw e, w).
Proof.
  intros Hf Hv. unfold Framework.executeFunction, passes.
  rewrite Hf, Hv. unfold Framework.validateFunctionArgs, bind, lift, andThen.
  destruct (Framework.required v) as [req|]; destruct (Framework.types v) as [ty|];
    simpl;
    try (pose proof (checkRequired_spec funcName ps req) as Hr;
         destruct (forallb (present ps) req); simpl;
         [rewrite Hr | destruct Hr as [e ->]; eexists; reflexivity]);
    try (pose proof (checkTypes_spec funcName ps ty) as Ht;
         destruct (forallb (wellTyped ps) ty); simpl;
         [rewrite Ht | destruct Ht as [e ->]; eexists; reflexivity]);
    destruct (Framework.handler funcDef (VObj ps) w) as [[a|e] w']; reflexivity.
Qed.

(** [validation_guards_handler] on a call of [search] without its [term]. *)
Lemma validation_guards_handler_witness :
  exists e,
    Framework.executeFunction withSearch (VStr (str "search"))
      (VObj [(str "limit", VNum 3)]) initialWorld = (Throw e, initialWorld).
Proof.
  apply (validation_guards_handler withSearch (VStr (str "search")) search
           searchValidation [(str "limit", VNum 3)] initialWorld);
    reflexivity.
Defined.

(** A required parameter named like a member of [Object.prototype] is
    found on every object, and an inherited member has the type of a
    function. *)
Lemma inherited_members_are_seen (funcName : value) :
  Framework.validateFunctionArgs funcName (VObj [])
    {| Framework.required := Some [str "constructor"]; Framework.types := None |}
  = Ok tt
  /\ Framework.validateFunctionArgs funcName (VObj [])
       {| Framework.required := None;
          Framework.types := Some [(str "toString", str "string")] |}
     = Throw (Error (str "Function " ++ toString funcName
                       ++ str " parameter toString should be string, got function ")).
Proof. split; reflexivity. Qed.

(** Arguments that are [null] or [undefined] make the first read throw. *)
Lemma validation_of_null (funcName : value) :
  Framework.validateFunctionArgs funcName VNull searchValidation
  = Throw (TypeError (str "Cannot read properties of null (reading 'term')"))
  /\ Framework.validateFunctionArgs funcName VUndefined searchValidation
     = Throw (TypeError (str "Cannot read properties of undefined (reading 'term')")).
Proof. split; reflexivity. Qed.

(** A string has its [length] and its characters. *)
Lemma members_of_a_string :
  Framework.member (VStr (str "abc")) (str "length") = Ok (Framework.Held (VNum 3))
  /\ Framework.member (VStr (str "abc")) (str "1") = Ok (Framework.Held (VStr (str "b")))
  /\ Framework.member (VStr (str "abc")) (str "3") = Ok (Framework.Held VUndefined).
Proof. repeat split. Qed.

End FrameworkSpec.

(* ===================================================================== *)
(** ** Calls through the v2 chat route *)
(* ===================================================================== *)

Module CallSpec.

Import StringFacts RegexFacts.

Lemma builtin_registered (config : Enhanced.Config) (name action key : string) :
  In (name, action, key) builtins ->
  exists description,
    Enhanced.get (Enhanced.new_FunctionRegistry config) (str name)
    = Some {| Enhanced.type := str "browser"; Enhanced.name := str name;
              Enhanced.handler :=
                fun payload => ret (Enhanced.browserResult action key payload);
              Enhanced.parseArgs := Some Enhanced.trimArgs;
              Enhanced.description := Some description |}.
Proof.
  intros [H|[H|[H|[H|[]]]]]; inversion H; subst; eexists; reflexivity.
Qed.

Lemma builtin_name (name action key : string) :
  In (name, action, key) builtins ->
  str name <> [] /\ forallb word (str name) = true.
Proof.
  intros [H|[H|[H|[H|[]]]]]; inversion H; subst; split;
    try discriminate; reflexivity.
Qed.

(** A call of a built-in browser function sent to the v2 chat route, with
    any whitespace around it: the connection receives the status, the
    browser action with the trimmed argument as its payload, the
    confirmation as a token, and [done]; the response is ended; neither the
    model nor a process is called. All four built-ins, every argument that
    is a single line. *)
Theorem builtin_call_events (env : Environment) (this : Enhanced.LLMFramework)
    (enhanced : jsstring) (res0 : SSE.Res) (w : World)
    (name action key : string) (pre post a : jsstring) :
  In (name, action, key) builtins ->
  Enhanced.functionPattern (Enhanced.this_config this) = defaultFunctionPattern ->
  Enhanced.get (Enhanced.functionRegistry this) (str name)
  = Enhanced.get (Enhanced.new_FunctionRegistry (Enhanced.this_config this)) (str name) ->
  a <> [] -> forallb dot a = true -> trimEnd a = a ->
  forallb is_whitespace pre = true -> forallb is_whitespace post = true ->
  SSE.writableEnded res0 = false ->
  Enhanced.chatStream env this enhanced
    (VStr (pre ++ callText (str name) a ++ post)) (res0, w)
  = (Ok tt, ({| SSE.sent := SSE.sent res0 ++ browserEvents action key (trim a);
                SSE.writableEnded := true;
                SSE.refused := SSE.refused res0 |}, w)).
Proof.
  intros Hin Hpat Hget Ha Hdot Htrim Hpre Hpost Hopen.
  destruct (builtin_registered (Enhanced.this_config this) _ _ _ Hin) as [d Hreg].
  destruct (builtin_name _ _ _ Hin) as [Hn Hw].
  rewrite Hreg in Hget.
  unfold Enhanced.chatStream, Enhanced.detectFunctionCall, callText.
  rewrite Hpat, (trim_padded_call pre post (str name) a Hpre Hpost Ha Htrim).
  rewrite (match_call (str name) a Hn Hw Ha Hdot).
  cbn [nth_error]. rewrite Hget.
  unfold Enhanced.callParseArgs. cbn [Enhanced.parseArgs Enhanced.trimArgs].
  unfold tryCatch at 1. unfold bind at 1. unfold lift at 1. cbv beta iota.
  unfold bind at 1. unfold tryCatch at 1. unfold Enhanced.relayCall.
  cbn [Enhanced.function Enhanced.args]. rewrite Hget.
  destruct res0 as [sent0 ended0 refused0]. simpl in Hopen. subst ended0.
  generalize (trim a) as payload. intros payload.
  destruct Hin as [H|[H|[H|[H|[]]]]]; inversion H; subst;
    cbn; rewrite <- !app_assoc; reflexivity.
Qed.

(** [builtin_call_events] for [speak], on a fresh framework. *)
Lemma builtin_call_events_witness :
  Enhanced.chatStream Examples.offline
    (Enhanced.new_LLMFramework Examples.enhancedDefaults)
    (Enhanced.systemPrompt Examples.enhancedDefaults)
    (VStr (str " " ++ callText (str "speak") (str "  Hello world") ++ nl))
    (SSE.openRes, initialWorld)
  = (Ok tt, ({| SSE.sent := SSE.sent SSE.openRes
                            ++ browserEvents "speak" "text" (trim (str "  Hello world"));
                SSE.writableEnded := true;
                SSE.refused := SSE.refused SSE.openRes |}, initialWorld)).
Proof.
  apply (builtin_call_events Examples.offline
           (Enhanced.new_LLMFramework Examples.enhancedDefaults)
           (Enhanced.systemPrompt Examples.enhancedDefaults)
           SSE.openRes initialWorld "speak" "speak" "text"
           (str " ") nl (str "  Hello world"));
    try reflexivity.
  - right. right. right. left. reflexivity.
  - discriminate.
Defined.

(** In the v2 chat route a call whose handler resolves with a result that
    has neither a truthy [success] nor a truthy [results] (the failures of
    the typed handlers are such results) is not relayed: the connection
    receives the status and [done], and no [error] event. *)
Theorem chat_failed_call_is_silent (env : Environment) (this : Enhanced.LLMFramework)
    (enhanced : jsstring) (message : value) (res0 : SSE.Res) (w w' : World)
    (call : Enhanced.DetectedCall) (func : Enhanced.FunctionDef)
    (result success results : value) :
  SSE.writableEnded res0 = false ->
  Enhanced.detectFunctionCall this message = Ok (Some call) ->
  Enhanced.get (Enhanced.functionRegistry this) (Enhanced.function call) = Some func ->
  Enhanced.handler func (Enhanced.args call) w = (Ok result, w') ->
  getProp result "success" = Ok success -> truthy success = false ->
  getProp result "results" = Ok results -> truthy results = false ->
  Enhanced.chatStream env this enhanced message (res0, w)
  = (Ok tt, ({| SSE.sent := SSE.sent res0
                            ++ [ SSE.status (str "Processing your request...");
                                 SSE.done ];
                SSE.writableEnded := true;
                SSE.refused := SSE.refused res0 |}, w')).
Proof.
  intros Hopen Hdet Hget Hrun Hs Hsf Hr Hrf.
  unfold Enhanced.chatStream.
  unfold tryCatch at 1. unfold bind at 1. unfold lift at 1. rewrite Hdet.
  cbv beta iota.
  unfold bind at 1. unfold tryCatch at 1. unfold Enhanced.relayCall.
  rewrite Hget.
  destruct res0 as [sent0 ended0 refused0]. simpl in Hopen. subst ended0.
  unfold bind, ret, lift, SSE.inWorld, SSE.resWrite, SSE.resEnd, modify, when,
    andAlso, orElse, andThen.
  cbn [fst snd SSE.write SSE.writableEnded SSE.sent SSE.refused].
  rewrite Hrun, Hs, Hsf, Hr, Hrf. cbn. rewrite ?Hs, ?Hsf. cbn.
  rewrite <- app_assoc. reflexivity.
Qed.

(** [chat_failed_call_is_silent] for [pingHost] while commands are disabled. *)
Lemma chat_failed_call_is_silent_witness :
  Enhanced.chatStream Examples.offline withPing
    (Enhanced.systemPrompt Examples.enhancedDefaults)
    (VStr (str "FUNCTION:pingHost:localhost")) (SSE.openRes, initialWorld)
  = (Ok tt, ({| SSE.sent := SSE.sent SSE.openRes
                            ++ [ SSE.status (str "Processing your request...");
                                 SSE.done ];
                SSE.writableEnded := true;
                SSE.refused := SSE.refused SSE.openRes |}, initialWorld)).
Proof.
  apply (chat_failed_call_is_silent Examples.offline withPing
           (Enhanced.systemPrompt Examples.enhancedDefaults)
           (VStr (str "FUNCTION:pingHost:localhost")) SSE.openRes
           initialWorld initialWorld
           {| Enhanced.function := str "pingHost";
              Enhanced.args := VStr (str "localhost") |}
           {| Enhanced.type := str "command"; Enhanced.name := str "pingHost";
              Enhanced.handler :=
                Enhanced.commandHandler Examples.offline Examples.enhancedDefaults
                  Examples.pingHost;
              Enhanced.parseArgs := Some Enhanced.trimArgs;
              Enhanced.description := Some (str "Ping a host") |}
           (Enhanced.failure (str "Command execution is disabled for security")
              [(str "command", VStr (str "dynamic"))])
           (VBool false) VUndefined);
    reflexivity.
Defined.

(** In the v2 chat route a call whose handler rejects is reported: the
    connection receives the status and an [error] event with the error's
    message; the response is ended and the route returns normally. *)
Theorem chat_rejected_call_reports_error (env : Environment)
    (this : Enhanced.LLMFramework) (enhanced : jsstring) (message : value)
    (res0 : SSE.Res) (w w' : World) (call : Enhanced.DetectedCall)
    (func : Enhanced.FunctionDef) (e : exn) :
  SSE.writableEnded res0 = false ->
  Enhanced.detectFunctionCall this message = Ok (Some call) ->
  Enhanced.get (Enhanced.functionRegistry this) (Enhanced.function call) = Some func ->
  Enhanced.handler func (Enhanced.args call) w = (Throw e, w') ->
  Enhanced.chatStream env this enhanced message (res0, w)
  = (Ok tt, ({| SSE.sent := SSE.sent res0
                            ++ [ SSE.status (str "Processing your request...");
                                 SSE.error (VStr (JS.message e)) ];
                SSE.writableEnded := true;
                SSE.refused := SSE.refused res0 |}, w')).
Proof.
  intros Hopen Hdet Hget Hrun.
  unfold Enhanced.chatStream.
  unfold tryCatch at 1. unfold bind at 1. unfold lift at 1. rewrite Hdet.
  cbv beta iota.
  unfold bind at 1. unfold tryCatch at 1. unfold Enhanced.relayCall.
  rewrite Hget.
  destruct res0 as [sent0 ended0 refused0]. simpl in Hopen. subst ended0.
  unfold Enhanced.sendError, bind, ret, lift, SSE.inWorld, SSE.resWrite,
    SSE.resEnd, modify.
  cbn [fst snd SSE.write SSE.writableEnded SSE.sent SSE.refused].
  rewrite Hrun. cbn. rewrite <- app_assoc. reflexivity.
Qed.

(** [chat_rejected_call_reports_error] for a handler that throws. *)
Lemma chat_rejected_call_reports_error_witness :
  Enhanced.chatStream Examples.offline withBroken
    (Enhanced.systemPrompt Examples.enhancedDefaults)
    (VStr (str "FUNCTION:broken:now")) (SSE.openRes, initialWorld)
  = (Ok tt, ({| SSE.sent := SSE.sent SSE.openRes
                            ++ [ SSE.status (str "Processing your request...");
                                 SSE.error (VStr (JS.message (Error (str "boom")))) ];
                SSE.writableEnded := true;
                SSE.refused := SSE.refused SSE.openRes |}, initialWorld)).
Proof.
  apply (chat_rejected_call_reports_error Examples.offline withBroken
           (Enhanced.systemPrompt Examples.enhancedDefaults)
           (VStr (str "FUNCTION:broken:now")) SSE.openRes
           initialWorld initialWorld
           {| Enhanced.function := str "broken"; Enhanced.args := VStr (str "now") |}
           {| Enhanced.type := str "api"; Enhanced.name := str "broken";
              Enhanced.handler := Enhanced.def_handler broken;
              Enhanced.parseArgs := Some Enhanced.trimArgs;
              Enhanced.description := None |}
           (Error (str "boom")));
    reflexivity.
Defined.

(** When the v2 chat route's request to the model fails (the request is
    rejected, or answered with a status that is not 2xx), the connection
    receives a single [error] event, with the rejection's message or
    "LLM API error: <status>"; the response is ended, the route returns
    normally, and the model was requested once. *)
Theorem chat_backend_failure (env : Environment) (this : Enhanced.LLMFramework)
    (enhanced : jsstring) (message : value) (res0 : SSE.Res) (w : World)
    (text : jsstring) :
  SSE.writableEnded res0 = false ->
  Enhanced.detectFunctionCall this message = Ok None ->
  chatFailure
    (fetch_outcome env w
       (fst (generateRequest env this (Enhanced.fullPrompt enhanced message)))
       (snd (generateRequest env this (Enhanced.fullPrompt enhanced message))))
  = Some text ->
  Enhanced.chatStream env this enhanced message (res0, w)
  = (Ok tt, ({| SSE.sent := SSE.sent res0 ++ [ SSE.error (VStr text) ];
                SSE.writableEnded := true;
                SSE.refused := SSE.refused res0 |},
             afterRequest w
               (generateRequest env this (Enhanced.fullPrompt enhanced message)))).
Proof.
  intros Hopen Hdet Hfail.
  unfold Enhanced.chatStream, Enhanced.streamLLMResponse.
  unfold tryCatch at 1. unfold bind at 1. unfold lift at 1. rewrite Hdet.
  cbv beta iota.
  destruct res0 as [sent0 ended0 refused0]. simpl in Hopen. subst ended0.
  unfold generateRequest in *. cbn [fst snd] in Hfail.
  unfold Enhanced.sendError, bind, ret, lift, throw, when, SSE.inWorld, SSE.resWrite,
    SSE.resEnd, modify, fetch, afterRequest.
  cbn [fst snd].
  destruct (fetch_outcome env w _ _) as [response|e]; simpl in Hfail.
  - destruct (ok response); [discriminate|]. injection Hfail as <-. reflexivity.
  - injection Hfail as <-. reflexivity.
Qed.

(** [chat_backend_failure] on a backend that answers 503. *)
Lemma chat_backend_failure_witness :
  Enhanced.chatStream unavailable
    (Enhanced.new_LLMFramework Examples.enhancedDefaults)
    (Enhanced.systemPrompt Examples.enhancedDefaults)
    (VStr (str "hello")) (SSE.openRes, initialWorld)
  = (Ok tt, ({| SSE.sent := SSE.sent SSE.openRes
                            ++ [ SSE.error (VStr (str "LLM API error: 503")) ];
                SSE.writableEnded := true;
                SSE.refused := SSE.refused SSE.openRes |},
             afterRequest initialWorld
               (generateRequest unavailable
                  (Enhanced.new_LLMFramework Examples.enhancedDefaults)
                  (Enhanced.fullPrompt (Enhanced.systemPrompt Examples.enhancedDefaults)
                     (VStr (str "hello")))))).
Proof.
  apply (chat_backend_failure unavailable
           (Enhanced.new_LLMFramework Examples.enhancedDefaults)
           (Enhanced.systemPrompt Examples.enhancedDefaults)
           (VStr (str "hello")) SSE.openRes initialWorld
           (str "LLM API error: 503"));
    reflexivity.
Defined.

End CallSpec.

(* ===================================================================== *)
(** ** Calls through the v1 route *)
(* ===================================================================== *)

Module StreamCallSpec.

Import StringFacts RegexFacts.








End StreamCallSpec.

(* ===================================================================== *)
(** ** Merging configurations *)
(* ===================================================================== *)

Module MergeSpec.

Import StringFacts.
Import Merge.

Lemma deepMerge_forIn (target : cvalue) (entries : list (jsstring * cvalue)) :
  deepMerge target (CObj entries)
  = option_map CObj (forIn target entries (spread target)).
Proof.
  cbn [deepMerge]. f_equal.
  generalize (spread target) as output.
  induction entries as [|[key v] rest IH]; intros output; [reflexivity|].
  cbn [forIn]. unfold step.
  destruct (isIndex key || jsstring_eqb key (str "__proto__")); [reflexivity|].
  destruct (mergeable v).
  - destruct (cget target key) as [t|]; [|reflexivity].
    destruct (deepMerge (if ctruthy t then t else CObj []) v); [apply IH | reflexivity].
  - apply IH.
Qed.

Lemma Map_get_absent (V : Type) (m : Map V) (k : jsstring) :
  existsb (fun e => jsstring_eqb k (fst e)) m = false -> Map_get k m = None.
Proof.
  induction m as [|[k' v] m IH]; simpl; [reflexivity|].
  destruct (jsstring_eqb k k'); simpl; [discriminate | exact IH].
Qed.

Lemma cwf_cons (key : jsstring) (x : cvalue) (rest : list (jsstring * cvalue)) :
  cwf (CObj ((key, x) :: rest)) = true ->
  Map_get key rest = None /\ cwf x = true /\ cwf (CObj rest) = true.
Proof.
  cbn [cwf]. rewrite !andb_true_iff, negb_true_iff.
  intros [[H1 H2] H3]. split; [apply Map_get_absent; exact H1 | split; assumption].
Qed.

Lemma cwf_get (entries : list (jsstring * cvalue)) (key : jsstring) (v : cvalue) :
  cwf (CObj entries) = true -> Map_get key entries = Some v -> cwf v = true.
Proof.
  induction entries as [|[k x] rest IH]; intros Hwf Hget; [discriminate|].
  apply cwf_cons in Hwf as (_ & Hx & Hrest).
  cbn [Map_get] in Hget. destruct (jsstring_eqb key k).
  - injection Hget as <-. exact Hx.
  - apply IH; assumption.
Qed.

(** What the loop leaves under a key. *)
Lemma forIn_get (target : cvalue) (entries : list (jsstring * cvalue)) (key : jsstring) :
  cwf (CObj entries) = true ->
  forall output out,
    forIn target entries output = Some out ->
    match Map_get key entries with
    | Some v => exists x, step target key v = Some x /\ Map_get key out = Some x
    | None => Map_get key out = Map_get key output
    end.
Proof.
  induction entries as [|[k v] rest IH]; intros Hwf output out Hrun.
  - injection Hrun as <-. reflexivity.
  - apply cwf_cons in Hwf as (Habsent & _ & Hrest).
    cbn [forIn] in Hrun.
    destruct (step target k v) as [x|] eqn:Hstep; [|discriminate].
    specialize (IH Hrest _ _ Hrun).
    cbn [Map_get]. destruct (jsstring_eqb key k) eqn:E.
    + apply jsstring_eqb_eq in E. subst k.
      rewrite Habsent in IH. exists x. split; [exact Hstep|].
      rewrite IH. apply Map_get_set_same.
    + destruct (Map_get key rest); [exact IH|].
      rewrite IH. apply Map_get_set_other. apply jsstring_eqb_neq. exact E.
Qed.

Lemma at_falsy (t : cvalue) (key : jsstring) (rest : list jsstring) :
  at_ (if ctruthy t then t else CObj []) (key :: rest) = at_ t (key :: rest).
Proof.
  destruct (ctruthy t) eqn:E; [reflexivity|].
  destruct t; try discriminate; try reflexivity.
  destruct s; [reflexivity | discriminate].
Qed.

Lemma paths (path : list jsstring) :
  forall target source merged,
    deepMerge target source = Some merged ->
    cwf source = true ->
    match classify source path with
    | Leaf v => at_ merged path = v
    | Silent => at_ merged path = at_ target path
    | Inner => True
    end.
Proof.
  induction path as [|key rest IH]; intros target source merged Hm Hwf; [exact I|].
  destruct source as [| | | | |items|label|re|entries];
    try discriminate Hm; try exact I;
    try (injection Hm as <-; reflexivity).
  rewrite deepMerge_forIn in Hm.
  destruct (forIn target entries (spread target)) as [out|] eqn:Hrun; [|discriminate].
  injection Hm as <-.
  pose proof (forIn_get target entries key Hwf _ _ Hrun) as Hget.
  cbn [classify].
  destruct (Map_get key entries) as [v|] eqn:Hv.
  - destruct Hget as (x & Hstep & Hout).
    unfold step in Hstep.
    destruct (isIndex key || jsstring_eqb key (str "__proto__")); [discriminate|].
    destruct (mergeable v) eqn:Hmv.
    + destruct rest as [|r rs]; [exact I|].
      destruct (cget target key) as [t|] eqn:Ht; [|discriminate].
      specialize (IH _ _ _ Hstep (cwf_get _ _ _ Hwf Hv)).
      assert (Hat : at_ (CObj out) (key :: r :: rs) = at_ x (r :: rs)).
      { cbn [at_ spread]. rewrite Hout. reflexivity. }
      assert (Htar : at_ target (key :: r :: rs) = at_ t (r :: rs)).
      { destruct target; try discriminate Ht. cbn [cget] in Ht.
        cbn [at_ spread]. destruct (Map_get key props) as [y|].
        - injection Ht as <-. reflexivity.
        - destruct (existsb (jsstring_eqb key) Framework.objectPrototype);
            [discriminate|]. injection Ht as <-. reflexivity. }
      destruct (classify v (r :: rs)).
      * rewrite Hat. exact IH.
      * rewrite Hat, Htar, IH. apply at_falsy.
      * exact I.
    + destruct rest as [|r rs]; [|exact I].
      injection Hstep as <-. cbn [at_ spread]. rewrite Hout. reflexivity.
  - cbn [at_ spread]. rewrite Hget. reflexivity.
Qed.

(** [deepMerge] path by path: where the source has a value that is not
    itself merged (anything but a plain object or a regular expression),
    the result has that value, whatever the target holds there; where the
    source says nothing, the result has what the target has. *)
Theorem deepMerge_paths (target source merged : cvalue) (path : list jsstring) :
  deepMerge target source = Some merged ->
  cwf source = true ->
  (forall v, classify source path = Leaf v -> at_ merged path = v)
  /\ (classify source path = Silent -> at_ merged path = at_ target path).
Proof.
  intros Hm Hwf. pose proof (paths path _ _ _ Hm Hwf) as H.
  split.
  - intros v Hc. rewrite Hc in H. exact H.
  - intros Hc. rewrite Hc in H. exact H.
Qed.

(** [deepMerge_paths] on the defaults and [userConfig]: the user's endpoint
    replaces the default one, the default model stays. *)
Lemma deepMerge_paths_witness :
  (forall v, classify userConfig [str "llm"; str "endpoint"] = Leaf v ->
             at_ sampleMerged [str "llm"; str "endpoint"] = v)
  /\ (classify userConfig [str "llm"; str "endpoint"] = Silent ->
      at_ sampleMerged [str "llm"; str "endpoint"]
      = at_ (EnhancedConfig.defaults noEnv noInt noFloat) [str "llm"; str "endpoint"]).
Proof.
  apply (deepMerge_paths (EnhancedConfig.defaults noEnv noInt noFloat) userConfig
           sampleMerged [str "llm"; str "endpoint"]); reflexivity.
Defined.

(** A pattern the user gives as a regular expression does not survive
    [mergeWithDefaults]: a regular expression is merged like a plain object
    and has no enumerable properties, so the merged [functionPattern] is an
    empty object, in v2 and in v1, whatever the expression. *)
Theorem user_pattern_is_lost (process_env : string -> option jsstring)
    (parseInt : jsstring -> option Z) (parseFloat : jsstring -> option (Z * positive))
    (entries : list (jsstring * cvalue)) (re : jsstring) :
  cwf (CObj entries) = true ->
  Map_get (str "functionPattern") entries = Some (CRegExp re) ->
  (forall merged,
      EnhancedConfig.mergeWithDefaults process_env parseInt parseFloat (CObj entries)
      = Some merged ->
      at_ merged [str "functionPattern"] = CObj [])
  /\ (forall merged,
         FrameworkConfig.mergeWithDefaults process_env parseInt parseFloat (CObj entries)
         = Some merged ->
         at_ merged [str "functionPattern"] = CObj []).
Proof.
  intros Hwf Hget.
  assert (Hgen : forall target merged,
             cget target (str "functionPattern")
             = Some (EnhancedConfig.functionPatternDefault process_env) ->
             deepMerge target (CObj entries) = Some merged ->
             at_ merged [str "functionPattern"] = CObj []).
  { intros target merged Ht Hm. rewrite deepMerge_forIn in Hm.
    destruct (forIn target entries (spread target)) as [out|] eqn:Hrun; [|discriminate].
    injection Hm as <-.
    pose proof (forIn_get target entries (str "functionPattern") Hwf _ _ Hrun) as H.
    rewrite Hget in H. destruct H as (x & Hstep & Hout).
    unfold step in Hstep. rewrite Ht in Hstep. cbn in Hstep.
    injection Hstep as <-. cbn [at_ spread]. rewrite Hout. reflexivity. }
  split; intros merged Hm.
  - apply (Hgen (EnhancedConfig.defaults process_env parseInt parseFloat) merged);
      [reflexivity | exact Hm].
  - apply (Hgen (FrameworkConfig.defaults process_env parseInt parseFloat) merged);
      [reflexivity | exact Hm].
Qed.

(** [user_pattern_is_lost] on [userConfig]. *)
Lemma user_pattern_is_lost_witness :
  (forall merged,
      EnhancedConfig.mergeWithDefaults noEnv noInt noFloat userConfig = Some merged ->
      at_ merged [str "functionPattern"] = CObj [])
  /\ (forall merged,
         FrameworkConfig.mergeWithDefaults noEnv noInt noFloat userConfig = Some merged ->
         at_ merged [str "functionPattern"] = CObj []).
Proof.
  apply (user_pattern_is_lost noEnv noInt noFloat
           [ (str "llm", CObj [ (str "endpoint",
                                  CStr (str "http://ollama:11434/api/generate")) ]);
             (str "app", CObj [ (str "name", CStr (str "Helpdesk")) ]);
             (str "functionPattern", CRegExp (str "^CALL:(\w+):(.+)$")) ]
           (str "^CALL:(\w+):(.+)$"));
    reflexivity.
Defined.

(** Commands and scripts are off by default: where the user's
    configuration says nothing about [security.allowCommands]
    ([security.allowScripts]), the merged configuration has [true] there
    exactly when the environment variable [ALLOW_COMMANDS]
    ([ALLOW_SCRIPTS]) is the text [true], and [false] otherwise. *)
Theorem commands_and_scripts_off_by_default
    (process_env : string -> option jsstring)
    (parseInt : jsstring -> option Z) (parseFloat : jsstring -> option (Z * positive))
    (config merged : cvalue) :
  EnhancedConfig.mergeWithDefaults process_env parseInt parseFloat config = Some merged ->
  cwf config = true ->
  (classify config [str "security"; str "allowCommands"] = Silent ->
   at_ merged [str "security"; str "allowCommands"]
   = CBool match process_env "ALLOW_COMMANDS"%string with
           | Some s => jsstring_eqb s (str "true")
           | None => false
           end)
  /\ (classify config [str "security"; str "allowScripts"] = Silent ->
      at_ merged [str "security"; str "allowScripts"]
      = CBool match process_env "ALLOW_SCRIPTS"%string with
              | Some s => jsstring_eqb s (str "true")
              | None => false
              end).
Proof.
  intros Hm Hwf. unfold EnhancedConfig.mergeWithDefaults in Hm. split; intros Hc.
  - pose proof (paths [str "security"; str "allowCommands"] _ _ _ Hm Hwf) as H.
    rewrite Hc in H. rewrite H. cbn. unfold EnhancedConfig.envIs.
    destruct (process_env "ALLOW_COMMANDS"%string); reflexivity.
  - pose proof (paths [str "security"; str "allowScripts"] _ _ _ Hm Hwf) as H.
    rewrite Hc in H. rewrite H. cbn. unfold EnhancedConfig.envIs.
    destruct (process_env "ALLOW_SCRIPTS"%string); reflexivity.
Qed.

(** [commands_and_scripts_off_by_default] on [userConfig]. *)
Lemma commands_and_scripts_off_by_default_witness :
  (classify userConfig [str "security"; str "allowCommands"] = Silent ->
   at_ sampleMerged [str "security"; str "allowCommands"]
   = CBool match noEnv "ALLOW_COMMANDS"%string with
           | Some s => jsstring_eqb s (str "true")
           | None => false
           end)
  /\ (classify userConfig [str "security"; str "allowScripts"] = Silent ->
      at_ sampleMerged [str "security"; str "allowScripts"]
      = CBool match noEnv "ALLOW_SCRIPTS"%string with
              | Some s => jsstring_eqb s (str "true")
              | None => false
              end).
Proof.
  apply (commands_and_scripts_off_by_default noEnv noInt noFloat userConfig
           sampleMerged); reflexivity.
Defined.

End MergeSpec.

(* ===================================================================== *)
(** ** Navigation links *)
(* ===================================================================== *)

Module NavigationSpec.

Import StringFacts RegexFacts.
Import Merge FrameworkConfig.

Lemma split_free (sep : N) (s : jsstring) :
  free sep s = true -> split sep s = [s].
Proof.
  induction s as [|c s IH]; simpl; intros H; [reflexivity|].
  apply andb_true_iff in H as [Hc Hs]. apply negb_true_iff in Hc.
  rewrite Hc, (IH Hs). reflexivity.
Qed.

Lemma split_piece (sep : N) (a rest : jsstring) :
  free sep a = true -> split sep (a ++ sep :: rest) = a :: split sep rest.
Proof.
  induction a as [|c a IH]; intros H.
  - simpl. rewrite N.eqb_refl. reflexivity.
  - simpl in H. apply andb_true_iff in H as [Hc Ha]. apply negb_true_iff in Hc.
    cbn [app split]. rewrite Hc, (IH Ha). reflexivity.
Qed.

Lemma free_app (sep : N) (a b : jsstring) :
  free sep (a ++ b) = free sep a && free sep b.
Proof. unfold free. apply forallb_app. Qed.

Lemma trim_link (text url : jsstring) :
  plain text -> plain url ->
  trim (text ++ [bar] ++ url) = text ++ [bar] ++ url.
Proof.
  intros (_ & _ & Hts & Hte) (_ & _ & Hus & Hue).
  unfold trim.
  assert (Hs : trimStart (text ++ [bar] ++ url) = text ++ [bar] ++ url).
  { destruct text as [|c t]; [reflexivity|].
    apply trimStart_app. apply (trimStart_fixed c t). exact Hts. }
  rewrite Hs. rewrite app_assoc.
  destruct url as [|u url'].
  - rewrite app_nil_r. apply trimEnd_app; [discriminate | reflexivity].
  - apply trimEnd_app; [discriminate | exact Hue].
Qed.

Lemma parseLink_plain (text url : jsstring) :
  plain text -> plain url ->
  parseLink (text ++ [bar] ++ url) = Some (linkOf (text, url)).
Proof.
  intros Ht Hu. unfold parseLink. rewrite (trim_link _ _ Ht Hu).
  destruct Ht as (_ & Htb & Hts & Hte). destruct Hu as (_ & Hub & Hus & Hue).
  cbn [app]. rewrite (split_piece bar text url Htb), (split_free bar url Hub).
  unfold linkOf, trim. cbn [fst snd]. rewrite Hts, Hte, Hus, Hue. reflexivity.
Qed.

Lemma split_links (ls : list (jsstring * jsstring)) :
  ls <> [] ->
  Forall (fun l => plain (fst l) /\ plain (snd l)) ls ->
  split comma (formatLinks ls) = map (fun l => fst l ++ [bar] ++ snd l) ls.
Proof.
  unfold formatLinks.
  induction ls as [|[t u] ls IH]; intros Hne Hall; [congruence|].
  inversion Hall as [|x l' [Ht Hu] Hrest]; subst. cbn [fst snd] in *.
  assert (Hfree : free comma (t ++ [bar] ++ u) = true).
  { rewrite !free_app. destruct Ht as (-> & _). destruct Hu as (-> & _). reflexivity. }
  destruct ls as [|l2 ls].
  - cbn [map join]. apply split_free. exact Hfree.
  - change (join [comma] (map (fun l => fst l ++ [bar] ++ snd l) ((t, u) :: l2 :: ls)))
      with ((t ++ [bar] ++ u) ++ comma
              :: join [comma] (map (fun l => fst l ++ [bar] ++ snd l) (l2 :: ls))).
    rewrite (split_piece comma _ _ Hfree), IH by (try discriminate; exact Hrest).
    reflexivity.
Qed.

(** [parseNavigationLinks] reads back what was written: for a non-empty
    list of texts and URLs that hold no comma and no bar and have no
    whitespace at their ends, written as [text|url,text|url,...], it
    returns the links in the same order, each with its text, its URL and
    [external] set exactly when the URL starts with [http]. *)
Theorem navigation_links_round_trip (ls : list (jsstring * jsstring)) :
  ls <> [] ->
  Forall (fun l => plain (fst l) /\ plain (snd l)) ls ->
  parseNavigationLinks (Some (formatLinks ls)) = CArr (map linkOf ls).
Proof.
  intros Hne Hall.
  assert (Hitems : links (split comma (formatLinks ls)) = map linkOf ls).
  { rewrite (split_links ls Hne Hall).
    clear Hne. induction Hall as [|[t u] ls [Ht Hu] _ IH]; [reflexivity|].
    cbn [map links fst snd]. cbn [fst snd] in Ht, Hu.
    rewrite (parseLink_plain t u Ht Hu), IH. reflexivity. }
  unfold parseNavigationLinks.
  destruct (formatLinks ls) as [|c s] eqn:E; [|rewrite Hitems; reflexivity].
  exfalso. destruct ls as [|[t u] ls]; [congruence|].
  unfold formatLinks in E. cbn [map join fst snd] in E.
  destruct (map (fun l => fst l ++ [bar] ++ snd l) ls);
    destruct t; discriminate E.
Qed.

(** [navigation_links_round_trip] on a home link and an external one. *)
Lemma navigation_links_round_trip_witness :
  parseNavigationLinks
    (Some (formatLinks [ (str "Home", str "/");
                         (str "Docs", str "https://example.com/docs") ]))
  = CArr (map linkOf [ (str "Home", str "/");
                       (str "Docs", str "https://example.com/docs") ]).
Proof.
  apply (navigation_links_round_trip
           [ (str "Home", str "/"); (str "Docs", str "https://example.com/docs") ]).
  - discriminate.
  - constructor; [|constructor; [|constructor]];
      (split; (split; [reflexivity | split; [reflexivity | split; reflexivity]])).
Defined.

End NavigationSpec.

(* ===================================================================== *)
(** ** Authentication *)
(* ===================================================================== *)

Module AuthSpec.

Import StringFacts.
Import Merge Auth.

Section Manager.
Variable jwt_verify : jsstring -> jsstring -> result value.

Lemma new_sessions (config : cvalue) (secret adminHex uiHex now1 now2 : jsstring)
    (this : AuthenticationManager) :
  new_AuthenticationManager config secret adminHex uiHex now1 now2 = Ok this ->
  sessions this = [] /\ Auth.config this = config.
Proof.
  unfold new_AuthenticationManager, generateInitialApiKeys, andThen.
  destruct (apiKeysEnabled _) as [[|]|e]; simpl; intros H;
    try discriminate; injection H as <-; auto.
Qed.

Lemma sessionOf_empty (this : AuthenticationManager) (req : Request) :
  sessions this = [] -> sessionOf jwt_verify this req = None.
Proof.
  intros H. unfold sessionOf. rewrite H.
  destruct (authorization req) as [h|]; [|reflexivity].
  destruct (startsWith h (str "Bearer ")); [|reflexivity].
  destruct (jwt_verify _ _) as [decoded|e]; [|reflexivity].
  destruct (getProp decoded "sessionId") as [[]|]; reflexivity.
Qed.

Lemma authenticate_keeps (now : jsstring) (req : Request) (this : AuthenticationManager) :
  sessions this = [] ->
  sessions (snd (authenticateRequest jwt_verify now req this)) = []
  /\ Auth.config (snd (authenticateRequest jwt_verify now req this)) = Auth.config this.
Proof.
  intros H. unfold authenticateRequest. rewrite (sessionOf_empty this req H).
  destruct (orOption (x_api_key req) (query_apiKey req)) as [[|c k]|]; auto.
  destruct (Map_get (c :: k) (apiKeys this)); auto.
Qed.

(** No session is ever stored. *)
Lemma reachable_sessions (this : AuthenticationManager) :
  Reachable jwt_verify this -> sessions this = [].
Proof.
  induction 1 as [config secret a u n1 n2 this Hnew | now req this _ IH].
  - apply (new_sessions _ _ _ _ _ _ _ Hnew).
  - apply (authenticate_keeps now req this IH).
Qed.

End Manager.

(** What the guard of a route decides, for every manager that can exist:
    in mode [disabled] every request passes, unauthenticated; in any other
    mode a request passes exactly when the key it presents (the
    [x-api-key] header, or else the [apiKey] query parameter) is one of the
    manager's keys. The [Authorization] header plays no part, since no
    session is ever stored, and neither do the permissions the route asks
    for or those of the key. *)
Theorem guard_decision (jwt_verify : jsstring -> jsstring -> result value)
    (this : AuthenticationManager) (permissions : list jsstring)
    (now : jsstring) (req : Request) (disabled : bool) :
  Reachable jwt_verify this ->
  modeDisabled (Auth.config this) = Ok disabled ->
  fst (requireAuth jwt_verify permissions now req this)
  = Ok (if disabled then Next None
        else match presented req with
             | Some key =>
                 match Map_get key (apiKeys this) with
                 | Some keyData => Next (Some (ByApiKey (usedAt now keyData)))
                 | None => Unauthorized
                 end
             | None => Unauthorized
             end).
Proof.
  intros Hr Hmode. unfold requireAuth. rewrite Hmode.
  destruct disabled; [reflexivity|].
  unfold authenticateRequest, presented.
  rewrite (sessionOf_empty jwt_verify this req (reachable_sessions jwt_verify this Hr)).
  destruct (orOption (x_api_key req) (query_apiKey req)) as [[|c k]|]; simpl;
    try reflexivity.
  destruct (Map_get (c :: k) (apiKeys this)); reflexivity.
Qed.

(** [guard_decision] on a request with a bearer token that the verifier
    accepts: it is turned away. *)
Lemma guard_decision_witness :
  fst (requireAuth lenient [str "chat"] (str "t3") (bearer "abc") keyedManager)
  = Ok (if false then Next None
        else match presented (bearer "abc") with
             | Some key =>
                 match Map_get key (apiKeys keyedManager) with
                 | Some keyData => Next (Some (ByApiKey (usedAt (str "t3") keyData)))
                 | None => Unauthorized
                 end
             | None => Unauthorized
             end).
Proof.
  apply (guard_decision lenient keyedManager [str "chat"] (str "t3") (bearer "abc") false).
  - apply (Constructed lenient keyed (str "secret") (str "aa") (str "bb")
             (str "t1") (str "t2")). reflexivity.
  - reflexivity.
Defined.

(** The key that the root route hands to every caller for the frontend,
    the one of role [ui], passes the guard of every route, whatever
    permissions the route asks for: a manager constructed with API keys
    enabled, in a mode other than [disabled], has such a key, and a request
    presenting it is let through as the UI key. *)
Theorem ui_key_opens_every_route (jwt_verify : jsstring -> jsstring -> result value)
    (config : cvalue) (secret adminHex uiHex now1 now2 : jsstring)
    (this : AuthenticationManager) (permissions : list jsstring) (now : jsstring) :
  new_AuthenticationManager config secret adminHex uiHex now1 now2 = Ok this ->
  apiKeysEnabled config = Ok true ->
  modeDisabled config = Ok false ->
  uiApiKey this = Some (generateApiKey (str "ui") uiHex)
  /\ fst (requireAuth jwt_verify permissions now
            (withKey (generateApiKey (str "ui") uiHex)) this)
     = Ok (Next (Some (ByApiKey
             {| kd_name := str "UI Key"; role := str "ui";
                permissions := [str "chat"; str "examples"; str "functions"];
                created := now2; lastUsed := Some now |}))).
Proof.
  intros Hnew Hen Hmode.
  unfold new_AuthenticationManager, generateInitialApiKeys, andThen in Hnew.
  cbn [Auth.config] in Hnew. rewrite Hen in Hnew. cbn in Hnew.
  injection Hnew as <-. split; [reflexivity|].
  unfold requireAuth. cbn [Auth.config]. rewrite Hmode.
  unfold authenticateRequest, sessionOf, withKey. cbn.
  rewrite jsstring_eqb_refl. reflexivity.
Qed.

(** [ui_key_opens_every_route] on the route that asks for [config]. *)
Lemma ui_key_opens_every_route_witness :
  uiApiKey keyedManager = Some (generateApiKey (str "ui") (str "bb"))
  /\ fst (requireAuth lenient [str "config"] (str "t3")
            (withKey (generateApiKey (str "ui") (str "bb"))) keyedManager)
     = Ok (Next (Some (ByApiKey
             {| kd_name := str "UI Key"; role := str "ui";
                permissions := [str "chat"; str "examples"; str "functions"];
                created := str "t2"; lastUsed := Some (str "t3") |}))).
Proof.
  apply (ui_key_opens_every_route lenient keyed (str "secret") (str "aa") (str "bb")
           (str "t1") (str "t2") keyedManager [str "config"] (str "t3"));
    reflexivity.
Defined.

Lemma reachable_keyless (jwt_verify : jsstring -> jsstring -> result value)
    (this : AuthenticationManager) :
  Reachable jwt_verify this ->
  apiKeysEnabled (Auth.config this) = Ok false -> apiKeys this = [].
Proof.
  induction 1 as [config secret a u n1 n2 this Hnew | now req this Hr IH]; intros Hen.
  - unfold new_AuthenticationManager, generateInitialApiKeys, andThen in Hnew.
    cbn [Auth.config] in Hnew.
    destruct (apiKeysEnabled config) as [[|]|e] eqn:E; cbn in Hnew;
      try discriminate; injection Hnew as <-.
    + cbn [Auth.config] in Hen. congruence.
    + reflexivity.
  - pose proof (reachable_sessions jwt_verify this Hr) as Hs.
    destruct (authenticate_keeps jwt_verify now req this Hs) as [_ Hc].
    rewrite Hc in Hen. specialize (IH Hen).
    unfold authenticateRequest. rewrite (sessionOf_empty jwt_verify this req Hs), IH.
    destruct (orOption (x_api_key req) (query_apiKey req)) as [[|c k]|]; exact IH.
Qed.

(** With authentication on, API keys off and a mode other than [disabled],
    nobody gets in: every request to a guarded route is answered 401,
    whatever token or key it carries. *)
Theorem no_keys_no_access (jwt_verify : jsstring -> jsstring -> result value)
    (this : AuthenticationManager) (permissions : list jsstring)
    (now : jsstring) (req : Request) :
  Reachable jwt_verify this ->
  apiKeysEnabled (Auth.config this) = Ok false ->
  modeDisabled (Auth.config this) = Ok false ->
  fst (requireAuth jwt_verify permissions now req this) = Ok Unauthorized.
Proof.
  intros Hr Hen Hmode. unfold requireAuth. rewrite Hmode.
  unfold authenticateRequest.
  rewrite (sessionOf_empty jwt_verify this req (reachable_sessions jwt_verify this Hr)).
  rewrite (reachable_keyless jwt_verify this Hr Hen).
  destruct (orOption (x_api_key req) (query_apiKey req)) as [[|c k]|]; reflexivity.
Qed.

(** [no_keys_no_access] on a request with an accepted bearer token. *)
Lemma no_keys_no_access_witness :
  fst (requireAuth lenient [str "chat"] (str "t3") (bearer "abc") keylessManager)
  = Ok Unauthorized.
Proof.
  apply (no_keys_no_access lenient keylessManager [str "chat"] (str "t3") (bearer "abc")).
  - apply (Constructed lenient keyless (str "secret") (str "aa") (str "bb")
             (str "t1") (str "t2")). reflexivity.
  - reflexivity.
  - reflexivity.
Defined.

End AuthSpec.

(* ===================================================================== *)
(** ** [fetchAPI] and [pingHost] *)
(* ===================================================================== *)

Module ClientSpec.

Import StringFacts.

(** [fetchAPI] makes exactly one request, with the method as given; it
    sends no body with [GET] or [HEAD], whatever body it is given. On a
    2xx response it resolves with the parsed JSON or, for a body that is
    not JSON, with the body's text as a string; on any other status it
    rejects with "HTTP error! status: <status>". *)
Theorem fetchAPI_contract (env : Environment) (url : jsstring)
    (headers : list (jsstring * jsstring)) (method : jsstring) (body : value)
    (w : World) :
  snd (Index.fetchAPI env url headers method body w)
  = afterRequest w (url, Index.fetchOptions env headers method body)
  /\ fo_method (Index.fetchOptions env headers method body) = method
  /\ (method = str "GET" \/ method = str "HEAD" ->
      fo_body (Index.fetchOptions env headers method body) = None
      /\ fo_headers (Index.fetchOptions env headers method body) = headers)
  /\ (forall response text,
         fetch_outcome env w url (Index.fetchOptions env headers method body)
         = Ok response ->
         Host.text response = Ok text ->
         fst (Index.fetchAPI env url headers method body w)
         = if ok response
           then Ok (match JSON_parse env text with
                    | Some parsed => parsed
                    | None => VStr text
                    end)
           else Throw (Error (str "HTTP error! status: "
                                ++ N_to_jsstring (Host.status response)))).
Proof.
  split; [|split; [|split]].
  - unfold Index.fetchAPI, bind, fetch, when, lift, afterRequest.
    destruct (fetch_outcome env w url _) as [response|e]; [|reflexivity].
    destruct (ok response); [|reflexivity]. cbn.
    destruct (text response) as [t|e]; [|reflexivity].
    destruct (JSON_parse env t); reflexivity.
  - unfold Index.fetchOptions. destruct (Index.sendsBody method body); reflexivity.
  - intros H. unfold Index.fetchOptions.
    replace (Index.sendsBody method body) with false; [split; reflexivity|].
    unfold Index.sendsBody. destruct H as [-> | ->]; cbn;
      rewrite ?andb_false_r; reflexivity.
  - intros response text Hf Ht.
    unfold Index.fetchAPI, bind, fetch, when, lift. rewrite Hf.
    destruct (ok response); [|reflexivity]. cbn. rewrite Ht.
    destruct (JSON_parse env text); reflexivity.
Qed.

Lemma filter_all (A : Type) (f : A -> bool) (l : list A) :
  forallb f (filter f l) = true.
Proof.
  induction l as [|x l IH]; simpl; [reflexivity|].
  destruct (f x) eqn:E; simpl; rewrite ?E; exact IH.
Qed.

(** Whatever text the model sends as the host, [pingHost] hands the shell
    one command and no other: [ping -c 3 ] followed by the letters, digits,
    dots and hyphens of that text, everything else removed; the command
    passes the allow-list, and with commands enabled it is spawned once,
    with a timeout of 10 seconds and a buffer of one megabyte. *)
Theorem pingHost_command (env : Environment) (rconfig : Enhanced.Config)
    (host : jsstring) (w : World) :
  Enhanced.security_allowCommands rconfig = true ->
  spawned (snd (Enhanced.commandHandler env rconfig DuckDuckGo.pingHost (VStr host) w))
  = spawned w ++ [ (str "ping -c 3 " ++ DuckDuckGo.cleanHost host,
                    {| timeout := 10000; maxBuffer := 1048576 |}) ]
  /\ forallb DuckDuckGo.hostChar (DuckDuckGo.cleanHost host) = true
  /\ requested (snd (Enhanced.commandHandler env rconfig DuckDuckGo.pingHost
                       (VStr host) w)) = requested w.
Proof.
  intros Hgate.
  unfold Enhanced.commandHandler, tryCatch, bind, when, lift, execAsync.
  rewrite Hgate. cbn [negb ret Enhanced.computeCommand Enhanced.cmd_command
                      DuckDuckGo.pingHost].
  unfold Enhanced.notAllowed. cbn [Enhanced.cmd_allowedCommands DuckDuckGo.pingHost].
  change (existsb (fun cmd => startsWith (str "ping -c 3 " ++ DuckDuckGo.cleanHost host) cmd)
            [str "ping"]) with true.
  cbn [negb ret]. cbv beta iota.
  destruct (exec_outcome env w _ _) as [[out err]|e];
    (split; [reflexivity | split; [apply filter_all | reflexivity]]).
Qed.

(** [pingHost_command] on a host name with a second command appended. *)
Lemma pingHost_command_witness :
  spawned (snd (Enhanced.commandHandler shell Examples.commandsEnabled
                  DuckDuckGo.pingHost (VStr hostile) initialWorld))
  = spawned initialWorld
      ++ [ (str "ping -c 3 " ++ DuckDuckGo.cleanHost hostile,
            {| timeout := 10000; maxBuffer := 1048576 |}) ]
  /\ forallb DuckDuckGo.hostChar (DuckDuckGo.cleanHost hostile) = true
  /\ requested (snd (Enhanced.commandHandler shell Examples.commandsEnabled
                       DuckDuckGo.pingHost (VStr hostile) initialWorld))
     = requested initialWorld.
Proof.
  apply (pingHost_command shell Examples.commandsEnabled hostile initialWorld).
  reflexivity.
Defined.

End ClientSpec.

(* ===================================================================== *)
(** ** Command functions *)
(* ===================================================================== *)

Module CommandSpec.

(** A command function spawns at most one process, and one exactly when
    commands are allowed, the command could be computed from the argument
    and, if the function has an allow-list, the command starts with one of
    its entries; the process is then the computed command, verbatim. No
    request is made. The allow-list is a test on prefixes: every text that
    starts with an entry passes it. *)
Theorem command_spawns_exactly_when_allowed (env : Environment)
    (rconfig : Enhanced.Config) (cfg : Enhanced.CommandConfig) (args : value)
    (w : World) :
  spawned (snd (Enhanced.commandHandler env rconfig cfg args w))
  = spawned w
      ++ match Enhanced.computeCommand cfg args with
         | Ok command =>
             if Enhanced.security_allowCommands rconfig
                && match Enhanced.cmd_allowedCommands cfg with
                   | Some allowed => existsb (startsWith command) allowed
                   | None => true
                   end
             then [process cfg command]
             else []
         | Throw _ => []
         end
  /\ requested (snd (Enhanced.commandHandler env rconfig cfg args w)) = requested w
  /\ (forall allowed entry rest,
         Enhanced.cmd_allowedCommands cfg = Some allowed ->
         In entry allowed ->
         Enhanced.notAllowed cfg (entry ++ rest) = false).
Proof.
  split; [|split].
  - unfold Enhanced.commandHandler, tryCatch, bind, when, lift, execAsync, throw,
      Enhanced.notAllowed, process, Enhanced.orNumber.
    destruct (Enhanced.security_allowCommands rconfig); cbn [negb andb ret].
    + destruct (Enhanced.computeCommand cfg args) as [command|e]; cbn.
      * destruct (Enhanced.cmd_allowedCommands cfg) as [allowed|]; cbn.
        -- change (fun cmd => startsWith command cmd) with (startsWith command).
           destruct (existsb (startsWith command) allowed); cbn.
           ++ destruct (exec_outcome env w _ _) as [[out err]|e]; reflexivity.
           ++ rewrite app_nil_r. reflexivity.
        -- destruct (exec_outcome env w _ _) as [[out err]|e]; reflexivity.
      * rewrite app_nil_r. reflexivity.
    + cbn. destruct (Enhanced.computeCommand cfg args); rewrite app_nil_r; reflexivity.
  - unfold Enhanced.commandHandler, tryCatch, bind, when, lift, execAsync, throw.
    destruct (Enhanced.security_allowCommands rconfig); cbn [negb ret]; [|reflexivity].
    destruct (Enhanced.computeCommand cfg args) as [command|e]; cbn; [|reflexivity].
    destruct (Enhanced.notAllowed cfg command); cbn; [reflexivity|].
    destruct (exec_outcome env w _ _) as [[out err]|e]; reflexivity.
  - intros allowed entry rest Hcfg Hin. unfold Enhanced.notAllowed. rewrite Hcfg.
    apply negb_false_iff. apply existsb_exists. exists entry. split; [exact Hin|].
    clear. induction entry as [|c entry IH]; [destruct rest; reflexivity|].
    cbn. rewrite N.eqb_refl. exact IH.
Qed.

End CommandSpec.
